(** * rvmofx: the per-frame pipeline of the OpenFX Robust Video Matting plugin

    A shallow embedding of [src/rvmofx.cpp]: the parameter-validity rules,
    the model (re)load step, the recurrent-history handling, the
    pixel-buffer/tensor bridge, the output compositor and the render
    action, followed by the properties established about them.

    The plugin is stateful C++ over two external libraries.  Both are
    modelled only as far as the plugin observes them:
    - libtorch tensors are strided views over shared, mutable storages
      (module [Torch]); in-place operations write through every view of
      the same storage;
    - the OpenFX host is a record of call-backs plus a parameter store
      and a log of image acquisitions and releases (module [Ofx]). *)

From Stdlib Require Import ZArith Bool Floats.SpecFloat.
From stdpp Require Import base list gmap strings.

Open Scope Z_scope.

(** ** IEEE-754 arithmetic

    [OfxTime] and the [downsampleRatio] parameter are C [double]s, tensor
    elements are binary32 or binary16.  All three are instances of the
    parameterised specification of the Standard Library. *)

Module IEEE.

Definition is_nan (x : spec_float) : bool :=
  match x with S754_nan => true | _ => false end.

(** Rounding an already finite value to precision [prec], exponent
    bound [emax] (round to nearest, ties to even). *)
Definition round (prec emax : Z) (x : spec_float) : spec_float :=
  match x with
  | S754_finite s m e => binary_round prec emax s m e
  | _ => x
  end.

(** Truncation of a finite value toward zero, the C conversion of a
    floating value to an integer type.  The conversion of NaN and of
    infinities is undefined in C; they are sent to 0 here. *)
Definition trunc (x : spec_float) : Z :=
  match x with
  | S754_finite s m e =>
      let a := match e with
               | Zneg p => Z.shiftr (Zpos m) (Zpos p)
               | _ => Z.shiftl (Zpos m) e
               end in
      if s then - a else a
  | _ => 0
  end.

(** binary64 *)
Definition double := spec_float.
Definition d_of_Z (z : Z) : double := binary_normalize 53 1024 z 0 false.
Definition d_add : double -> double -> double := SFadd 53 1024.
Definition d_eqb : double -> double -> bool := SFeqb.
Definition d_nan : double := S754_nan.

(** binary32 *)
Definition f32_of_Z (z : Z) : spec_float := binary_normalize 24 128 z 0 false.
Definition f32_mul : spec_float -> spec_float -> spec_float := SFmul 24 128.
Definition f32_div : spec_float -> spec_float -> spec_float := SFdiv 24 128.
Definition f32_round : spec_float -> spec_float := round 24 128.

(** binary16 *)
Definition f16_round : spec_float -> spec_float := round 11 16.

End IEEE.

(** ** Outcomes of C++ code

    A call returns, throws, or has undefined behaviour (an access outside
    the modelled memory).  State changes made before a [throw] persist. *)

Inductive exn :=
| NoImageEx       (* class NoImageEx, local to the plugin *)
| StdException    (* std::exception, among them c10::Error *)
| BadAlloc.       (* std::bad_alloc *)

Inductive Res (A : Type) :=
| Ok (a : A)
| Throw (e : exn)
| Fault.
Arguments Ok {A} a.
Arguments Throw {A} e.
Arguments Fault {A}.

Definition M (S A : Type) : Type := S -> Res A * S.

Definition ret {S A} (a : A) : M S A := fun s => (Ok a, s).

Definition bind {S A B} (m : M S A) (k : A -> M S B) : M S B :=
  fun s =>
    match m s with
    | (Ok a, s') => k a s'
    | (Throw e, s') => (Throw e, s')
    | (Fault, s') => (Fault, s')
    end.

Definition throw {S A} (e : exn) : M S A := fun s => (Throw e, s).
Definition fault {S A} : M S A := fun s => (Fault, s).
Definition get {S} : M S S := fun s => (Ok s, s).
Definition put {S} (s : S) : M S unit := fun _ => (Ok tt, s).

Notation "'let*' x ':=' m 'in' k" := (bind m (fun x => k))
  (at level 10, x name, m at level 100, k at level 200, only parsing).

(** A pure partial result lifted into the monad. *)
Definition liftR {S A} (r : Res A) : M S A := fun s => (r, s).

(** ** libtorch, as far as the plugin uses it *)

Module Torch.

Inductive Device := kCPU | kCUDA.
Inductive Dtype := kByte | kShort | kFloat16 | kFloat32.

#[global] Instance Device_eq_dec : EqDecision Device.
Proof. solve_decision. Defined.
#[global] Instance Dtype_eq_dec : EqDecision Dtype.
Proof. solve_decision. Defined.

(** Size in bytes of one element. *)
Definition itemsize (dt : Dtype) : Z :=
  match dt with kByte => 1 | kShort => 2 | kFloat16 => 2 | kFloat32 => 4 end.

Definition is_floating (dt : Dtype) : bool :=
  match dt with kFloat16 | kFloat32 => true | _ => false end.

(** Type promotion among the four element types. *)
Definition promote (a b : Dtype) : Dtype :=
  match a, b with
  | kFloat32, _ | _, kFloat32 => kFloat32
  | kFloat16, _ | _, kFloat16 => kFloat16
  | kShort, _ | _, kShort => kShort
  | kByte, kByte => kByte
  end.

(** One element of memory, tagged with the type it was stored at. *)
Inductive scalar :=
| SByte (z : Z)
| SShort (z : Z)
| SHalf (f : spec_float)
| SFloat (f : spec_float).

Definition dtype_of (v : scalar) : Dtype :=
  match v with
  | SByte _ => kByte | SShort _ => kShort
  | SHalf _ => kFloat16 | SFloat _ => kFloat32
  end.

Definition wrap_u8 (z : Z) : Z := z mod 256.
Definition wrap_s16 (z : Z) : Z := (z + 32768) mod 65536 - 32768.

Definition to_float (v : scalar) : spec_float :=
  match v with
  | SByte z | SShort z => IEEE.f32_of_Z z
  | SHalf f | SFloat f => f
  end.

Definition to_int (v : scalar) : Z :=
  match v with
  | SByte z | SShort z => z
  | SHalf f | SFloat f => IEEE.trunc f
  end.

(** Element conversion, [static_cast] between the element types; an
    element that has the target type already is left as it is. *)
Definition cast (dt : Dtype) (v : scalar) : scalar :=
  if decide (dtype_of v = dt) then v
  else match dt with
       | kByte => SByte (wrap_u8 (to_int v))
       | kShort => SShort (wrap_s16 (to_int v))
       | kFloat16 => SHalf (IEEE.f16_round (to_float v))
       | kFloat32 => SFloat (IEEE.f32_round (to_float v))
       end.

(** Product of two elements computed at type [dt]. *)
Definition mul_at (dt : Dtype) (a b : scalar) : scalar :=
  match dt with
  | kByte => SByte (wrap_u8 (to_int a * to_int b))
  | kShort => SShort (wrap_s16 (to_int a * to_int b))
  | kFloat16 =>
      SHalf (IEEE.f16_round
               (IEEE.f32_mul (to_float (cast kFloat16 a)) (to_float (cast kFloat16 b))))
  | kFloat32 =>
      SFloat (IEEE.f32_mul (to_float (cast kFloat32 a)) (to_float (cast kFloat32 b)))
  end.

(** Product of an element of floating type [dt] with a C [float]. *)
Definition mul_float_at (dt : Dtype) (a : scalar) (sf : spec_float) : scalar :=
  cast dt (SFloat (IEEE.f32_mul (to_float a) sf)).

(** *** Memory

    A storage is a block of typed cells keyed by the byte offset at
    which the element starts; the heap is the list of all blocks, those
    owned by the host (pixel buffers) and those allocated by libtorch.
    A pointer is a block and a byte offset. *)

Abbreviation Storage := (gmap Z scalar).
Abbreviation Heap := (list (gmap Z scalar)).

Record Ptr := mkPtr { p_blk : nat; p_off : Z }.

Definition ptr_add (p : Ptr) (n : Z) : Ptr :=
  {| p_blk := p_blk p; p_off := p_off p + n |}.

(** The tensor handle: a strided view of a storage.  Sizes and strides
    count elements, [t_off] is the byte offset of element 0. *)
Record TensorImpl := mkTensor {
  t_blk : nat;
  t_off : Z;
  t_sizes : list Z;
  t_strides : list Z;
  t_dtype : Dtype;
  t_device : Device
}.

(** [torch::Tensor]; [None] is the undefined tensor [torch::Tensor()]. *)
Abbreviation Tensor := (option TensorImpl).

Definition defined (t : Tensor) : bool :=
  match t with Some _ => true | None => false end.

Definition numel (sizes : list Z) : Z := foldr Z.mul 1 sizes.

(** Row-major strides of a freshly allocated tensor. *)
Fixpoint cstrides (sizes : list Z) : list Z :=
  match sizes with
  | [] => []
  | _ :: ns => numel ns :: cstrides ns
  end.

(** Element offsets of a view, in logical (row-major index) order. *)
Fixpoint offsets (sizes strides : list Z) : list Z :=
  match sizes, strides with
  | n :: ns, s :: ss =>
      flat_map (fun i => map (Z.add (Z.of_nat i * s)) (offsets ns ss))
               (seq 0 (Z.to_nat n))
  | _, _ => [0]
  end.

Definition addrs (t : TensorImpl) : list Z :=
  map (fun o => t_off t + itemsize (t_dtype t) * o)
      (offsets (t_sizes t) (t_strides t)).

Definition load (s : gmap Z scalar) (dt : Dtype) (a : Z) : option scalar :=
  match s !! a with
  | Some v => if decide (dtype_of v = dt) then Some v else None
  | None => None
  end.

(** The elements of a view in logical order; [None] when the view
    reaches outside its block or over cells of another type. *)
Definition read (h : Heap) (t : TensorImpl) : option (list scalar) :=
  match h !! t_blk t with
  | Some s => mapM (load s (t_dtype t)) (addrs t)
  | None => None
  end.

Definition store_all (s : gmap Z scalar) (avs : list (Z * scalar)) : gmap Z scalar :=
  foldl (fun s av => <[av.1 := av.2]> s) s avs.

(** Writing elements through a view (in logical order). *)
Definition write (h : Heap) (t : TensorImpl) (vs : list scalar) : Heap :=
  match h !! t_blk t with
  | Some s => <[t_blk t := store_all s (zip (addrs t) vs)]> h
  | None => h
  end.

(** A new block holding [vs] contiguously, and the tensor that owns it. *)
Definition fresh (h : Heap) (sizes : list Z) (dt : Dtype) (dev : Device)
    (vs : list scalar) : TensorImpl * Heap :=
  ({| t_blk := length h; t_off := 0; t_sizes := sizes;
      t_strides := cstrides sizes; t_dtype := dt; t_device := dev |},
   h ++ [store_all ∅
           (zip (map (fun i => itemsize dt * Z.of_nat i) (seq 0 (length vs))) vs)]).

(** *** Values of whole tensors

    For the operations that build a new tensor: the elements of an
    n-dimensional array in row-major order, cut into the sub-arrays of
    its first dimension. *)

Fixpoint chunks {A} (n : nat) (k : nat) (l : list A) : list (list A) :=
  match n with
  | O => []
  | S n' => take k l :: chunks n' k (drop k l)
  end.

(** [repeat]: every dimension [i] is tiled [reps_i] times. *)
Fixpoint rep_nd {A} (sizes reps : list Z) (l : list A) : list A :=
  match sizes, reps with
  | n :: ns, r :: rs =>
      mjoin (replicate (Z.to_nat r)
               (flat_map (rep_nd ns rs)
                  (chunks (Z.to_nat n) (Z.to_nat (numel ns)) l)))
  | _, _ => l
  end.

(** [cat] of two arrays along dimension [d]. *)
Fixpoint cat_nd {A} (d : nat) (sa sb : list Z) (la lb : list A) : list A :=
  match d, sa, sb with
  | S d', n :: sa', _ :: sb' =>
      mjoin (zip_with (cat_nd d' sa' sb')
               (chunks (Z.to_nat n) (Z.to_nat (numel sa')) la)
               (chunks (Z.to_nat n) (Z.to_nat (numel sb')) lb))
  | _, _, _ => la ++ lb
  end.

(** *** Operations

    Those that only build a new handle are pure (and throw [c10::Error]
    on arguments libtorch rejects); those that read or write elements
    run over the heap. *)

Definition c10_error {A} : Res A := Throw StdException.

(** [TensorImpl::set_sizes_and_strides]: libtorch keeps no negative
    stride.  A stride that is not negative is taken as it is; in place
    of a negative one the last dimension gets 1, and any other the
    stride of the next dimension times its size (at least 1). *)
Fixpoint set_strides (sizes strides : list Z) : list Z :=
  match sizes, strides with
  | _ :: ns, s :: ss =>
      let rest := set_strides ns ss in
      (if 0 <=? s then s
       else match ns, rest with
            | n :: _, s' :: _ => Z.max n 1 * s'
            | _, _ => 1
            end) :: rest
  | _, _ => []
  end.

(** [torch::from_blob(p, sizes, strides, dtype)]: a CPU view of memory
    the caller owns; nothing is copied.  The strides go through
    [set_sizes_and_strides]; versions of libtorch that check the size
    of the storage first raise [c10::Error] for some of the negative
    ones instead. *)
Definition from_blob (p : Ptr) (sizes strides : list Z) (dt : Dtype) : Res Tensor :=
  if forallb (Z.leb 0) sizes && (length sizes =? length strides)%nat
  then Ok (Some {| t_blk := p_blk p; t_off := p_off p; t_sizes := sizes;
                   t_strides := set_strides sizes strides; t_dtype := dt;
                   t_device := kCPU |})
  else c10_error.

(** [t.to(device, dtype)]: the tensor itself when it already has that
    device and element type, otherwise a converted copy. *)
Definition to (t : Tensor) (td : Device) (tt : Dtype) : M Heap Tensor :=
  match t with
  | None => liftR c10_error
  | Some ti =>
      if decide (t_device ti = td ∧ t_dtype ti = tt) then ret t
      else fun h =>
        match read h ti with
        | Some vs =>
            let (r, h') := fresh h (t_sizes ti) tt td (map (cast tt) vs) in
            (Ok (Some r), h')
        | None => (Fault, h)
        end
  end.

(** [t *= sf] with a C [float]: in place, on every element of the view. *)
Definition mul_scalar_ (t : Tensor) (sf : spec_float) : M Heap unit :=
  match t with
  | None => liftR c10_error
  | Some ti =>
      if negb (is_floating (t_dtype ti)) then liftR c10_error
      else if negb (bool_decide (NoDup (addrs ti))) then liftR c10_error
      else fun h =>
        match read h ti with
        | Some vs =>
            (Ok tt, write h ti (map (fun v => mul_float_at (t_dtype ti) v sf) vs))
        | None => (Fault, h)
        end
  end.

Definition is_perm (dims : list nat) (n : nat) : bool :=
  (length dims =? n)%nat && forallb (fun d => (d <? n)%nat) dims
  && bool_decide (NoDup dims).

(** [t.permute(dims)] *)
Definition permute (t : Tensor) (dims : list nat) : Res Tensor :=
  match t with
  | None => c10_error
  | Some ti =>
      if is_perm dims (length (t_sizes ti)) && (length (t_sizes ti) =? length (t_strides ti))%nat
      then Ok (Some {| t_blk := t_blk ti; t_off := t_off ti;
                       t_sizes := map (fun d => nth d (t_sizes ti) 0) dims;
                       t_strides := map (fun d => nth d (t_strides ti) 0) dims;
                       t_dtype := t_dtype ti; t_device := t_device ti |})
      else c10_error
  end.

(** [t.unsqueeze(d)] *)
Definition unsqueeze (t : Tensor) (d : nat) : Res Tensor :=
  match t with
  | None => c10_error
  | Some ti =>
      if (d <=? length (t_sizes ti))%nat
      then
        let st := match drop d (t_sizes ti), drop d (t_strides ti) with
                  | n :: _, s :: _ => n * s
                  | _, _ => 1
                  end in
        Ok (Some {| t_blk := t_blk ti; t_off := t_off ti;
                    t_sizes := take d (t_sizes ti) ++ 1 :: drop d (t_sizes ti);
                    t_strides := take d (t_strides ti) ++ st :: drop d (t_strides ti);
                    t_dtype := t_dtype ti; t_device := t_device ti |})
      else c10_error
  end.

(** [t.squeeze(d)]: dimension [d] is dropped when its size is 1. *)
Definition squeeze (t : Tensor) (d : nat) : Res Tensor :=
  match t with
  | None => c10_error
  | Some ti =>
      match t_sizes ti !! d with
      | Some n =>
          if n =? 1
          then Ok (Some {| t_blk := t_blk ti; t_off := t_off ti;
                           t_sizes := take d (t_sizes ti) ++ drop (S d) (t_sizes ti);
                           t_strides := take d (t_strides ti) ++ drop (S d) (t_strides ti);
                           t_dtype := t_dtype ti; t_device := t_device ti |})
          else Ok t
      | None => if (length (t_sizes ti) =? 0)%nat && (d =? 0)%nat then Ok t else c10_error
      end
  end.

(** [t.narrow(dim, start, len)] *)
Definition narrow (t : Tensor) (dim : nat) (start len : Z) : Res Tensor :=
  match t with
  | None => c10_error
  | Some ti =>
      match t_sizes ti !! dim, t_strides ti !! dim with
      | Some n, Some s =>
          if (0 <=? start) && (0 <=? len) && (start + len <=? n)
          then Ok (Some {| t_blk := t_blk ti;
                           t_off := t_off ti + itemsize (t_dtype ti) * (start * s);
                           t_sizes := <[dim := len]> (t_sizes ti);
                           t_strides := t_strides ti;
                           t_dtype := t_dtype ti; t_device := t_device ti |})
          else c10_error
      | _, _ => c10_error
      end
  end.

(** Sizes padded with leading 1s up to [n] dimensions. *)
Definition pad_sizes (n : nat) (sizes : list Z) : list Z :=
  replicate (n - length sizes) 1 ++ sizes.

(** [t.repeat(reps)]: always a new tensor. *)
Definition repeat (t : Tensor) (reps : list Z) : M Heap Tensor :=
  match t with
  | None => liftR c10_error
  | Some ti =>
      if (length reps <? length (t_sizes ti))%nat || negb (forallb (Z.leb 0) reps)
      then liftR c10_error
      else fun h =>
        match read h ti with
        | Some vs =>
            let sz := pad_sizes (length reps) (t_sizes ti) in
            let (r, h') := fresh h (zip_with Z.mul sz reps) (t_dtype ti) (t_device ti)
                             (rep_nd sz reps vs) in
            (Ok (Some r), h')
        | None => (Fault, h)
        end
  end.

(** Sizes agree except possibly at dimension [d]. *)
Fixpoint cat_compatible (d : nat) (sa sb : list Z) : bool :=
  match d, sa, sb with
  | O, _ :: sa', _ :: sb' => bool_decide (sa' = sb')
  | S d', a :: sa', b :: sb' => (a =? b) && cat_compatible d' sa' sb'
  | _, _, _ => false
  end.

(** [torch::cat({a, b}, d)]: always a new tensor. *)
Definition cat (a b : Tensor) (d : nat) : M Heap Tensor :=
  match a, b with
  | Some ta, Some tb =>
      if cat_compatible d (t_sizes ta) (t_sizes tb)
         && bool_decide (t_device ta = t_device tb)
      then fun h =>
        match read h ta, read h tb with
        | Some va, Some vb =>
            let dt := promote (t_dtype ta) (t_dtype tb) in
            let sz := <[d := nth d (t_sizes ta) 0 + nth d (t_sizes tb) 0]> (t_sizes ta) in
            let (r, h') := fresh h sz dt (t_device ta)
                             (cat_nd d (t_sizes ta) (t_sizes tb)
                                (map (cast dt) va) (map (cast dt) vb)) in
            (Ok (Some r), h')
        | _, _ => (Fault, h)
        end
      else liftR c10_error
  | _, _ => liftR c10_error
  end.

(** Repetitions that broadcast sizes [so] to sizes [ss], if any. *)
Fixpoint broadcast_reps (ss so : list Z) : option (list Z) :=
  match ss, so with
  | [], [] => Some []
  | n :: ss', m :: so' =>
      match broadcast_reps ss' so' with
      | Some rs => if m =? n then Some (1 :: rs)
                   else if m =? 1 then Some (n :: rs) else None
      | None => None
      end
  | _, _ => None
  end.

(** [a *= b]: in place on [a], with [b] broadcast to the shape of [a]. *)
Definition mul_ (a b : Tensor) : M Heap unit :=
  match a, b with
  | Some ta, Some tb =>
      let dt := promote (t_dtype ta) (t_dtype tb) in
      let so := pad_sizes (length (t_sizes ta)) (t_sizes tb) in
      match broadcast_reps (t_sizes ta) so with
      | Some reps =>
          if bool_decide (t_device ta = t_device tb)
             && (is_floating (t_dtype ta) || negb (is_floating dt))
             && bool_decide (NoDup (addrs ta))
          then fun h =>
            match read h ta, read h tb with
            | Some va, Some vb =>
                (Ok tt,
                 write h ta
                   (zip_with (fun x y => cast (t_dtype ta) (mul_at dt x y))
                      va (rep_nd so reps vb)))
            | _, _ => (Fault, h)
            end
          else liftR c10_error
      | None => liftR c10_error
      end
  | _, _ => liftR c10_error
  end.

(** Row-major contiguity; the stride of a dimension of size 1 is free. *)
Fixpoint is_contiguous_from (z : Z) (rev_dims : list (Z * Z)) : bool :=
  match rev_dims with
  | [] => true
  | (n, s) :: ds =>
      if n =? 1 then is_contiguous_from z ds
      else (s =? z) && is_contiguous_from (z * n) ds
  end.

Definition is_contiguous (ti : TensorImpl) : bool :=
  (numel (t_sizes ti) =? 0)
  || is_contiguous_from 1 (rev (zip (t_sizes ti) (t_strides ti))).

(** [t.contiguous()]: the tensor itself when it is contiguous already. *)
Definition contiguous (t : Tensor) : M Heap Tensor :=
  match t with
  | None => liftR c10_error
  | Some ti =>
      if is_contiguous ti then ret t
      else fun h =>
        match read h ti with
        | Some vs =>
            let (r, h') := fresh h (t_sizes ti) (t_dtype ti) (t_device ti) vs in
            (Ok (Some r), h')
        | None => (Fault, h)
        end
  end.

(** [t.data_ptr<float>()]: the typed accessor checks the element type. *)
Definition data_ptr_float (t : Tensor) : Res Ptr :=
  match t with
  | Some ti =>
      if decide (t_dtype ti = kFloat32)
      then Ok {| p_blk := t_blk ti; p_off := t_off ti |}
      else c10_error
  | None => c10_error
  end.

Definition sizes (t : Tensor) : list Z :=
  match t with Some ti => t_sizes ti | None => [] end.
Definition strides (t : Tensor) : list Z :=
  match t with Some ti => t_strides ti | None => [] end.

(** [memcpy(dst, src, n)] at the granularity of cells: the cells that
    make up the [n] bytes at [src] are copied to the same offsets from
    [dst]; both ranges have to lie in their blocks, and a negative [n]
    (a huge [size_t]) does not.  [fuel] bounds the number of cells. *)
Fixpoint copy_cells (fuel : nat) (s : gmap Z scalar) (src : Z) (n : Z) (k : Z)
    : option (list (Z * scalar)) :=
  if n <=? k then Some []
  else match fuel with
       | O => None
       | S fuel' =>
           match s !! (src + k) with
           | Some v =>
               match copy_cells fuel' s src n (k + itemsize (dtype_of v)) with
               | Some l => Some ((k, v) :: l)
               | None => None
               end
           | None => None
           end
       end.

Definition memcpy (dst src : Ptr) (n : Z) : M Heap unit :=
  fun h =>
    match h !! p_blk src, h !! p_blk dst with
    | Some ss, Some sd =>
        if n <? 0 then (Fault, h) else
        match copy_cells (Z.to_nat n) ss (p_off src) n 0 with
        | Some cells =>
            if forallb (fun kv => bool_decide (is_Some (sd !! (p_off dst + kv.1)))) cells
            then (Ok tt,
                  <[p_blk dst := store_all sd
                                   (map (fun kv => (p_off dst + kv.1, kv.2)) cells)]> h)
            else (Fault, h)
        | None => (Fault, h)
        end
    | _, _ => (Fault, h)
    end.

(** [torch::jit::Kwargs] *)
Abbreviation Kwargs := (gmap string IEEE.double).

(** [torch::jit::script::Module]: the loaded model, known to the plugin
    through [forward(...).toTensorList()] only. *)
Record Module := mkModule {
  forward : list Tensor -> Kwargs -> M Heap (list Tensor)
}.

(** The default-constructed module has no [forward] method. *)
Definition Module_default : Module :=
  {| forward := fun _ _ => liftR c10_error |}.

End Torch.

(** ** The OpenFX host, as far as the plugin uses it *)

Module Ofx.

(** Status codes of [ofxCore.h]. *)
Inductive OfxStatus :=
| kOfxStatOK
| kOfxStatFailed
| kOfxStatErrFatal
| kOfxStatErrUnknown
| kOfxStatErrMissingHostFeature
| kOfxStatErrMemory
| kOfxStatErrBadHandle
| kOfxStatReplyDefault.

#[global] Instance OfxStatus_eq_dec : EqDecision OfxStatus.
Proof. solve_decision. Defined.

(** String constants of the OpenFX headers. *)
Definition kOfxChangeUserEdited : string := "OfxChangeUserEdited".
Definition kOfxChangePluginEdited : string := "OfxChangePluginEdited".
Definition kOfxTypeClip : string := "OfxTypeClip".
Definition kOfxTypeParameter : string := "OfxTypeParameter".
Definition kOfxImageComponentRGBA : string := "OfxImageComponentRGBA".
Definition kOfxImageComponentRGB : string := "OfxImageComponentRGB".
Definition kOfxImageComponentAlpha : string := "OfxImageComponentAlpha".
Definition kOfxBitDepthByte : string := "OfxBitDepthByte".
Definition kOfxBitDepthShort : string := "OfxBitDepthShort".
Definition kOfxBitDepthHalf : string := "OfxBitDepthHalf".
Definition kOfxBitDepthFloat : string := "OfxBitDepthFloat".
Definition kOfxImageEffectOutputClipName : string := "Output".

(** C [strcmp]: zero exactly on equal strings. *)
Definition strcmp (a b : string) : Z :=
  match String.compare a b with
  | Eq => 0
  | Lt => -1
  | Gt => 1
  end.

(** Handles are opaque to the plugin.  Clips and parameters are
    identified by the name they were fetched under, images by a
    number; a null image handle is [None]. *)
Abbreviation OfxImageClipHandle := string.
Abbreviation OfxParamHandle := string.
Abbreviation OfxPropertySetHandle := (option nat).
Abbreviation OfxTime := IEEE.double.

Record OfxRectI := mkRect { x1 : Z; y1 : Z; x2 : Z; y2 : Z }.

(** The value of a parameter. *)
Inductive ParamValue :=
| PInt (z : Z)              (* choice and boolean parameters *)
| PDouble (d : IEEE.double)
| PString (s : string).

(** The parameter set of one instance: values, and the
    [kOfxParamPropEnabled] property of each parameter. *)
Record ParamSet := mkParamSet {
  values : gmap string ParamValue;
  enabled : gmap string bool
}.

Definition paramGetInt (ps : ParamSet) (h : OfxParamHandle) : Z :=
  match values ps !! h with Some (PInt z) => z | _ => 0 end.
Definition paramGetDouble (ps : ParamSet) (h : OfxParamHandle) : IEEE.double :=
  match values ps !! h with Some (PDouble d) => d | _ => IEEE.d_of_Z 0 end.
Definition paramGetString (ps : ParamSet) (h : OfxParamHandle) : option string :=
  match values ps !! h with Some (PString s) => Some s | _ => None end.
Definition paramSetValue (ps : ParamSet) (h : OfxParamHandle) (v : ParamValue) : ParamSet :=
  {| values := <[h := v]> (values ps); enabled := enabled ps |}.
Definition propSetEnabled (ps : ParamSet) (name : string) (b : bool) : ParamSet :=
  {| values := values ps; enabled := <[name := b]> (enabled ps) |}.

(** What the host tells about an image: the properties [fillImageInfos]
    reads from its handle. *)
Record ImageProps := mkImageProps {
  ip_bounds : OfxRectI;
  ip_rowBytes : Z;
  ip_data : Torch.Ptr;
  ip_pixelDepth : string;
  ip_components : string
}.

(** What the plugin can observe of its calls into the host and into
    the model loader. *)
Inductive Event :=
| EvGetImage (h : nat)        (* clipGetImage returned kOfxStatOK *)
| EvReleaseImage (h : nat)    (* clipReleaseImage *)
| EvAbort                     (* abort *)
| EvLoad (path : string)      (* torch::jit::load *)
| EvForward (inputs : list Torch.Tensor) (kwargs : Torch.Kwargs).

(** The environment of one instance.  [clipGetImage clip time old]
    gives the status and the content of [*imageHandle] afterwards,
    [old] being its content before.  [PATH_MAX] is the constant of the
    platform the plugin is built for (4096 on Linux, 1024 on macOS). *)
Record Host := mkHost {
  gBundlePath : string;
  PATH_MAX : nat;
  clipGetImage : OfxImageClipHandle -> OfxTime -> option nat -> OfxStatus * option nat;
  imageProps : nat -> ImageProps;
  clipConnected : string -> Z;
  abort : Z;
  jit_load : string -> Res Torch.Module;
  module_to : Torch.Module -> Torch.Device -> Res Torch.Module;
  jit_freeze : Torch.Module -> Res unit
}.

End Ofx.

Import Torch Ofx.

(** ** Private data of the plugin *)

Definition DEVICE_CPU : Z := 0.
Definition DEVICE_CUDA : Z := 1.

Definition MODEL_MOBILENETV3 : Z := 0.
Definition MODEL_RESNET50 : Z := 1.
Definition MODEL_CUSTOM : Z := 2.

Definition MODEL_PRECISION_FLOAT16 : Z := 0.
Definition MODEL_PRECISION_FLOAT32 : Z := 1.

Definition OUTPUT_RGBA : Z := 0.
Definition OUTPUT_ALPHA : Z := 1.

Definition COLOR_SRC_INPUT : Z := 0.
Definition COLOR_SRC_MODEL : Z := 1.

(** [struct InstanceData::_torch] *)
Record _torch := mk_torch {
  ready : bool;
  device : Device;
  type : Dtype;
  model : Module;
  rn_time : OfxTime;
  rn_0 : Tensor;
  rn_1 : Tensor;
  rn_2 : Tensor;
  rn_3 : Tensor
}.

(** [struct InstanceData].  The enumerations read from choice parameters
    are kept as the integers the host stores. *)
Record InstanceData := mkInstanceData {
  outputClip : OfxImageClipHandle;
  inputClip : OfxImageClipHandle;
  garbageMatteClip : OfxImageClipHandle;
  solidMatteClip : OfxImageClipHandle;

  deviceParam : OfxParamHandle;
  modelParam : OfxParamHandle;
  modelFileParam : OfxParamHandle;
  modelPrecisionParam : OfxParamHandle;
  downsampleRatioParam : OfxParamHandle;
  outputTypeParam : OfxParamHandle;
  colorSourceParam : OfxParamHandle;
  postmultiplyAlphaParam : OfxParamHandle;

  hasGarbageMatte : bool;
  hasSolidMatte : bool;

  downsampleRatio : IEEE.double;
  outputType : Z;
  colorSource : Z;
  postmultiplyAlpha : bool;

  torch : _torch
}.

(** Everything a handler can read or change: memory, the instance data
    reached through the effect handle, the parameter set, the log of
    observable calls, and the content of [static char path[PATH_MAX]]
    of [getModelFilename] (empty when the plugin is loaded). *)
Record World := mkWorld {
  heap : Heap;
  priv : InstanceData;
  params : ParamSet;
  log : list Event;
  path : string
}.

Definition set_heap (h : Heap) (w : World) : World :=
  {| heap := h; priv := priv w; params := params w; log := log w; path := path w |}.
Definition set_priv (p : InstanceData) (w : World) : World :=
  {| heap := heap w; priv := p; params := params w; log := log w; path := path w |}.
Definition set_params (ps : ParamSet) (w : World) : World :=
  {| heap := heap w; priv := priv w; params := ps; log := log w; path := path w |}.
Definition set_path (s : string) (w : World) : World :=
  {| heap := heap w; priv := priv w; params := params w; log := log w; path := s |}.
Definition emit (e : Event) : M World unit :=
  fun w => (Ok tt, {| heap := heap w; priv := priv w; params := params w;
                      log := log w ++ [e]; path := path w |}).

Definition set_torch (t : _torch) (p : InstanceData) : InstanceData :=
  {| outputClip := outputClip p; inputClip := inputClip p;
     garbageMatteClip := garbageMatteClip p; solidMatteClip := solidMatteClip p;
     deviceParam := deviceParam p; modelParam := modelParam p;
     modelFileParam := modelFileParam p; modelPrecisionParam := modelPrecisionParam p;
     downsampleRatioParam := downsampleRatioParam p;
     outputTypeParam := outputTypeParam p; colorSourceParam := colorSourceParam p;
     postmultiplyAlphaParam := postmultiplyAlphaParam p;
     hasGarbageMatte := hasGarbageMatte p; hasSolidMatte := hasSolidMatte p;
     downsampleRatio := downsampleRatio p; outputType := outputType p;
     colorSource := colorSource p; postmultiplyAlpha := postmultiplyAlpha p;
     torch := t |}.

Definition set_hasGarbageMatte (b : bool) (p : InstanceData) : InstanceData :=
  {| outputClip := outputClip p; inputClip := inputClip p;
     garbageMatteClip := garbageMatteClip p; solidMatteClip := solidMatteClip p;
     deviceParam := deviceParam p; modelParam := modelParam p;
     modelFileParam := modelFileParam p; modelPrecisionParam := modelPrecisionParam p;
     downsampleRatioParam := downsampleRatioParam p;
     outputTypeParam := outputTypeParam p; colorSourceParam := colorSourceParam p;
     postmultiplyAlphaParam := postmultiplyAlphaParam p;
     hasGarbageMatte := b; hasSolidMatte := hasSolidMatte p;
     downsampleRatio := downsampleRatio p; outputType := outputType p;
     colorSource := colorSource p; postmultiplyAlpha := postmultiplyAlpha p;
     torch := torch p |}.

Definition set_hasSolidMatte (b : bool) (p : InstanceData) : InstanceData :=
  {| outputClip := outputClip p; inputClip := inputClip p;
     garbageMatteClip := garbageMatteClip p; solidMatteClip := solidMatteClip p;
     deviceParam := deviceParam p; modelParam := modelParam p;
     modelFileParam := modelFileParam p; modelPrecisionParam := modelPrecisionParam p;
     downsampleRatioParam := downsampleRatioParam p;
     outputTypeParam := outputTypeParam p; colorSourceParam := colorSourceParam p;
     postmultiplyAlphaParam := postmultiplyAlphaParam p;
     hasGarbageMatte := hasGarbageMatte p; hasSolidMatte := b;
     downsampleRatio := downsampleRatio p; outputType := outputType p;
     colorSource := colorSource p; postmultiplyAlpha := postmultiplyAlpha p;
     torch := torch p |}.

(** The four cached parameter values, refreshed together. *)
Definition set_cached (ratio : IEEE.double) (ot cs : Z) (pm : bool)
    (p : InstanceData) : InstanceData :=
  {| outputClip := outputClip p; inputClip := inputClip p;
     garbageMatteClip := garbageMatteClip p; solidMatteClip := solidMatteClip p;
     deviceParam := deviceParam p; modelParam := modelParam p;
     modelFileParam := modelFileParam p; modelPrecisionParam := modelPrecisionParam p;
     downsampleRatioParam := downsampleRatioParam p;
     outputTypeParam := outputTypeParam p; colorSourceParam := colorSourceParam p;
     postmultiplyAlphaParam := postmultiplyAlphaParam p;
     hasGarbageMatte := hasGarbageMatte p; hasSolidMatte := hasSolidMatte p;
     downsampleRatio := ratio; outputType := ot;
     colorSource := cs; postmultiplyAlpha := pm;
     torch := torch p |}.

Definition set_ready (b : bool) (t : _torch) : _torch :=
  {| ready := b; device := device t; type := type t; model := model t;
     rn_time := rn_time t; rn_0 := rn_0 t; rn_1 := rn_1 t; rn_2 := rn_2 t; rn_3 := rn_3 t |}.
Definition set_device (d : Device) (t : _torch) : _torch :=
  {| ready := ready t; device := d; type := type t; model := model t;
     rn_time := rn_time t; rn_0 := rn_0 t; rn_1 := rn_1 t; rn_2 := rn_2 t; rn_3 := rn_3 t |}.
Definition set_type (d : Dtype) (t : _torch) : _torch :=
  {| ready := ready t; device := device t; type := d; model := model t;
     rn_time := rn_time t; rn_0 := rn_0 t; rn_1 := rn_1 t; rn_2 := rn_2 t; rn_3 := rn_3 t |}.
Definition set_model (m : Module) (t : _torch) : _torch :=
  {| ready := ready t; device := device t; type := type t; model := m;
     rn_time := rn_time t; rn_0 := rn_0 t; rn_1 := rn_1 t; rn_2 := rn_2 t; rn_3 := rn_3 t |}.
Definition set_rn_time (x : OfxTime) (t : _torch) : _torch :=
  {| ready := ready t; device := device t; type := type t; model := model t;
     rn_time := x; rn_0 := rn_0 t; rn_1 := rn_1 t; rn_2 := rn_2 t; rn_3 := rn_3 t |}.
Definition set_rn_0 (x : Tensor) (t : _torch) : _torch :=
  {| ready := ready t; device := device t; type := type t; model := model t;
     rn_time := rn_time t; rn_0 := x; rn_1 := rn_1 t; rn_2 := rn_2 t; rn_3 := rn_3 t |}.
Definition set_rn_1 (x : Tensor) (t : _torch) : _torch :=
  {| ready := ready t; device := device t; type := type t; model := model t;
     rn_time := rn_time t; rn_0 := rn_0 t; rn_1 := x; rn_2 := rn_2 t; rn_3 := rn_3 t |}.
Definition set_rn_2 (x : Tensor) (t : _torch) : _torch :=
  {| ready := ready t; device := device t; type := type t; model := model t;
     rn_time := rn_time t; rn_0 := rn_0 t; rn_1 := rn_1 t; rn_2 := x; rn_3 := rn_3 t |}.
Definition set_rn_3 (x : Tensor) (t : _torch) : _torch :=
  {| ready := ready t; device := device t; type := type t; model := model t;
     rn_time := rn_time t; rn_0 := rn_0 t; rn_1 := rn_1 t; rn_2 := rn_2 t; rn_3 := x |}.

(** Monadic access to the pieces of the world. *)
Definition getInstanceData : M World InstanceData := fun w => (Ok (priv w), w).
Definition modify_priv (f : InstanceData -> InstanceData) : M World unit :=
  fun w => (Ok tt, set_priv (f (priv w)) w).
Definition modify_torch (f : _torch -> _torch) : M World unit :=
  modify_priv (fun p => set_torch (f (torch p)) p).
Definition get_params : M World ParamSet := fun w => (Ok (params w), w).
Definition modify_params (f : ParamSet -> ParamSet) : M World unit :=
  fun w => (Ok tt, set_params (f (params w)) w).

(** A libtorch operation run on the heap of the world. *)
Definition liftH {A} (m : M Heap A) : M World A :=
  fun w => let (r, h) := m (heap w) in (r, set_heap h w).

(** [try { body } catch (...) { handler }] for the exceptions [catches]
    selects. *)
Definition try_catch {S A} (body : M S A) (catches : exn -> bool) (handler : M S A) : M S A :=
  fun s =>
    match body s with
    | (Throw e, s') => if catches e then handler s' else (Throw e, s')
    | r => r
    end.

(** [new InstanceData()] followed by the handle look-ups of
    [effectCreateInstance]: value-initialisation zeroes every member
    before the constructor of [_torch] sets [device] and [rn_time]. *)
Definition InstanceData_new : InstanceData :=
  {| outputClip := kOfxImageEffectOutputClipName; inputClip := "Input";
     garbageMatteClip := "GarbageMatte"; solidMatteClip := "SolidMatte";
     deviceParam := "device"; modelParam := "model"; modelFileParam := "modelFile";
     modelPrecisionParam := "modelPrecision"; downsampleRatioParam := "downsampleRatio";
     outputTypeParam := "outputType"; colorSourceParam := "colorSource";
     postmultiplyAlphaParam := "postmultiplyAlpha";
     hasGarbageMatte := false; hasSolidMatte := false;
     downsampleRatio := IEEE.d_of_Z 0; outputType := 0; colorSource := 0;
     postmultiplyAlpha := false;
     torch := {| ready := false; device := kCPU; type := kByte;
                 model := Module_default; rn_time := IEEE.d_nan;
                 rn_0 := None; rn_1 := None; rn_2 := None; rn_3 := None |} |}.

(** ** Helpers *)

Section Plugin.

Variable host : Host.

Definition setParamEnabledness (paramName : string) (enabledState : bool) : M World unit :=
  modify_params (fun ps => propSetEnabled ps paramName enabledState).

Definition updateParamsValidity : M World unit :=
  let* priv := getInstanceData in
  (* Compute device affects precision *)
  let* ps := get_params in
  let dev := paramGetInt ps (deviceParam priv) in
  let* _ :=
    if dev =? DEVICE_CPU then
      let* _ := modify_params (fun ps =>
                  paramSetValue ps (modelPrecisionParam priv) (PInt MODEL_PRECISION_FLOAT32)) in
      setParamEnabledness "modelPrecision" false
    else if dev =? DEVICE_CUDA then
      setParamEnabledness "modelPrecision" true
    else ret tt in
  (* Model -> ModelFile *)
  let* ps := get_params in
  let model := paramGetInt ps (modelParam priv) in
  let* _ := setParamEnabledness "modelFile" (model =? MODEL_CUSTOM) in
  (* OutputType -> ColorSource / PostMultiply *)
  let* ps := get_params in
  let output_type := paramGetInt ps (outputTypeParam priv) in
  let* _ := setParamEnabledness "colorSource" (output_type =? OUTPUT_RGBA) in
  setParamEnabledness "postmultiplyAlpha" (output_type =? OUTPUT_RGBA).

(** [snprintf(path, PATH_MAX, ...)]: the formatted string goes into the
    static buffer, cut after [PATH_MAX - 1] bytes. *)
Definition snprintf_path (s : string) : M World unit :=
  fun w => (Ok tt, set_path (String.substring 0 (PATH_MAX host - 1) s) w).

(** [return path;]: the caller reads the buffer as it is now. *)
Definition return_path : M World (option string) :=
  fun w => (Ok (Some (path w)), w).

(** The path of the model file; [None] is the NULL return.  For a
    selector outside the three choices no case of the [switch] applies
    and the buffer is returned as the last call left it. *)
Definition getModelFilename : M World (option string) :=
  let* priv := getInstanceData in
  let* ps := get_params in
  let model := paramGetInt ps (modelParam priv) in
  let model_precision := paramGetInt ps (modelPrecisionParam priv) in
  let model_file := paramGetString ps (modelFileParam priv) in
  let fp := if model_precision =? MODEL_PRECISION_FLOAT16 then "16" else "32" in
  (* Build path *)
  if model =? MODEL_MOBILENETV3 then
    let* _ := snprintf_path (gBundlePath host +:+ "/Contents/Resources/rvm_mobilenetv3_fp"
                               +:+ fp +:+ ".torchscript") in
    return_path
  else if model =? MODEL_RESNET50 then
    let* _ := snprintf_path (gBundlePath host +:+ "/Contents/Resources/rvm_resnet50_fp"
                               +:+ fp +:+ ".torchscript") in
    return_path
  else if model =? MODEL_CUSTOM then
    match model_file with
    | None | Some EmptyString => ret None
    | Some f =>
        let* _ := snprintf_path f in
        return_path
    end
  else return_path.

Definition modelClearHistory : M World unit :=
  let* priv := getInstanceData in
  if IEEE.is_nan (rn_time (torch priv)) then ret tt
  else
    let* _ := modify_torch (set_rn_time IEEE.d_nan) in
    let* _ := modify_torch (set_rn_0 None) in
    let* _ := modify_torch (set_rn_1 None) in
    let* _ := modify_torch (set_rn_2 None) in
    modify_torch (set_rn_3 None).

(** [catch (const std::exception &)]; [std::bad_alloc] derives from it. *)
Definition is_std_exception (e : exn) : bool :=
  match e with StdException | BadAlloc => true | NoImageEx => false end.

Definition modelSetup : M World OfxStatus :=
  let* priv := getInstanceData in
  if ready (torch priv) then ret kOfxStatOK
  else
    (* Target device and type from config *)
    let* ps := get_params in
    let dev := paramGetInt ps (deviceParam priv) in
    let precision := paramGetInt ps (modelPrecisionParam priv) in
    let* _ :=
      if dev =? DEVICE_CPU then modify_torch (set_device kCPU)
      else if dev =? DEVICE_CUDA then modify_torch (set_device kCUDA)
      else ret tt in
    let* _ :=
      if precision =? MODEL_PRECISION_FLOAT16 then modify_torch (set_type kFloat16)
      else if precision =? MODEL_PRECISION_FLOAT32 then modify_torch (set_type kFloat32)
      else ret tt in
    (* Load model *)
    let* model_file := getModelFilename in
    match model_file with
    | None => ret kOfxStatFailed
    | Some file =>
        let* loaded :=
          try_catch
            (let* _ := emit (EvLoad file) in
             let* m := liftR (jit_load host file) in
             let* _ := modify_torch (set_model m) in
             let* priv := getInstanceData in
             let* m := liftR (module_to host m (device (torch priv))) in
             let* _ := modify_torch (set_model m) in
             let* _ := liftR (jit_freeze host m) in
             ret true)
            is_std_exception
            (ret false) in
        if negb loaded then ret kOfxStatFailed
        else
          (* Reset recursive state *)
          let* _ := modelClearHistory in
          (* We're ready *)
          let* _ := modify_torch (set_ready true) in
          ret kOfxStatOK
    end.

(** ** API handlers *)

(** [inArgs] of the instance-changed action: [kOfxPropChangeReason],
    [kOfxPropType] and [kOfxPropName]. *)
Definition effectInstanceChanged (changeReason typeChanged objChanged : string)
    : M World OfxStatus :=
  (* We are only interested in user edits *)
  if negb (strcmp changeReason kOfxChangeUserEdited =? 0) then ret kOfxStatReplyDefault
  else
    let isClip := strcmp typeChanged kOfxTypeClip =? 0 in
    let isParam := strcmp typeChanged kOfxTypeParameter =? 0 in
    (* Some changes invalidate things *)
    if isParam && ((strcmp objChanged "device" =? 0)
                   || (strcmp objChanged "model" =? 0)
                   || (strcmp objChanged "modelPrecision" =? 0)
                   || (strcmp objChanged "modelFile" =? 0))
    then
      let* _ := modify_torch (set_ready false) in
      ret kOfxStatOK
    else if isParam && (strcmp objChanged "downsampleRatio" =? 0)
    then
      let* _ := modelClearHistory in
      ret kOfxStatOK
    else if isClip
    then
      let connected := clipConnected host objChanged in
      (* Input -> Invalidate recursive history *)
      if negb (strcmp objChanged "Input" =? 0) then
        let* _ := modelClearHistory in
        ret kOfxStatOK
      (* GarbageMatte / SolidMatte -> Check if connected *)
      else if negb (strcmp objChanged "GarbageMatte" =? 0) then
        let* _ := modify_priv (set_hasGarbageMatte (negb (connected =? 0))) in
        ret kOfxStatOK
      else if isClip && (strcmp objChanged "SolidMatte" =? 0) then
        let* _ := modify_priv (set_hasSolidMatte (negb (connected =? 0))) in
        ret kOfxStatOK
      else ret kOfxStatReplyDefault
    else
      (* Don't trap any others *)
      ret kOfxStatReplyDefault.

Definition effectEndInstanceChanged (changeReason : string) : M World OfxStatus :=
  (* If it's a user edit : Update enabled params *)
  let* _ :=
    if strcmp changeReason kOfxChangeUserEdited =? 0 then updateParamsValidity
    else ret tt in
  (* Update cached param values in all cases *)
  let* priv := getInstanceData in
  let* ps := get_params in
  let* _ := modify_priv
              (set_cached (paramGetDouble ps (downsampleRatioParam priv))
                          (paramGetInt ps (outputTypeParam priv))
                          (paramGetInt ps (colorSourceParam priv))
                          (negb (paramGetInt ps (postmultiplyAlphaParam priv) =? 0))) in
  ret kOfxStatOK.

End Plugin.

(** ** The pixel-buffer / tensor bridge *)

(** [struct ImageInfo].  Image bounds and row strides are taken to be
    small enough for the [int] arithmetic on them not to overflow. *)
Record ImageInfo := mkImageInfo {
  h : OfxPropertySetHandle;
  rect : OfxRectI;
  rowBytes : Z;
  ptr : Ptr;
  pixelDepth : string;
  components : string
}.

Definition set_h (x : OfxPropertySetHandle) (img : ImageInfo) : ImageInfo :=
  {| h := x; rect := rect img; rowBytes := rowBytes img; ptr := ptr img;
     pixelDepth := pixelDepth img; components := components img |}.

(** The C [float] constants of the bridge. *)
Definition f_1 : spec_float := IEEE.f32_of_Z 1.
Definition f_255 : spec_float := IEEE.f32_of_Z 255.
Definition f_32768 : spec_float := IEEE.f32_of_Z 32768.

(** Channel count of a component layout; [None] when unrecognised. *)
Definition components_nc (components : string) : option Z :=
  if strcmp components kOfxImageComponentRGBA =? 0 then Some 4
  else if strcmp components kOfxImageComponentRGB =? 0 then Some 3
  else if strcmp components kOfxImageComponentAlpha =? 0 then Some 1
  else None.

Section Bridge.

Variable host : Host.

Definition fillImageInfos (img : ImageInfo) (clip : OfxImageClipHandle) (time : OfxTime)
    : M World (OfxStatus * ImageInfo) :=
  let (rv, handle) := clipGetImage host clip time (h img) in
  let img := set_h handle img in
  if negb (bool_decide (rv = kOfxStatOK)) then ret (rv, img)
  else
    match handle with
    | Some n =>
        let* _ := emit (EvGetImage n) in
        let ip := imageProps host n in
        ret (kOfxStatOK,
             {| h := handle; rect := ip_bounds ip; rowBytes := ip_rowBytes ip;
                ptr := ip_data ip; pixelDepth := ip_pixelDepth ip;
                components := ip_components ip |})
    | None => ret (kOfxStatOK, img)
    end.

Definition imageToTensor (img : ImageInfo) (td : Device) (tt : Dtype) : M Heap Tensor :=
  let w := x2 (rect img) - x1 (rect img) in
  let h := y2 (rect img) - y1 (rect img) in
  match components_nc (components img) with
  | None => ret None
  | Some nc =>
      let depth :=
        if strcmp (pixelDepth img) kOfxBitDepthByte =? 0
        then Some (1, kByte, IEEE.f32_div f_1 f_255)
        else if strcmp (pixelDepth img) kOfxBitDepthShort =? 0
        then Some (2, kShort, IEEE.f32_div f_1 f_32768)
        else if strcmp (pixelDepth img) kOfxBitDepthHalf =? 0
        then Some (2, kFloat16, f_1)
        else if strcmp (pixelDepth img) kOfxBitDepthFloat =? 0
        then Some (4, kFloat32, f_1)
        else None in
      match depth with
      | None => ret None
      | Some (vs, dt, sf) =>
          let p := ptr_add (ptr img) (rowBytes img * y1 (rect img) + vs * x1 (rect img)) in
          let* rv := liftR (from_blob p [h; w; nc] [rowBytes img ÷ vs; nc; 1] dt) in
          let* rv := to rv td tt in
          let* _ := if negb (SFeqb sf f_1) then mul_scalar_ rv sf else ret () in
          let* rv := liftR (permute rv [2; 0; 1]%nat) in
          let* rv := liftR (unsqueeze rv 0) in
          ret rv
      end
  end.

(** The row loop of [tensorToImage]. *)
Fixpoint copy_rows (rows : nat) (p_dst p_src : Ptr) (n : Z) (src_step dst_step : Z)
    : M Heap unit :=
  match rows with
  | O => ret tt
  | S rows' =>
      let* _ := memcpy p_dst p_src n in
      copy_rows rows' (ptr_add p_dst dst_step) (ptr_add p_src src_step) n src_step dst_step
  end.

Definition tensorToImage (img : ImageInfo) (t : Tensor) : M Heap unit :=
  let w := x2 (rect img) - x1 (rect img) in
  let h := y2 (rect img) - y1 (rect img) in
  match components_nc (components img) with
  | None => ret tt
  | Some nc =>
      let depth :=
        if strcmp (pixelDepth img) kOfxBitDepthByte =? 0
        then Some (1, kByte, f_255)
        else if strcmp (pixelDepth img) kOfxBitDepthShort =? 0
        then Some (2, kShort, f_32768)
        else if strcmp (pixelDepth img) kOfxBitDepthHalf =? 0
        then Some (2, kFloat16, f_1)
        else if strcmp (pixelDepth img) kOfxBitDepthFloat =? 0
        then Some (4, kFloat32, f_1)
        else None in
      match depth with
      | None => ret tt
      | Some (vs, dt, sf) =>
          let* t := liftR (squeeze t 0) in
          let* t := liftR (permute t [1; 2; 0]%nat) in
          let* _ := if negb (SFeqb sf f_1) then mul_scalar_ t sf else ret tt in
          let* t := to t kCPU dt in
          let* t := contiguous t in
          let* p_src := liftR (data_ptr_float t) in
          let p_dst := ptr_add (ptr img) (rowBytes img * y1 (rect img) + vs * x1 (rect img)) in
          copy_rows (Z.to_nat h) p_dst p_src (w * nc * vs)
                    (vs * nth 0 (strides t) 0) (rowBytes img)
      end
  end.

End Bridge.

(** ** The render action *)

(** The locals of [effectRender] that are read again after the [try]
    block: they keep what was written to them before a [throw]. *)
Record RenderFrame := mkFrame {
  outputImg : ImageInfo;
  inputImg : ImageInfo
}.

Definition liftW {A} (m : M World A) : M (World * RenderFrame) A :=
  fun wf => let (r, w) := m wf.1 in (r, (w, wf.2)).
Definition get_frame : M (World * RenderFrame) RenderFrame :=
  fun wf => (Ok wf.2, wf).
Definition set_outputImg (img : ImageInfo) : M (World * RenderFrame) unit :=
  fun wf => (Ok tt, (wf.1, {| outputImg := img; inputImg := inputImg wf.2 |})).
Definition set_inputImg (img : ImageInfo) : M (World * RenderFrame) unit :=
  fun wf => (Ok tt, (wf.1, {| outputImg := outputImg wf.2; inputImg := img |})).

(** [outputs.get(i)] of a [c10::List]: bounds-checked. *)
Definition outputs_get {S} (outputs : list Tensor) (i : nat) : M S Tensor :=
  match outputs !! i with
  | Some t => ret t
  | None => throw StdException
  end.

Section Render.

Variable host : Host.

(** The content of an [ImageInfo] that was declared without an
    initialiser. *)
Variable indeterminate : ImageInfo.

(** [priv->torch.model.forward(inputs, kwargs).toTensorList()] *)
Definition model_forward (inputs : list Tensor) (kwargs : Kwargs)
    : M World (list Tensor) :=
  let* priv := getInstanceData in
  let* _ := emit (EvForward inputs kwargs) in
  liftH (forward (model (torch priv)) inputs kwargs).

(** "OFX Image -> Input tensor": the conversion and the removal of an
    alpha channel. *)
Definition inputToTensor (inputImg : ImageInfo) : M World Tensor :=
  let* priv := getInstanceData in
  let* inputTensor :=
    liftH (imageToTensor inputImg (device (torch priv)) (type (torch priv))) in
  if negb (defined inputTensor) then throw NoImageEx
  else
    let n := nth 1 (sizes inputTensor) 0 in
    if n =? 3 then ret inputTensor
    else if n =? 4 then liftR (narrow inputTensor 1 0 3)
    else throw NoImageEx.

(** "Run the model" up to "Tensor outputs": the forward pass and the
    update of the recurrent state; the result is [(fgr, pha)]. *)
Definition runModel (time : OfxTime) (inputTensor : Tensor) : M World (Tensor * Tensor) :=
  let* priv := getInstanceData in
  let kwargs : Kwargs :=
    if negb (IEEE.d_eqb (downsampleRatio priv) (IEEE.d_of_Z 0))
    then {[ "downsample_ratio" := downsampleRatio priv ]}
    else ∅ in
  let* outputs :=
    if defined (rn_0 (torch priv))
       && (IEEE.d_eqb time (IEEE.d_add (rn_time (torch priv)) (IEEE.d_of_Z 1))
           || IEEE.d_eqb time (rn_time (torch priv)))
    then
      (* We have usable recursive states *)
      model_forward [inputTensor; rn_0 (torch priv); rn_1 (torch priv);
                     rn_2 (torch priv); rn_3 (torch priv)] kwargs
    else
      (* First of a sequence of run *)
      model_forward [inputTensor] kwargs in
  (* Recursive states for next run *)
  let* _ := modify_torch (set_rn_time time) in
  let* o := outputs_get outputs 2 in
  let* _ := modify_torch (set_rn_0 o) in
  let* o := outputs_get outputs 3 in
  let* _ := modify_torch (set_rn_1 o) in
  let* o := outputs_get outputs 4 in
  let* _ := modify_torch (set_rn_2 o) in
  let* o := outputs_get outputs 5 in
  let* _ := modify_torch (set_rn_3 o) in
  (* Tensor outputs *)
  let* fgr := outputs_get outputs 0 in
  let* pha := outputs_get outputs 1 in
  ret (fgr, pha).

(** "Post process of output tensor depending on options" *)
Definition composite (outputImg : ImageInfo) (inputTensor fgr pha : Tensor)
    : M World Tensor :=
  let* priv := getInstanceData in
  if outputType priv =? OUTPUT_RGBA then
    (* Select foreground *)
    let fgr := if colorSource priv =? COLOR_SRC_INPUT then inputTensor else fgr in
    (* Post Multiply ? *)
    let* _ :=
      if postmultiplyAlpha priv then
        let* a := liftH (repeat pha [1; 3; 1; 1]) in
        liftH (mul_ fgr a)
      else ret tt in
    (* Combine *)
    liftH (cat fgr pha 1)
  else if outputType priv =? OUTPUT_ALPHA then
    (* Repeat the alpha as needed by output components *)
    if strcmp (components outputImg) kOfxImageComponentRGBA =? 0 then
      liftH (repeat pha [1; 4; 1; 1])
    else if strcmp (components outputImg) kOfxImageComponentRGB =? 0 then
      liftH (repeat pha [1; 3; 1; 1])
    else if strcmp (components outputImg) kOfxImageComponentAlpha =? 0 then
      ret pha
    else throw NoImageEx
  else throw NoImageEx.

(** The body of the [try] block. *)
Definition render_try (time : OfxTime) : M (World * RenderFrame) unit :=
  let* priv := liftW getInstanceData in
  (* Get images *)
  let* fr := get_frame in
  let* r := liftW (fillImageInfos host (outputImg fr) (outputClip priv) time) in
  let* _ := set_outputImg r.2 in
  if negb (bool_decide (r.1 = kOfxStatOK)) then throw NoImageEx
  else
    let* fr := get_frame in
    let* r := liftW (fillImageInfos host (inputImg fr) (inputClip priv) time) in
    let* _ := set_inputImg r.2 in
    if negb (bool_decide (r.1 = kOfxStatOK)) then throw NoImageEx
    else
      let* fr := get_frame in
      (* OFX Image -> Input tensor *)
      let* inputTensor := liftW (inputToTensor (inputImg fr)) in
      (* Run the model *)
      let* fp := liftW (runModel time inputTensor) in
      (* Post process of output tensor depending on options *)
      let* outputTensor := liftW (composite (outputImg fr) inputTensor fp.1 fp.2) in
      (* Output tensor -> OFX Image *)
      liftW (liftH (tensorToImage (outputImg fr) outputTensor)).

Definition is_NoImageEx (e : exn) : bool :=
  match e with NoImageEx => true | _ => false end.

Definition clipReleaseImage (n : nat) : M World unit := emit (EvReleaseImage n).

(** From the declaration of the two [ImageInfo] locals to the end. *)
Definition render_images (time : OfxTime) : M (World * RenderFrame) OfxStatus :=
  let* status :=
    try_catch
      (let* _ := render_try time in ret kOfxStatOK)
      is_NoImageEx
      ((* Missing a required clip, so abort *)
       let* _ := liftW (emit EvAbort) in
       if abort host =? 0 then ret kOfxStatFailed else ret kOfxStatOK) in
  (* Cleanup *)
  let* fr := get_frame in
  let* _ := match h (outputImg fr) with
            | Some n => liftW (clipReleaseImage n)
            | None => ret tt
            end in
  let* _ := match h (inputImg fr) with
            | Some n => liftW (clipReleaseImage n)
            | None => ret tt
            end in
  ret status.

(** [inArgs] of the render action: [kOfxPropTime] (the render window
    is read and not used). *)
Definition effectRender (time : OfxTime) : M World OfxStatus :=
  (* Prepare the model *)
  let* status := modelSetup host in
  if negb (bool_decide (status = kOfxStatOK)) then ret status
  else
    fun w =>
      let (r, wf) := render_images time
                       (w, {| outputImg := indeterminate; inputImg := indeterminate |}) in
      (r, wf.1).

(** [effectCreateInstance] *)
Definition effectCreateInstance : M World OfxStatus :=
  let* _ := modify_priv (fun _ => InstanceData_new) in
  let* _ := updateParamsValidity in
  ret kOfxStatOK.

(** ** The entry point

    The actions the properties below are about, with their [inArgs]. *)
Inductive Action :=
| ActionInstanceChanged (changeReason typeChanged objChanged : string)
| ActionEndInstanceChanged (changeReason : string)
| ActionRender (time : OfxTime).

Definition handler (a : Action) : M World OfxStatus :=
  match a with
  | ActionInstanceChanged r t n => effectInstanceChanged host r t n
  | ActionEndInstanceChanged r => effectEndInstanceChanged r
  | ActionRender time => effectRender time
  end.

(** [ofxMain]: the handler is run under the catch-all of the entry
    point. *)
Definition ofxMain (a : Action) : M World OfxStatus :=
  fun w =>
    match handler a w with
    | (Throw BadAlloc, w') => (Ok kOfxStatErrMemory, w')
    | (Throw _, w') => (Ok kOfxStatErrUnknown, w')
    | r => r
    end.

End Render.

(** ** Description and clip preferences

    The actions that tell the host what the plugin is and what it wants
    on its clips.  They write into property sets of the host; the calls
    are taken to succeed (their status is not looked at). *)

Definition kOfxPropLabel : string := "OfxPropLabel".
Definition kOfxPluginPropFilePath : string := "OfxPluginPropFilePath".
Definition kOfxImageEffectPluginPropGrouping : string := "OfxImageEffectPluginPropGrouping".
Definition kOfxImageEffectPropSupportedContexts : string :=
  "OfxImageEffectPropSupportedContexts".
Definition kOfxImageEffectContextGeneral : string := "OfxImageEffectContextGeneral".
Definition kOfxImageEffectPropSupportedPixelDepths : string :=
  "OfxImageEffectPropSupportedPixelDepths".
Definition kOfxImageEffectPropSupportsTiles : string := "OfxImageEffectPropSupportsTiles".
Definition kOfxImageEffectInstancePropSequentialRender : string :=
  "OfxImageEffectInstancePropSequentialRender".
Definition kOfxImageEffectPropClipPreferencesSlaveParam : string :=
  "OfxImageEffectPropClipPreferencesSlaveParam".
Definition kOfxImageEffectPropSupportedComponents : string :=
  "OfxImageEffectPropSupportedComponents".
Definition kOfxImageEffectPropPreMultiplication : string :=
  "OfxImageEffectPropPreMultiplication".
Definition kOfxImagePreMultiplied : string := "OfxImageAlphaPremultiplied".
Definition kOfxImageUnPreMultiplied : string := "OfxImageAlphaUnPremultiplied".
Definition kOfxImageComponentNone : string := "OfxImageComponentNone".
Definition kOfxImageClipPropOptional : string := "OfxImageClipPropOptional".
Definition kOfxParamTypeChoice : string := "OfxParamTypeChoice".
Definition kOfxParamTypeString : string := "OfxParamTypeString".
Definition kOfxParamTypeDouble : string := "OfxParamTypeDouble".
Definition kOfxParamTypeBoolean : string := "OfxParamTypeBoolean".
Definition kOfxParamPropHint : string := "OfxParamPropHint".
Definition kOfxParamPropAnimates : string := "OfxParamPropAnimates".
Definition kOfxParamPropChoiceOption : string := "OfxParamPropChoiceOption".
Definition kOfxParamPropStringMode : string := "OfxParamPropStringMode".
Definition kOfxParamStringIsFilePath : string := "OfxParamStringIsFilePath".
Definition kOfxParamPropEnabled : string := "OfxParamPropEnabled".
Definition kOfxParamPropDefault : string := "OfxParamPropDefault".
Definition kOfxParamPropDoubleType : string := "OfxParamPropDoubleType".
Definition kOfxParamDoubleTypeScale : string := "OfxParamDoubleTypeScale".
Definition kOfxParamPropMin : string := "OfxParamPropMin".
Definition kOfxParamPropMax : string := "OfxParamPropMax".

(** A property set: the values of its properties, by name and index. *)
Inductive PropValue :=
| VString (s : string)
| VInt (z : Z)
| VDouble (d : IEEE.double).

Abbreviation PropSet := (gmap (string * Z) PropValue).

Definition propSetString (name : string) (index : Z) (v : string) : M PropSet unit :=
  fun ps => (Ok tt, <[(name, index) := VString v]> ps).
Definition propSetInt (name : string) (index : Z) (v : Z) : M PropSet unit :=
  fun ps => (Ok tt, <[(name, index) := VInt v]> ps).

(** [effectDescribe], on the property set of the plugin. *)
Definition effectDescribe : M PropSet OfxStatus :=
  (* Identity / Classification *)
  let* _ := propSetString kOfxPropLabel 0 "OFX Robust Video Matting" in
  let* _ := propSetString kOfxImageEffectPluginPropGrouping 0 "OpenFX" in
  (* Applicable contexts *)
  let* _ := propSetString kOfxImageEffectPropSupportedContexts 0
              kOfxImageEffectContextGeneral in
  (* We expect float images as inputs *)
  let* _ := propSetString kOfxImageEffectPropSupportedPixelDepths 0 kOfxBitDepthFloat in
  (* Don't allow tiling, we need the full images at once *)
  let* _ := propSetInt kOfxImageEffectPropSupportsTiles 0 0 in
  (* We need to render things in sequence *)
  let* _ := propSetInt kOfxImageEffectInstancePropSequentialRender 0 1 in
  (* Parameters that affect clip preferences *)
  let* _ := propSetString kOfxImageEffectPropClipPreferencesSlaveParam 0 "outputType" in
  let* _ := propSetString kOfxImageEffectPropClipPreferencesSlaveParam 0
              "postmultiplyAlpha" in
  ret kOfxStatOK.

(** What [effectDescribeInContext] builds: the property sets of the
    clips and of the parameters (with their types) it defines, and the
    global [gBundlePath] ([None] is NULL). *)
Record Descriptor := mkDescriptor {
  clipDefs : gmap string (gmap (string * Z) PropValue);
  paramDefs : gmap string (string * gmap (string * Z) PropValue);
  bundlePath : option string
}.

(** The handle [props] of the handler: the property set of the clip or
    parameter defined last. *)
Inductive PropsHandle :=
| ClipProps (name : string)
| ParamProps (name : string).

Definition clipDefine (name : string) : M Descriptor PropsHandle :=
  fun d => (Ok (ClipProps name),
            {| clipDefs := <[name := ∅]> (clipDefs d); paramDefs := paramDefs d;
               bundlePath := bundlePath d |}).

Definition paramDefine (paramType name : string) : M Descriptor PropsHandle :=
  fun d => (Ok (ParamProps name),
            {| clipDefs := clipDefs d; paramDefs := <[name := (paramType, ∅)]> (paramDefs d);
               bundlePath := bundlePath d |}).

Definition propSet (props : PropsHandle) (name : string) (index : Z) (v : PropValue)
    : M Descriptor unit :=
  fun d =>
    (Ok tt,
     match props with
     | ClipProps c =>
         {| clipDefs := alter (insert (name, index) v) c (clipDefs d);
            paramDefs := paramDefs d; bundlePath := bundlePath d |}
     | ParamProps p =>
         {| clipDefs := clipDefs d;
            paramDefs := alter (fun tp => (tp.1, <[(name, index) := v]> tp.2)) p (paramDefs d);
            bundlePath := bundlePath d |}
     end).

Definition set_bundlePath (path : string) : M Descriptor unit :=
  fun d => (Ok tt, {| clipDefs := clipDefs d; paramDefs := paramDefs d;
                      bundlePath := Some path |}).

(** [effectDescribeInContext]; [context] is [kOfxImageEffectPropContext]
    of [inArgs], [pluginFilePath] is [kOfxPluginPropFilePath] of the
    plugin. *)
Definition effectDescribeInContext (context pluginFilePath : string)
    : M Descriptor OfxStatus :=
  (* Check it's kOfxImageEffectContextGeneral *)
  if negb (strcmp context kOfxImageEffectContextGeneral =? 0) then ret kOfxStatErrFatal
  else
    (* Get the path to bundle *)
    let* d := get in
    let* _ := match bundlePath d with
              | None => set_bundlePath pluginFilePath
              | Some _ => ret tt
              end in
    (* Clips *)
    (* Output clip *)
    let* props := clipDefine kOfxImageEffectOutputClipName in
    let* _ := propSet props kOfxImageEffectPropSupportedComponents 0
                (VString kOfxImageComponentRGBA) in
    let* _ := propSet props kOfxImageEffectPropSupportedComponents 1
                (VString kOfxImageComponentAlpha) in
    (* Input clip *)
    let* props := clipDefine "Input" in
    let* _ := propSet props kOfxImageEffectPropSupportedComponents 0
                (VString kOfxImageComponentRGB) in
    let* _ := propSet props kOfxImageEffectPropSupportedComponents 1
                (VString kOfxImageComponentRGBA) in
    (* Garbage Matte *)
    let* props := clipDefine "GarbageMatte" in
    let* _ := propSet props kOfxImageEffectPropSupportedComponents 0
                (VString kOfxImageComponentNone) in
    let* _ := propSet props kOfxImageEffectPropSupportedComponents 1
                (VString kOfxImageComponentAlpha) in
    let* _ := propSet props kOfxImageClipPropOptional 0 (VInt 1) in
    (* Solid Matte *)
    let* props := clipDefine "SolidMatte" in
    let* _ := propSet props kOfxImageEffectPropSupportedComponents 0
                (VString kOfxImageComponentNone) in
    let* _ := propSet props kOfxImageEffectPropSupportedComponents 1
                (VString kOfxImageComponentAlpha) in
    let* _ := propSet props kOfxImageClipPropOptional 0 (VInt 1) in
    (* Parameters *)
    (* Compute Device *)
    let* props := paramDefine kOfxParamTypeChoice "device" in
    let* _ := propSet props kOfxPropLabel 0 (VString "Compute Device") in
    let* _ := propSet props kOfxParamPropHint 0
                (VString "What device backend to use to run model") in
    let* _ := propSet props kOfxParamPropAnimates 0 (VInt 0) in
    let* _ := propSet props kOfxParamPropChoiceOption DEVICE_CPU (VString "CPU") in
    let* _ := propSet props kOfxParamPropChoiceOption DEVICE_CUDA (VString "CUDA") in
    (* Model *)
    let* props := paramDefine kOfxParamTypeChoice "model" in
    let* _ := propSet props kOfxPropLabel 0 (VString "Model") in
    let* _ := propSet props kOfxParamPropHint 0
                (VString "What model to load for backbone (either default/prebuilt, or custome one") in
    let* _ := propSet props kOfxParamPropAnimates 0 (VInt 0) in
    let* _ := propSet props kOfxParamPropChoiceOption MODEL_MOBILENETV3
                (VString "mobilenetv3") in
    let* _ := propSet props kOfxParamPropChoiceOption MODEL_RESNET50 (VString "resnet50") in
    let* _ := propSet props kOfxParamPropChoiceOption MODEL_CUSTOM (VString "custom") in
    (* Model File (custom) *)
    let* props := paramDefine kOfxParamTypeString "modelFile" in
    let* _ := propSet props kOfxPropLabel 0 (VString "Model File") in
    let* _ := propSet props kOfxParamPropHint 0 (VString "Path to model filename") in
    let* _ := propSet props kOfxParamPropAnimates 0 (VInt 0) in
    let* _ := propSet props kOfxParamPropStringMode 0 (VString kOfxParamStringIsFilePath) in
    let* _ := propSet props kOfxParamPropEnabled 0 (VInt 0) in
    (* Model Precision *)
    let* props := paramDefine kOfxParamTypeChoice "modelPrecision" in
    let* _ := propSet props kOfxPropLabel 0 (VString "Model Precision") in
    let* _ := propSet props kOfxParamPropHint 0
                (VString "Precision to use (for custom models, must match file !)") in
    let* _ := propSet props kOfxParamPropAnimates 0 (VInt 0) in
    let* _ := propSet props kOfxParamPropChoiceOption MODEL_PRECISION_FLOAT16
                (VString "float16") in
    let* _ := propSet props kOfxParamPropChoiceOption MODEL_PRECISION_FLOAT32
                (VString "float32") in
    let* _ := propSet props kOfxParamPropDefault 0 (VInt MODEL_PRECISION_FLOAT32) in
    let* _ := propSet props kOfxParamPropEnabled 0 (VInt 0) in
    (* Downsample ratio *)
    let* props := paramDefine kOfxParamTypeDouble "downsampleRatio" in
    let* _ := propSet props kOfxPropLabel 0 (VString "Downsample ratio") in
    let* _ := propSet props kOfxParamPropHint 0
                (VString "Image downsampling ratio. Set to 0.0 for model auto-select") in
    let* _ := propSet props kOfxParamPropAnimates 0 (VInt 0) in
    let* _ := propSet props kOfxParamPropDoubleType 0 (VString kOfxParamDoubleTypeScale) in
    let* _ := propSet props kOfxParamPropMin 0 (VDouble (IEEE.d_of_Z 0)) in
    let* _ := propSet props kOfxParamPropMax 0 (VDouble (IEEE.d_of_Z 1)) in
    let* _ := propSet props kOfxParamPropDefault 0 (VDouble (IEEE.d_of_Z 0)) in
    (* Output type *)
    let* props := paramDefine kOfxParamTypeChoice "outputType" in
    let* _ := propSet props kOfxPropLabel 0 (VString "Output type") in
    let* _ := propSet props kOfxParamPropHint 0
                (VString "Selects between full RGBA output or mask-only output") in
    let* _ := propSet props kOfxParamPropAnimates 0 (VInt 0) in
    let* _ := propSet props kOfxParamPropChoiceOption OUTPUT_RGBA (VString "RGBA") in
    let* _ := propSet props kOfxParamPropChoiceOption OUTPUT_ALPHA (VString "Alpha") in
    (* Color source *)
    let* props := paramDefine kOfxParamTypeChoice "colorSource" in
    let* _ := propSet props kOfxPropLabel 0 (VString "Output Color Source") in
    let* _ := propSet props kOfxParamPropHint 0
                (VString "Selects whether to use the input RGB value or the model predicted foreground for the output color components") in
    let* _ := propSet props kOfxParamPropAnimates 0 (VInt 0) in
    let* _ := propSet props kOfxParamPropChoiceOption COLOR_SRC_INPUT
                (VString "Input Clip") in
    let* _ := propSet props kOfxParamPropChoiceOption COLOR_SRC_MODEL
                (VString "Model Prediction") in
    let* _ := propSet props kOfxParamPropDefault 0 (VInt COLOR_SRC_MODEL) in
    (* Post-multiply alpha *)
    let* props := paramDefine kOfxParamTypeBoolean "postmultiplyAlpha" in
    let* _ := propSet props kOfxPropLabel 0 (VString "Output Postmultiply Alpha") in
    let* _ := propSet props kOfxParamPropHint 0
                (VString "Enable/Disable multiplying RGB with Alpha on the output") in
    let* _ := propSet props kOfxParamPropAnimates 0 (VInt 0) in
    ret kOfxStatOK.

(** [effectGetClipPreferences], writing into [outArgs]; the instance is
    only read. *)
Definition effectGetClipPreferences (w : World) : M PropSet OfxStatus :=
  let priv := priv w in
  let status := kOfxStatOK in
  (* Input clip *)
  let* _ := propSetString "OfxImageClipPropDepth_Input" 0 kOfxBitDepthFloat in
  (* GarbageMatte / SolidMatte clips *)
  let* _ :=
    if hasGarbageMatte priv then
      let* _ := propSetString "OfxImageClipPropComponents_GarbageMatte" 0
                  kOfxImageComponentAlpha in
      propSetString "OfxImageClipPropDepth_GarbageMatte" 0 kOfxBitDepthFloat
    else ret tt in
  let* _ :=
    if hasSolidMatte priv then
      let* _ := propSetString "OfxImageClipPropComponents_SolidMatte" 0
                  kOfxImageComponentAlpha in
      propSetString "OfxImageClipPropDepth_SolidMatte" 0 kOfxBitDepthFloat
    else ret tt in
  (* Output clip *)
  let out_type := paramGetInt (params w) (outputTypeParam priv) in
  let postmultiply_alpha := negb (paramGetInt (params w) (postmultiplyAlphaParam priv) =? 0) in
  (* Components / Depth *)
  let* _ := propSetString "OfxImageClipPropComponents_Output" 0
              (if out_type =? OUTPUT_ALPHA then kOfxImageComponentAlpha
               else kOfxImageComponentRGBA) in
  let* _ := propSetString "OfxImageClipPropDepth_Output" 0 kOfxBitDepthFloat in
  (* Alpha Premultiplied ? *)
  let* _ := propSetString kOfxImageEffectPropPreMultiplication 0
              (if postmultiply_alpha then kOfxImagePreMultiplied
               else kOfxImageUnPreMultiplied) in
  ret status.

(** ** The plugin table *)

Record OfxPlugin := mkOfxPlugin {
  pluginApi : string;
  apiVersion : Z;
  pluginIdentifier : string;
  pluginVersionMajor : Z;
  pluginVersionMinor : Z
}.

Definition _plugins : list OfxPlugin :=
  [ {| pluginApi := "OfxImageEffectPluginAPI"; apiVersion := 1;
       pluginIdentifier := "be.s47.OfxRobustVideoMatting";
       pluginVersionMajor := 0; pluginVersionMinor := 1 |} ].

(** [OfxGetPlugin]; [None] is NULL. *)
Definition OfxGetPlugin (nth : Z) : option OfxPlugin :=
  if (0 <=? nth) && (nth <? Z.of_nat (length _plugins))
  then _plugins !! Z.to_nat nth
  else None.

Definition OfxGetNumberOfPlugins : Z := Z.of_nat (length _plugins).

(** ** Concrete hosts, models and buffers

    Small instances on which the handlers are run: a 1x1 image on every
    clip, and models that allocate their outputs afresh. *)

Module Example.

(** 0.5, 1.0 and 0.25 as binary32 values. *)
Definition half : spec_float := IEEE.f32_div f_1 (IEEE.f32_of_Z 2).
Definition quarter : spec_float := IEEE.f32_div f_1 (IEEE.f32_of_Z 4).

(** A block holding [vs] contiguously from offset 0. *)
Definition block (dt : Dtype) (vs : list scalar) : gmap Z scalar :=
  store_all ∅ (zip (map (fun i => itemsize dt * Z.of_nat i) (seq 0 (length vs))) vs).

(** [torch::full(sizes, v)] on the CPU, as a model would allocate it. *)
Definition full (sizes : list Z) (v : spec_float) : M Heap Tensor :=
  fun hp =>
    let (r, hp') := fresh hp sizes kFloat32 kCPU
                      (replicate (Z.to_nat (numel sizes)) (SFloat v)) in
    (Ok (Some r), hp').

(** A model with the interface of Robust Video Matting: foreground,
    alpha, and four recurrent states. *)
Definition rvm : Module :=
  {| forward := fun _ _ =>
       let* fgr := full [1; 3; 1; 1] f_1 in
       let* pha := full [1; 1; 1; 1] half in
       let* r1 := full [1; 1; 1; 1] f_1 in
       let* r2 := full [1; 1; 1; 1] f_1 in
       let* r3 := full [1; 1; 1; 1] f_1 in
       let* r4 := full [1; 1; 1; 1] f_1 in
       ret [fgr; pha; r1; r2; r3; r4] |}.

(** A custom model that returns four tensors only. *)
Definition short_model : Module :=
  {| forward := fun _ _ =>
       let* fgr := full [1; 3; 1; 1] f_1 in
       let* pha := full [1; 1; 1; 1] half in
       let* r1 := full [1; 1; 1; 1] f_1 in
       let* r2 := full [1; 1; 1; 1] f_1 in
       ret [fgr; pha; r1; r2] |}.

(** A model whose forward pass raises, as libtorch does on a shape
    mismatch or when the device runs out of memory. *)
Definition failing_model : Module :=
  {| forward := fun _ _ => liftR c10_error |}.

(** Image 0 is on the input clip (block 0: RGB, float), image 1 on the
    output clip (block 1: RGBA, float). *)
Definition input_props : ImageProps :=
  {| ip_bounds := mkRect 0 0 1 1; ip_rowBytes := 12; ip_data := mkPtr 0 0;
     ip_pixelDepth := kOfxBitDepthFloat; ip_components := kOfxImageComponentRGB |}.
Definition output_props : ImageProps :=
  {| ip_bounds := mkRect 0 0 1 1; ip_rowBytes := 16; ip_data := mkPtr 1 0;
     ip_pixelDepth := kOfxBitDepthFloat; ip_components := kOfxImageComponentRGBA |}.

Definition host_of (m : Module) : Host :=
  {| gBundlePath := "/bundle";
     PATH_MAX := 4096;
     clipGetImage := fun clip _ _ =>
       if String.eqb clip "Output" then (kOfxStatOK, Some 1%nat)
       else if String.eqb clip "Input" then (kOfxStatOK, Some 0%nat)
       else (kOfxStatFailed, None);
     imageProps := fun n => match n with O => input_props | _ => output_props end;
     clipConnected := fun _ => 1;
     abort := 0;
     jit_load := fun _ => Ok m;
     module_to := fun m _ => Ok m;
     jit_freeze := fun _ => Ok tt |}.

(** Input pixel (0.5, 0.5, 0.5); output pixel zeroed. *)
Definition buffers : Heap :=
  [block kFloat32 [SFloat half; SFloat half; SFloat half];
   block kFloat32 (replicate 4 (SFloat (S754_zero false)))].

(** CPU, built-in model, float32, RGBA output; colour taken from the
    input clip or from the model, post-multiplied by alpha or not. *)
Definition param_set (colorSource postmultiply : Z) : ParamSet :=
  {| values := list_to_map
       [("device", PInt DEVICE_CPU); ("model", PInt MODEL_MOBILENETV3);
        ("modelFile", PString ""); ("modelPrecision", PInt MODEL_PRECISION_FLOAT32);
        ("downsampleRatio", PDouble (IEEE.d_of_Z 0));
        ("outputType", PInt OUTPUT_RGBA); ("colorSource", PInt colorSource);
        ("postmultiplyAlpha", PInt postmultiply)];
     enabled := ∅ |}.

Definition no_image : ImageInfo :=
  {| h := None; rect := mkRect 0 0 0 0; rowBytes := 0; ptr := mkPtr 0 0;
     pixelDepth := ""; components := "" |}.

(** A new instance, after the host closed the first batch of edits. *)
Definition created (ps : ParamSet) : World :=
  let w := {| heap := buffers; priv := InstanceData_new; params := ps; log := [];
              path := "" |} in
  (effectEndInstanceChanged kOfxChangeUserEdited (effectCreateInstance w).2).2.

Definition run (m : Module) (a : Action) (w : World) : Res OfxStatus * World :=
  ofxMain (host_of m) no_image a w.

(** The instance after frame 1 was rendered with the RVM model: it
    holds recurrent history. *)
Definition rendered : World :=
  (run rvm (ActionRender (IEEE.d_of_Z 1)) (created (param_set COLOR_SRC_MODEL 0))).2.

End Example.

(** ** Reasoning about a run

    [post m s Q]: the outcome of [m] started in [s], and the state it
    ends in, satisfy [Q]. *)

Definition post {S A} (m : M S A) (s : S) (Q : Res A -> S -> Prop) : Prop :=
  Q (m s).1 (m s).2.

(** A property of the instance data alone is kept by whatever changes
    the heap or the log only. *)
Definition keeps_priv {A} (m : M World A) : Prop :=
  forall w, post m w (fun _ w' => priv w' = priv w).

(** ** Notions used by the properties *)

(** Images acquired and images released, as the log shows them. *)
Definition acquired (l : list Event) : list nat :=
  omap (fun e => match e with EvGetImage n => Some n | _ => None end) l.
Definition released (l : list Event) : list nat :=
  omap (fun e => match e with EvReleaseImage n => Some n | _ => None end) l.

(** The recurrent history is whole (four tensors and a time that is a
    number), or empty (no tensor, and the NaN sentinel as time). *)
Definition has_hidden (t : _torch) : bool :=
  defined (rn_0 t) && defined (rn_1 t) && defined (rn_2 t) && defined (rn_3 t).

Definition hist_whole (t : _torch) : Prop :=
  has_hidden t = true /\ IEEE.is_nan (rn_time t) = false.

Definition hist_empty (t : _torch) : Prop :=
  rn_0 t = None /\ rn_1 t = None /\ rn_2 t = None /\ rn_3 t = None
  /\ IEEE.is_nan (rn_time t) = true.

Definition hist_inv (t : _torch) : Prop := hist_whole t \/ hist_empty t.

(** The states an instance can be in: created, then any sequence of
    actions allowed by [allowed], the host being free to edit parameters
    and memory in between.  The content of uninitialised locals is
    arbitrary at every call. *)
Inductive reachable (host : Host) (allowed : Action -> Prop) : World -> Prop :=
| reach_create (w : World) :
    reachable host allowed (effectCreateInstance w).2
| reach_host (w : World) (ps : ParamSet) (hp : Heap) :
    reachable host allowed w ->
    reachable host allowed (set_params ps (set_heap hp w))
| reach_action (w : World) (a : Action) (indeterminate : ImageInfo) :
    reachable host allowed w -> allowed a ->
    reachable host allowed (ofxMain host indeterminate a w).2.


(** A model that keeps to the interface of Robust Video Matting: when
    its forward pass returns, it returns at least six tensors, those at
    positions 2 to 5 defined. *)
Definition model_ok (m : Module) : Prop :=
  forall inputs kwargs hp outputs hp',
    forward m inputs kwargs hp = (Ok outputs, hp') ->
    (6 <= length outputs)%nat
    /\ forall i, (2 <= i < 6)%nat -> exists ti, outputs !! i = Some (Some ti).

(** Every module the loader hands over is such a model. *)
Definition loader_ok (host : Host) : Prop :=
  forall file m, jit_load host file = Ok m ->
    model_ok m /\ forall dev m', module_to host m dev = Ok m' -> model_ok m'.

(** What the actions keep true of the session: the history is whole or
    empty, and a session marked ready holds a model of the loader. *)
Definition session_inv (w : World) : Prop :=
  hist_inv (torch (priv w))
  /\ (ready (torch (priv w)) = true -> model_ok (model (torch (priv w)))).

(** The render time is a number. *)
Definition time_ok (a : Action) : Prop :=
  match a with
  | ActionRender time => IEEE.is_nan time = false
  | _ => True
  end.

(** An image converted to a tensor and written back into another image
    of the same format, with nothing in between. *)
Definition roundTrip (src dst : ImageInfo) (td : Device) (tt : Dtype) : M Heap unit :=
  let* t := imageToTensor src td tt in
  tensorToImage dst t.

Module RoundTrip.

(** A 2x1 single-channel image of the given depth in block [blk]. *)
Definition image (blk : nat) (depth : string) (vs : Z) : ImageInfo :=
  {| h := Some blk; rect := mkRect 0 0 2 1; rowBytes := 2 * vs; ptr := mkPtr blk 0;
     pixelDepth := depth; components := kOfxImageComponentAlpha |}.

(** The source pixels are [vs] in block 0, the destination is block 1
    holding [zs]; the tensor in between is a binary32 CPU tensor. *)
Definition run (depth : string) (dt : Dtype) (vs zs : list scalar)
    : Res unit * Heap :=
  roundTrip (image 0 depth (itemsize dt)) (image 1 depth (itemsize dt)) kCPU kFloat32
            [Example.block dt vs; Example.block dt zs].

End RoundTrip.

(** The parameter handles cached in the instance data are those that
    [effectCreateInstance] fetched. *)
Definition handles_ok (p : InstanceData) : Prop :=
  deviceParam p = "device" /\ modelParam p = "model"
  /\ modelFileParam p = "modelFile" /\ modelPrecisionParam p = "modelPrecision"
  /\ downsampleRatioParam p = "downsampleRatio" /\ outputTypeParam p = "outputType"
  /\ colorSourceParam p = "colorSource"
  /\ postmultiplyAlphaParam p = "postmultiplyAlpha".

(** The continuity rule in the words of the specification: prior hidden
    state is reused when it is present and the requested time is the
    last-used time or the last-used time plus one. *)
Definition reuse_allowed (time : OfxTime) (t : _torch) : bool :=
  has_hidden t
  && (IEEE.d_eqb time (rn_time t)
      || IEEE.d_eqb time (IEEE.d_add (rn_time t) (IEEE.d_of_Z 1))).

(** The test the code makes: the first of the four tensors is defined,
    and the requested time is the last-used time plus one or the
    last-used time. *)
Definition reuse_tested (time : OfxTime) (t : _torch) : bool :=
  defined (rn_0 t)
  && (IEEE.d_eqb time (IEEE.d_add (rn_time t) (IEEE.d_of_Z 1))
      || IEEE.d_eqb time (rn_time t)).

(** The keyword arguments of the forward pass. *)
Definition kwargs_of (p : InstanceData) : Kwargs :=
  if IEEE.d_eqb (downsampleRatio p) (IEEE.d_of_Z 0) then ∅
  else {[ "downsample_ratio" := downsampleRatio p ]}.

(** While the session is not ready, it only has to keep its history
    whole or empty. *)
Definition not_ready_inv (w : World) : Prop :=
  hist_inv (torch (priv w)) /\ ready (torch (priv w)) = false.

(** Once the load step has succeeded, the render works on a ready
    session. *)
Definition ready_inv (w : World) : Prop :=
  session_inv w /\ ready (torch (priv w)) = true.

(** Two views that share no cell. *)
Definition separate (t t' : TensorImpl) : Prop :=
  t_blk t <> t_blk t' \/ forall a, a ∈ addrs t -> a ∉ addrs t'.

(** ** The compositor of the specification *)

(** The value of a tensor: its shape and its elements in row-major
    order. *)
Record Value := mkValue { shape : list Z; elems : list scalar }.

Definition value (hp : Heap) (t : Tensor) : option Value :=
  match t with
  | Some ti => mkValue (t_sizes ti) <$> read hp ti
  | None => None
  end.

(** Written after the specification, on values of shape [1, c, H, W]. *)

(** The alpha tensor broadcast across [n] channels. *)
Definition broadcast_channels (n : Z) (A : Value) : Value :=
  {| shape := <[1%nat := n]> (shape A);
     elems := mjoin (replicate (Z.to_nat n) (elems A)) |}.

(** The element-wise product. *)
Definition multiply (dt : Dtype) (F B : Value) : Value :=
  {| shape := shape F; elems := zip_with (mul_at dt) (elems F) (elems B) |}.

(** The concatenation along the channel axis. *)
Definition concat_channels (F A : Value) : Value :=
  {| shape := <[1%nat := nth 1 (shape F) 0 + nth 1 (shape A) 0]> (shape F);
     elems := elems F ++ elems A |}.

(** The channel count of the destination layout. *)
Definition layout_channels (layout : string) : option Z :=
  if String.eqb layout "OfxImageComponentRGBA" then Some 4
  else if String.eqb layout "OfxImageComponentRGB" then Some 3
  else if String.eqb layout "OfxImageComponentAlpha" then Some 1
  else None.

(** The compositor of the specification; [None] is its failure. *)
Definition spec_composite (dt : Dtype) (outputType colorSource : Z) (postmultiply : bool)
    (layout : string) (F A I : Value) : option Value :=
  if outputType =? OUTPUT_RGBA then
    let F' := if colorSource =? COLOR_SRC_MODEL then F else I in
    let F' := if postmultiply then multiply dt F' (broadcast_channels 3 A) else F' in
    Some (concat_channels F' A)
  else if outputType =? OUTPUT_ALPHA then
    match layout_channels layout with
    | Some n => Some (broadcast_channels n A)
    | None => None
    end
  else None.

(** [t] is a tensor of the given shape, element type and device, whose
    elements are [vs]. *)
Definition holds (hp : Heap) (t : Tensor) (sizes : list Z) (dt : Dtype) (dev : Device)
    (vs : list scalar) : Prop :=
  exists ti, t = Some ti /\ t_sizes ti = sizes /\ t_dtype ti = dt /\ t_device ti = dev
             /\ read hp ti = Some vs /\ length vs = Z.to_nat (numel sizes).

(** No two elements of the view share a cell. *)
Definition writable (t : Tensor) : Prop :=
  match t with Some ti => NoDup (addrs ti) | None => False end.

(** The two views share no cell. *)
Definition apart (t t' : Tensor) : Prop :=
  match t, t' with
  | Some a, Some b => separate a b
  | _, _ => True
  end.

(** A concrete call of the compositor: foreground (1, 0.5, 0.25) in
    block 0, alpha 0.5 in block 1, input (0.25, 0.25, 0.25) in block 2,
    one pixel each; full-colour output, colour from the model,
    post-multiplied. *)
Module Composite.

Definition F : list scalar := [SFloat f_1; SFloat Example.half; SFloat Example.quarter].
Definition A : list scalar := [SFloat Example.half].
Definition I : list scalar := replicate 3 (SFloat Example.quarter).

Definition tensor (blk : nat) (c : Z) : Tensor :=
  Some {| t_blk := blk; t_off := 0; t_sizes := [1; c; 1; 1];
          t_strides := cstrides [1; c; 1; 1]; t_dtype := kFloat32; t_device := kCPU |}.

Definition world : World :=
  {| heap := [Example.block kFloat32 F; Example.block kFloat32 A; Example.block kFloat32 I];
     priv := set_cached (IEEE.d_of_Z 0) OUTPUT_RGBA COLOR_SRC_MODEL true InstanceData_new;
     params := Example.param_set COLOR_SRC_MODEL 1;
     log := []; path := "" |}.

Definition eighth : spec_float := IEEE.f32_div f_1 (IEEE.f32_of_Z 8).

End Composite.

(** ** Notions used by the further properties *)

(** The image handle held in a local, as a list. *)
Definition handle_list (o : option nat) : list nat :=
  match o with Some n => [n] | None => [] end.

(** Events about images. *)
Definition image_event (e : Event) : bool :=
  match e with EvGetImage _ | EvReleaseImage _ => true | _ => false end.

(** [m] neither acquires nor releases an image. *)
Definition silent {A} (m : M World A) : Prop :=
  forall w, post m w (fun _ w' =>
    exists l, log w' = log w ++ l /\ acquired l = [] /\ released l = []).

(** Since the render began with the log [l0] nothing was released, and
    the images acquired stand in the relation [P] to the locals. *)
Definition render_log (P : list nat -> RenderFrame -> Prop) (l0 : list Event)
    (wf : World * RenderFrame) : Prop :=
  exists l, log wf.1 = l0 ++ l /\ released l = [] /\ P (acquired l) wf.2.

(** Whatever the outcome of the [try] block, the images acquired so far
    are those the two locals hold. *)
Definition held (acq : list nat) (fr : RenderFrame) : Prop :=
  forall n, n ∈ acq -> h (outputImg fr) = Some n \/ h (inputImg fr) = Some n.

(** [w'] differs from [w] by the events [l] and, at most, by the
    device, the element type and the model of the session. *)
Definition session_kept (l : list Event) (w w' : World) : Prop :=
  heap w' = heap w /\ params w' = params w /\ log w' = log w ++ l
  /\ exists d ty m,
       priv w' = set_torch (set_device d (set_type ty (set_model m (torch (priv w))))) (priv w).

(** The outcomes of the [try] block around the load of a model file. *)
Definition load_outcome (r : Res bool) : Prop :=
  r = Ok true \/ r = Ok false \/ r = Fault
  \/ exists e, r = Throw e /\ is_std_exception e = false.

(** The outcomes of the load step on a session that is not ready: no
    file name and nothing done; or a load that failed; or a load that
    succeeded, followed by the clearing of the history. *)
Definition setup_outcome (host : Host) (w : World) (r : Res OfxStatus) (w' : World) : Prop :=
  (r = Ok kOfxStatFailed /\ (getModelFilename host w).1 = Ok None /\ session_kept [] w w')
  \/ exists file,
       (getModelFilename host w).1 = Ok (Some file)
       /\ (((r = Ok kOfxStatFailed \/ r = Fault
             \/ exists e, r = Throw e /\ is_std_exception e = false)
            /\ session_kept [EvLoad file] w w')
           \/ (r = Ok kOfxStatOK
               /\ exists w1,
                    session_kept [EvLoad file] w w1
                    /\ w' = set_priv (set_torch (set_ready true
                                         (torch (priv (modelClearHistory w1).2)))
                                       (priv (modelClearHistory w1).2))
                              (modelClearHistory w1).2)).

(** The element type of a pixel depth, as both directions of the bridge
    select it; [None] when unrecognised. *)
Definition depth_dtype (pixelDepth : string) : option Dtype :=
  if strcmp pixelDepth kOfxBitDepthByte =? 0 then Some kByte
  else if strcmp pixelDepth kOfxBitDepthShort =? 0 then Some kShort
  else if strcmp pixelDepth kOfxBitDepthHalf =? 0 then Some kFloat16
  else if strcmp pixelDepth kOfxBitDepthFloat =? 0 then Some kFloat32
  else None.

(** The blocks that exist in [hp] are the same in [hp'], those in [X]
    apart. *)
Definition unchanged_except (X : nat -> Prop) (hp hp' : Heap) : Prop :=
  (length hp <= length hp')%nat
  /\ forall b, (b < length hp)%nat -> ~ X b -> hp' !! b = hp !! b.

(** [m] writes to existing blocks in [X] only. *)
Definition hframe {A} (X : nat -> Prop) (m : M Heap A) : Prop :=
  forall hp, post m hp (fun _ hp' => unchanged_except X hp hp').

(** A model that allocates the tensors it returns and writes to no
    memory that existed before the call. *)
Definition model_fresh (m : Module) : Prop :=
  forall inputs kwargs hp r hp',
    forward m inputs kwargs hp = (r, hp') ->
    unchanged_except (fun _ => False) hp hp'
    /\ forall outputs ti, r = Ok outputs -> Some ti ∈ outputs -> (length hp <= t_blk ti)%nat.

(** The blocks a tensor of the render may be written through: those in
    [X], and those allocated since the render began on [hp0]. *)
Definition allowed (hp0 : Heap) (X : nat -> Prop) (t : Tensor) : Prop :=
  forall ti, t = Some ti -> X (t_blk ti) \/ (length hp0 <= t_blk ti)%nat.

(** The invariant of a render started on the heap [hp0]: the blocks of
    [hp0] outside [X] are as they were. *)
Definition render_frame (hp0 : Heap) (X : nat -> Prop) (w : World) : Prop :=
  unchanged_except X hp0 (heap w).

(** The image the host delivers under handle [n]. *)
Definition image_of (host : Host) (n : nat) : ImageInfo :=
  {| h := Some n; rect := ip_bounds (imageProps host n);
     rowBytes := ip_rowBytes (imageProps host n); ptr := ip_data (imageProps host n);
     pixelDepth := ip_pixelDepth (imageProps host n);
     components := ip_components (imageProps host n) |}.

(** ** Rows of float images *)



(** The cells of the rows of a view, as a function of row and position
    in the row. *)
Definition rows_of {A} (H K : nat) (f : nat -> nat -> A) : list A :=
  flat_map (fun r : nat => map (f r) (seq 0 K)) (seq 0 H).

(** ** Further hosts and instances on which the properties are run *)

Module Scenario.

(** A host whose model loader raises. *)
Definition broken_loader : Host :=
  {| gBundlePath := "/bundle";
     PATH_MAX := 4096;
     clipGetImage := clipGetImage (Example.host_of Example.rvm);
     imageProps := imageProps (Example.host_of Example.rvm);
     clipConnected := fun _ => 1;
     abort := 0;
     jit_load := fun _ => c10_error;
     module_to := fun m _ => Ok m;
     jit_freeze := fun _ => Ok tt |}.

(** A host that has no image on any clip, and leaves the handle it is
    given as it was. *)
Definition no_images : Host :=
  {| gBundlePath := "/bundle";
     PATH_MAX := 4096;
     clipGetImage := fun _ _ old => (kOfxStatFailed, old);
     imageProps := imageProps (Example.host_of Example.rvm);
     clipConnected := fun _ => 1;
     abort := 0;
     jit_load := fun _ => Ok Example.rvm;
     module_to := fun m _ => Ok m;
     jit_freeze := fun _ => Ok tt |}.

(** A local whose handle field holds 7 before it is written. *)
Definition stale : ImageInfo := set_h (Some 7%nat) Example.no_image.

(** The custom model is selected and no file is named. *)
Definition custom_params : ParamSet :=
  {| values := list_to_map
       [("device", PInt DEVICE_CPU); ("model", PInt MODEL_CUSTOM);
        ("modelFile", PString ""); ("modelPrecision", PInt MODEL_PRECISION_FLOAT32)];
     enabled := ∅ |}.

Definition fresh_instance (ps : ParamSet) : World :=
  {| heap := Example.buffers; priv := InstanceData_new; params := ps; log := [];
     path := "" |}.

(** An instance whose model [m] has been loaded. *)
Definition loaded (m : Module) : World :=
  (modelSetup (Example.host_of m)
     (Example.created (Example.param_set COLOR_SRC_MODEL 0))).2.

Definition output_image : ImageInfo := image_of (Example.host_of Example.rvm) 1.

(** Nothing described yet. *)
Definition no_descriptor : Descriptor :=
  {| clipDefs := ∅; paramDefs := ∅; bundlePath := None |}.



End Scenario.

(** * Properties *)

(** ** Reasoning about a run *)

Lemma post_bind {S A B} (m : M S A) (k : A -> M S B) s Q :
  post m s (fun r s' =>
              match r with
              | Ok a => post (k a) s' Q
              | Throw e => Q (Throw e) s'
              | Fault => Q Fault s'
              end) ->
  post (bind m k) s Q.
Proof. unfold post, bind. destruct (m s) as [[a | e |] s']; cbn; auto. Qed.

Lemma post_mono {S A} (m : M S A) s (Q Q' : Res A -> S -> Prop) :
  post m s Q -> (forall r s', Q r s' -> Q' r s') -> post m s Q'.
Proof. unfold post. auto. Qed.

Lemma post_try_catch {S A} (body : M S A) (catches : exn -> bool) handler s
    (Q : Res A -> S -> Prop) :
  post body s (fun r s' =>
                 match r with
                 | Throw e => if catches e then post handler s' Q else Q (Throw e) s'
                 | _ => Q r s'
                 end) ->
  post (try_catch body catches handler) s Q.
Proof.
  unfold post, try_catch. destruct (body s) as [[a | e |] s']; cbn; auto.
  destruct (catches e); auto.
Qed.

Lemma post_liftH {A} (m : M Heap A) w (Q : Res A -> World -> Prop) :
  (forall r hp, Q r (set_heap hp w)) -> post (liftH m) w Q.
Proof. unfold post, liftH. intros H. destruct (m (heap w)). apply H. Qed.

(** One step through straight-line code. *)
Ltac run_prim :=
  unfold post at 1;
  cbn [fst snd getInstanceData get_params modify_torch modify_priv modify_params
       setParamEnabledness emit ret throw fault get put liftR].

Ltac run_step :=
  lazymatch goal with
  | |- post (bind _ _) _ _ => apply post_bind
  | |- post (try_catch _ _ _) _ _ => apply post_try_catch
  | |- post (if ?b then _ else _) _ _ => destruct b eqn:?
  | |- post (match ?o with Some _ => _ | None => _ end) _ _ => destruct o eqn:?
  | |- post (match ?o with EmptyString => _ | String _ _ => _ end) _ _ => destruct o eqn:?
  | |- post (liftR ?r) _ _ => destruct r eqn:?; run_prim
  | |- post getInstanceData _ _ => run_prim
  | |- post get_params _ _ => run_prim
  | |- post (modify_torch _) _ _ => run_prim
  | |- post (modify_priv _) _ _ => run_prim
  | |- post (modify_params _) _ _ => run_prim
  | |- post (setParamEnabledness _ _) _ _ => run_prim
  | |- post (emit _) _ _ => run_prim
  | |- post (ret _) _ _ => run_prim
  | |- post (throw _) _ _ => run_prim
  end.

Lemma post_bind_mid {S A B} (R : A -> S -> Prop) (m : M S A) (k : A -> M S B) s
    (Q : Res B -> S -> Prop) :
  post m s (fun r s' =>
              match r with
              | Ok a => R a s'
              | Throw e => Q (Throw e) s'
              | Fault => Q Fault s'
              end) ->
  (forall a s', R a s' -> post (k a) s' Q) ->
  post (bind m k) s Q.
Proof.
  intros Hm Hk. apply post_bind. eapply post_mono; [exact Hm |].
  intros [a | e |] s' H; cbn; auto.
Qed.

Lemma post_any {S A} (m : M S A) s (Q : Res A -> S -> Prop) :
  (forall r s', Q r s') -> post m s Q.
Proof. unfold post. auto. Qed.

(** ** Change notifications on clips (C2, C3) *)

(** What the handler does on a user edit of the clip "Input": the two
    string tests on the clip name are inverted, so "Input" falls through
    the first and is caught by the second. *)
Lemma effectInstanceChanged_Input (host : Host) (w : World) :
  effectInstanceChanged host kOfxChangeUserEdited kOfxTypeClip "Input" w
  = (Ok kOfxStatOK,
     set_priv (set_hasGarbageMatte (negb (clipConnected host "Input" =? 0)) (priv w)) w).
Proof. reflexivity. Qed.

(** ... and on a user edit of any other clip, the two mattes included. *)
Lemma effectInstanceChanged_other_clip (host : Host) (w : World) (name : string) :
  name <> "Input" ->
  effectInstanceChanged host kOfxChangeUserEdited kOfxTypeClip name w
  = (let* _ := modelClearHistory in ret kOfxStatOK) w.
Proof.
  intros Hne. unfold effectInstanceChanged.
  change (strcmp kOfxChangeUserEdited kOfxChangeUserEdited =? 0) with true.
  change (strcmp kOfxTypeClip kOfxTypeClip =? 0) with true.
  change (strcmp kOfxTypeClip kOfxTypeParameter =? 0) with false.
  cbn [negb andb].
  assert (Hs : (strcmp name "Input" =? 0) = false).
  { unfold strcmp. destruct (String.compare name "Input") eqn:E; try reflexivity.
    apply String.compare_eq_iff in E. contradiction. }
  rewrite Hs. reflexivity.
Qed.

(** C2 (the code departs from it): on the instance that holds history
    from frame 1, a user edit of the clip "Input" is answered with
    kOfxStatOK, leaves the last-used time at 1 and the four hidden-state
    tensors in place, and sets the garbage-matte flag instead. *)
Theorem input_clip_change_keeps_history :
  let r := Example.run Example.rvm
             (ActionInstanceChanged kOfxChangeUserEdited kOfxTypeClip "Input")
             Example.rendered in
  let t := torch (priv r.2) in
  r.1 = Ok kOfxStatOK
  /\ hasGarbageMatte (priv Example.rendered) = false
  /\ hasGarbageMatte (priv r.2) = true
  /\ rn_time (torch (priv Example.rendered)) = IEEE.d_of_Z 1
  /\ rn_time t = IEEE.d_of_Z 1
  /\ defined (rn_0 t) && defined (rn_1 t) && defined (rn_2 t) && defined (rn_3 t) = true.
Proof. vm_compute. repeat split. Qed.

(** C3 (the code departs from it): on the same instance, a user edit of
    the clip "GarbageMatte" or "SolidMatte", reported as connected,
    leaves both cached flags as they were and wipes the recurrent
    history. *)
Theorem matte_clip_change_clears_history :
  forall name, name = "GarbageMatte" \/ name = "SolidMatte" ->
  let r := Example.run Example.rvm
             (ActionInstanceChanged kOfxChangeUserEdited kOfxTypeClip name)
             Example.rendered in
  let t := torch (priv r.2) in
  r.1 = Ok kOfxStatOK
  /\ clipConnected (Example.host_of Example.rvm) name = 1
  /\ hasGarbageMatte (priv r.2) = false
  /\ hasSolidMatte (priv r.2) = false
  /\ IEEE.is_nan (rn_time (torch (priv Example.rendered))) = false
  /\ IEEE.is_nan (rn_time t) = true
  /\ (rn_0 t, rn_1 t, rn_2 t, rn_3 t) = (None, None, None, None).
Proof. intros name [-> | ->]; vm_compute; repeat split. Qed.

Lemma matte_clip_change_clears_history_witness :
  let r := Example.run Example.rvm
             (ActionInstanceChanged kOfxChangeUserEdited kOfxTypeClip "SolidMatte")
             Example.rendered in
  IEEE.is_nan (rn_time (torch (priv r.2))) = true.
Proof.
  exact (proj1 (proj2 (proj2 (proj2 (proj2 (proj2
    (matte_clip_change_clears_history "SolidMatte" (or_intror eq_refl)))))))).
Defined.

(** ** The pixel-buffer / tensor bridge (C4) *)

(** C4 (the code departs from it): for a byte, a short and a half
    image, the write-back raises at the typed [data_ptr<float>()] of a
    tensor that was just converted to the depth of the image, and the
    destination keeps its old content; only for a float image does the
    round trip reproduce the source. *)
Theorem roundTrip_only_float :
  let zero := S754_zero false in
  (let r := RoundTrip.run kOfxBitDepthByte kByte [SByte 7; SByte 200] [SByte 0; SByte 0] in
   r.1 = Throw StdException
   /\ r.2 !! 1%nat = Some (Example.block kByte [SByte 0; SByte 0]))
  /\ (let r := RoundTrip.run kOfxBitDepthShort kShort
                 [SShort 7; SShort 200] [SShort 0; SShort 0] in
      r.1 = Throw StdException
      /\ r.2 !! 1%nat = Some (Example.block kShort [SShort 0; SShort 0]))
  /\ (let r := RoundTrip.run kOfxBitDepthHalf kFloat16
                 [SHalf Example.half; SHalf Example.quarter] [SHalf zero; SHalf zero] in
      r.1 = Throw StdException
      /\ r.2 !! 1%nat = Some (Example.block kFloat16 [SHalf zero; SHalf zero]))
  /\ (let r := RoundTrip.run kOfxBitDepthFloat kFloat32
                 [SFloat Example.half; SFloat Example.quarter] [SFloat zero; SFloat zero] in
      r.1 = Ok tt
      /\ r.2 !! 1%nat
         = Some (Example.block kFloat32 [SFloat Example.half; SFloat Example.quarter])).
Proof. vm_compute. repeat split. Qed.

(** ** Release of the pixel buffers (C5) *)

(** C5 (the code departs from it): when the forward pass raises, the
    render action is answered with kOfxStatErrUnknown by the entry point
    and both images, acquired before, are still held; a render that
    succeeds releases both. *)
Theorem render_error_leaks_images :
  let w := Example.created (Example.param_set COLOR_SRC_MODEL 0) in
  let bad := Example.run Example.failing_model (ActionRender (IEEE.d_of_Z 1)) w in
  let good := Example.run Example.rvm (ActionRender (IEEE.d_of_Z 1)) w in
  bad.1 = Ok kOfxStatErrUnknown
  /\ acquired (log bad.2) = [1; 0]%nat /\ released (log bad.2) = []
  /\ good.1 = Ok kOfxStatOK
  /\ acquired (log good.2) = [1; 0]%nat /\ released (log good.2) = [1; 0]%nat.
Proof. vm_compute. repeat split. Qed.

(** ** The input buffer (C10) *)

(** C10 (the code departs from it): with a float input image, the CPU
    device and float32 precision, [to] hands back the view of the host
    buffer itself; with colour taken from the input clip and
    post-multiplication on, the render multiplies the input pixel
    (0.5, 0.5, 0.5) by the alpha 0.5 in the buffer of the host.  With
    the colour taken from the model the buffer is left alone. *)
Theorem render_overwrites_input_buffer :
  let px v := Example.block kFloat32 [SFloat v; SFloat v; SFloat v] in
  let w := Example.created (Example.param_set COLOR_SRC_INPUT 1) in
  let r := Example.run Example.rvm (ActionRender (IEEE.d_of_Z 1)) w in
  let w' := Example.created (Example.param_set COLOR_SRC_MODEL 1) in
  let r' := Example.run Example.rvm (ActionRender (IEEE.d_of_Z 1)) w' in
  r.1 = Ok kOfxStatOK
  /\ heap w !! 0%nat = Some (px Example.half)
  /\ heap r.2 !! 0%nat = Some (px Example.quarter)
  /\ r'.1 = Ok kOfxStatOK
  /\ heap w' !! 0%nat = Some (px Example.half)
  /\ heap r'.2 !! 0%nat = Some (px Example.half).
Proof. vm_compute. repeat split. Qed.

(** ** The whole-or-empty invariant (C6) *)

(** C6 as stated fails: a custom model that returns four tensors makes
    the render stop at [outputs.get(4)], after the time and the first two
    tensors were stored. *)
Lemma hist_inv_not_invariant :
  ~ (forall host w, reachable host (fun _ => True) w -> hist_inv (torch (priv w))).
Proof.
  intros H.
  pose (w0 := {| heap := Example.buffers; priv := InstanceData_new;
                 params := Example.param_set COLOR_SRC_MODEL 0; log := []; path := "" |}).
  specialize (H (Example.host_of Example.short_model)
                (ofxMain (Example.host_of Example.short_model) Example.no_image
                   (ActionRender (IEEE.d_of_Z 1)) (effectCreateInstance w0).2).2).
  destruct H as [[Hh _] | (_ & _ & _ & _ & Hn)].
  - apply reach_action; [apply reach_create | exact I].
  - vm_compute in Hh. discriminate.
  - vm_compute in Hn. discriminate.
Qed.

(** ** The model load step (C7) *)

Lemma modelSetup_ready (host : Host) (w : World) :
  ready (torch (priv w)) = true -> modelSetup host w = (Ok kOfxStatOK, w).
Proof.
  intros Hr. unfold modelSetup, bind, getInstanceData. cbn. rewrite Hr. reflexivity.
Qed.

(** A load that succeeds leaves the session ready. *)
Lemma modelSetup_ok_ready (host : Host) (w : World) :
  (modelSetup host w).1 = Ok kOfxStatOK ->
  ready (torch (priv (modelSetup host w).2)) = true.
Proof.
  change (post (modelSetup host) w
            (fun r w' => r = Ok kOfxStatOK -> ready (torch (priv w')) = true)).
  unfold modelSetup.
  do 3 run_step; [run_step; auto |].
  do 2 run_step.
  (* whatever the configuration and the file name are *)
  do 3 (eapply (post_bind_mid (fun _ _ => True));
        [apply post_any; intros [? | ? |] ?; [exact I | discriminate | discriminate]
        | intros ? ? _]).
  run_step; [| run_step; discriminate].
  eapply (post_bind_mid (fun _ _ => True));
    [apply post_any; intros [? | ? |] ?; [exact I | discriminate | discriminate]
    | intros loaded ? _].
  run_step; [run_step; discriminate |].
  eapply (post_bind_mid (fun _ _ => True));
    [apply post_any; intros [? | ? |] ?; [exact I | discriminate | discriminate]
    | intros ? ? _].
  do 3 run_step. intros _. reflexivity.
Qed.

(** C7: when the session is ready the load step returns kOfxStatOK and
    leaves the whole world as it is (model handle, device, precision,
    hidden state, and the log of loads); hence a second call right after
    a successful one does nothing, and a call that logged anything found
    the session not ready. *)
Theorem modelSetup_idempotent (host : Host) (w : World) :
  (ready (torch (priv w)) = true -> modelSetup host w = (Ok kOfxStatOK, w))
  /\ ((modelSetup host w).1 = Ok kOfxStatOK ->
      modelSetup host (modelSetup host w).2 = (Ok kOfxStatOK, (modelSetup host w).2))
  /\ (log (modelSetup host w).2 <> log w -> ready (torch (priv w)) = false).
Proof.
  split; [apply modelSetup_ready |]. split.
  - intros Hok. apply modelSetup_ready, modelSetup_ok_ready, Hok.
  - intros Hlog. destruct (ready (torch (priv w))) eqn:Hr; [| reflexivity].
    rewrite modelSetup_ready in Hlog by exact Hr. contradiction.
Qed.

Lemma modelSetup_idempotent_witness :
  let host := Example.host_of Example.rvm in
  let w := Example.created (Example.param_set COLOR_SRC_MODEL 0) in
  ready (torch (priv w)) = false
  /\ log (modelSetup host w).2
     = [EvLoad "/bundle/Contents/Resources/rvm_mobilenetv3_fp32.torchscript"]
  /\ modelSetup host (modelSetup host w).2 = (Ok kOfxStatOK, (modelSetup host w).2).
Proof.
  split; [reflexivity |]. split; [vm_compute; reflexivity |].
  apply (modelSetup_idempotent (Example.host_of Example.rvm)
           (Example.created (Example.param_set COLOR_SRC_MODEL 0))).
  vm_compute. reflexivity.
Defined.

(** ** The parameter-validity rules (C9) *)

(** The parameter set after [updateParamsValidity], as a function of the
    one before. *)
Lemma updateParamsValidity_params (w : World) :
  handles_ok (priv w) ->
  let ps := params w in
  let dev := paramGetInt ps "device" in
  let ps1 :=
    if dev =? DEVICE_CPU then
      propSetEnabled (paramSetValue ps "modelPrecision" (PInt MODEL_PRECISION_FLOAT32))
                     "modelPrecision" false
    else if dev =? DEVICE_CUDA then propSetEnabled ps "modelPrecision" true
    else ps in
  let ps2 := propSetEnabled ps1 "modelFile" (paramGetInt ps1 "model" =? MODEL_CUSTOM) in
  let rgba := paramGetInt ps2 "outputType" =? OUTPUT_RGBA in
  updateParamsValidity w
  = (Ok tt, set_params (propSetEnabled (propSetEnabled ps2 "colorSource" rgba)
                                       "postmultiplyAlpha" rgba) w).
Proof.
  intros (Hd & Hm & _ & Hp & _ & Ho & _). cbv zeta.
  unfold updateParamsValidity, bind, getInstanceData, get_params. cbn.
  rewrite Hd, Hm, Hp, Ho.
  destruct (paramGetInt (params w) "device" =? DEVICE_CPU); [reflexivity |].
  destruct (paramGetInt (params w) "device" =? DEVICE_CUDA); reflexivity.
Qed.

Lemma updateParamsValidity_ok (w : World) : (updateParamsValidity w).1 = Ok tt.
Proof.
  unfold updateParamsValidity, bind, getInstanceData, get_params. cbn.
  destruct (_ =? DEVICE_CPU); [reflexivity |].
  destruct (_ =? DEVICE_CUDA); reflexivity.
Qed.

Lemma effectEndInstanceChanged_user (w : World) :
  exists p',
    effectEndInstanceChanged kOfxChangeUserEdited w
    = (Ok kOfxStatOK, set_priv p' (updateParamsValidity w).2).
Proof.
  unfold effectEndInstanceChanged.
  change (strcmp kOfxChangeUserEdited kOfxChangeUserEdited =? 0) with true. cbv iota.
  unfold bind at 1. pose proof (updateParamsValidity_ok w) as E.
  destruct (updateParamsValidity w) as [r w']. cbn in E. subst r.
  eexists. reflexivity.
Qed.

(** The rules [updateParamsValidity] establishes, and what it keeps:
    every value but the precision, the precision unless the device is
    the CPU, and every control but the four of the rules. *)
Lemma updateParamsValidity_rules (w : World) :
  handles_ok (priv w) ->
  let ps0 := params w in
  let ps := params (updateParamsValidity w).2 in
  (paramGetInt ps "device" = DEVICE_CPU ->
   paramGetInt ps "modelPrecision" = MODEL_PRECISION_FLOAT32
   /\ enabled ps !! "modelPrecision" = Some false)
  /\ (paramGetInt ps "device" = DEVICE_CUDA ->
      enabled ps !! "modelPrecision" = Some true)
  /\ enabled ps !! "modelFile" = Some (paramGetInt ps "model" =? MODEL_CUSTOM)
  /\ enabled ps !! "colorSource" = Some (paramGetInt ps "outputType" =? OUTPUT_RGBA)
  /\ enabled ps !! "postmultiplyAlpha" = Some (paramGetInt ps "outputType" =? OUTPUT_RGBA)
  /\ (forall name, name <> "modelPrecision" -> values ps !! name = values ps0 !! name)
  /\ (paramGetInt ps0 "device" <> DEVICE_CPU ->
      values ps !! "modelPrecision" = values ps0 !! "modelPrecision")
  /\ (paramGetInt ps0 "device" <> DEVICE_CPU -> paramGetInt ps0 "device" <> DEVICE_CUDA ->
      enabled ps !! "modelPrecision" = enabled ps0 !! "modelPrecision")
  /\ (forall name,
        name <> "modelPrecision" -> name <> "modelFile" ->
        name <> "colorSource" -> name <> "postmultiplyAlpha" ->
        enabled ps !! name = enabled ps0 !! name).
Proof.
  intros Hh. cbv zeta.
  pose proof (updateParamsValidity_params w Hh) as E. cbv zeta in E. rewrite E. clear E.
  cbn [snd params set_params].
  unfold paramGetInt, propSetEnabled, paramSetValue.
  destruct (match values (params w) !! "device" with Some (PInt z) => z | _ => 0 end
            =? DEVICE_CPU) eqn:Ecpu;
    [| destruct (match values (params w) !! "device" with Some (PInt z) => z | _ => 0 end
                 =? DEVICE_CUDA) eqn:Ecuda];
    cbn [values enabled].
  all: repeat match goal with |- _ /\ _ => split end.
  all: try (intros name Hn1 Hn2 Hn3 Hn4; rewrite ?lookup_insert_ne by congruence; reflexivity).
  all: try (intros name Hn; rewrite ?lookup_insert_ne by congruence; reflexivity).
  all: try (intros Hc1 Hc2; rewrite ?lookup_insert_ne by discriminate;
            first [reflexivity | apply Z.eqb_neq in Ecuda; contradiction
                  | apply Z.eqb_eq in Ecuda; contradiction
                  | apply Z.eqb_eq in Ecpu; contradiction]).
  all: try (intros Hc1; first [reflexivity | apply Z.eqb_eq in Ecpu; contradiction]).
  all: simplify_map_eq.
  all: repeat split; try reflexivity.
  all: intros; try match goal with
       | H : _ = DEVICE_CPU |- _ => rewrite H in *; discriminate
       | H : _ = DEVICE_CUDA |- _ => rewrite H in *; discriminate
       end.
Qed.

(** C9: after a batch of edits closed with reason "user edited": if the
    device is the CPU the precision parameter reads float32 and its
    control is disabled, if the device is CUDA the precision control is
    enabled; the model-file control is enabled exactly when the model
    selector is "custom"; the colour-source and post-multiply controls
    are enabled exactly when the output type is RGBA.  The device, the
    model selector, the output type and every other setting are those
    the user left: no value changes but the precision, and that only
    when the device is the CPU; no control changes but the four of the
    rules. *)
Theorem params_valid_after_user_edit (w : World) :
  handles_ok (priv w) ->
  let r := effectEndInstanceChanged kOfxChangeUserEdited w in
  let ps0 := params w in
  let ps := params r.2 in
  r.1 = Ok kOfxStatOK
  /\ (paramGetInt ps "device" = DEVICE_CPU ->
      paramGetInt ps "modelPrecision" = MODEL_PRECISION_FLOAT32
      /\ enabled ps !! "modelPrecision" = Some false)
  /\ (paramGetInt ps "device" = DEVICE_CUDA ->
      enabled ps !! "modelPrecision" = Some true)
  /\ enabled ps !! "modelFile" = Some (paramGetInt ps "model" =? MODEL_CUSTOM)
  /\ enabled ps !! "colorSource" = Some (paramGetInt ps "outputType" =? OUTPUT_RGBA)
  /\ enabled ps !! "postmultiplyAlpha" = Some (paramGetInt ps "outputType" =? OUTPUT_RGBA)
  /\ (forall name, name <> "modelPrecision" -> values ps !! name = values ps0 !! name)
  /\ (paramGetInt ps0 "device" <> DEVICE_CPU ->
      values ps !! "modelPrecision" = values ps0 !! "modelPrecision")
  /\ (paramGetInt ps0 "device" <> DEVICE_CPU -> paramGetInt ps0 "device" <> DEVICE_CUDA ->
      enabled ps !! "modelPrecision" = enabled ps0 !! "modelPrecision")
  /\ (forall name,
        name <> "modelPrecision" -> name <> "modelFile" ->
        name <> "colorSource" -> name <> "postmultiplyAlpha" ->
        enabled ps !! name = enabled ps0 !! name).
Proof.
  intros Hh. cbv zeta.
  destruct (effectEndInstanceChanged_user w) as [p' ->]. cbn [fst snd params set_priv].
  split; [reflexivity |].
  exact (updateParamsValidity_rules w Hh).
Qed.

(** A CUDA user with a custom model and alpha output: the device and
    the precision chosen stay, the precision and model-file controls
    are enabled, the colour-source control is not. *)
Lemma params_valid_after_user_edit_witness :
  let w := {| heap := []; priv := InstanceData_new;
              params := {| values := list_to_map
                             [("device", PInt DEVICE_CUDA); ("model", PInt MODEL_CUSTOM);
                              ("modelPrecision", PInt MODEL_PRECISION_FLOAT16);
                              ("outputType", PInt OUTPUT_ALPHA)];
                           enabled := {[ "modelPrecision" := false ]} |};
              log := []; path := "" |} in
  let ps := params (effectEndInstanceChanged kOfxChangeUserEdited w).2 in
  values ps !! "device" = Some (PInt DEVICE_CUDA)
  /\ values ps !! "modelPrecision" = Some (PInt MODEL_PRECISION_FLOAT16)
  /\ enabled ps !! "modelPrecision" = Some true
  /\ enabled ps !! "modelFile" = Some true
  /\ enabled ps !! "colorSource" = Some false.
Proof.
  cbv zeta.
  destruct (params_valid_after_user_edit
    {| heap := []; priv := InstanceData_new;
       params := {| values := list_to_map
                      [("device", PInt DEVICE_CUDA); ("model", PInt MODEL_CUSTOM);
                       ("modelPrecision", PInt MODEL_PRECISION_FLOAT16);
                       ("outputType", PInt OUTPUT_ALPHA)];
                    enabled := {[ "modelPrecision" := false ]} |};
       log := []; path := "" |})
    as (_ & _ & Hcuda & Hfile & Hcol & _ & Hkeep & Hprec & _ & _).
  - repeat split.
  - split; [rewrite Hkeep by discriminate; reflexivity |].
    split; [rewrite Hprec by discriminate; reflexivity |].
    split; [apply Hcuda; vm_compute; reflexivity |].
    split; [rewrite Hfile; vm_compute; reflexivity |].
    rewrite Hcol. vm_compute. reflexivity.
Defined.

(** ** The continuity rule (C1) *)

(** Under the whole-or-empty invariant, the test the code makes (first
    tensor defined) is the presence of the whole hidden state. *)
Lemma hist_inv_defined (t : _torch) :
  hist_inv t -> defined (rn_0 t) = has_hidden t.
Proof.
  unfold has_hidden.
  intros [[Hh _] | (H0 & H1 & H2 & H3 & _)].
  - unfold has_hidden in Hh. destruct (defined (rn_0 t)); [symmetry; exact Hh | reflexivity].
  - rewrite H0. reflexivity.
Qed.

(** The inference step is one forward pass, on the inputs the test of
    the code selects, followed by the update of the recurrent state. *)
Lemma runModel_forward (time : OfxTime) (inputTensor : Tensor) (w : World) :
  let t := torch (priv w) in
  let inputs :=
    if reuse_tested time t
    then [inputTensor; rn_0 t; rn_1 t; rn_2 t; rn_3 t]
    else [inputTensor] in
  runModel time inputTensor w
  = (let* outputs := model_forward inputs (kwargs_of (priv w)) in
     let* _ := modify_torch (set_rn_time time) in
     let* o := outputs_get outputs 2 in
     let* _ := modify_torch (set_rn_0 o) in
     let* o := outputs_get outputs 3 in
     let* _ := modify_torch (set_rn_1 o) in
     let* o := outputs_get outputs 4 in
     let* _ := modify_torch (set_rn_2 o) in
     let* o := outputs_get outputs 5 in
     let* _ := modify_torch (set_rn_3 o) in
     let* fgr := outputs_get outputs 0 in
     let* pha := outputs_get outputs 1 in
     ret (fgr, pha)) w.
Proof.
  cbv zeta.
  assert (Hk : (if negb (IEEE.d_eqb (downsampleRatio (priv w)) (IEEE.d_of_Z 0))
                then {[ "downsample_ratio" := downsampleRatio (priv w) ]}
                else ∅) = kwargs_of (priv w)).
  { unfold kwargs_of. destruct (IEEE.d_eqb (downsampleRatio (priv w)) _); reflexivity. }
  unfold runModel. unfold bind at 1. unfold getInstanceData at 1. cbv beta iota.
  rewrite Hk. fold (reuse_tested time (torch (priv w))).
  destruct (reuse_tested time (torch (priv w))); reflexivity.
Qed.

(** The outcome of the inference step, by the outcome of the forward
    pass. *)
Lemma runModel_outcome (time : OfxTime) (inputTensor : Tensor) (w : World) :
  let t := torch (priv w) in
  let inputs :=
    if reuse_tested time t
    then [inputTensor; rn_0 t; rn_1 t; rn_2 t; rn_3 t]
    else [inputTensor] in
  let kwargs := kwargs_of (priv w) in
  let f := forward (model t) inputs kwargs (heap w) in
  let r := runModel time inputTensor w in
  log r.2 = log w ++ [EvForward inputs kwargs]
  /\ heap r.2 = f.2 /\ params r.2 = params w
  /\ match f.1 with
     | Ok (o0 :: o1 :: o2 :: o3 :: o4 :: o5 :: _) =>
         r.1 = Ok (o0, o1)
         /\ rn_time (torch (priv r.2)) = time
         /\ rn_0 (torch (priv r.2)) = o2 /\ rn_1 (torch (priv r.2)) = o3
         /\ rn_2 (torch (priv r.2)) = o4 /\ rn_3 (torch (priv r.2)) = o5
     | Ok _ => r.1 = Throw StdException
     | Throw e => r.1 = Throw e /\ priv r.2 = priv w
     | Fault => r.1 = Fault /\ priv r.2 = priv w
     end.
Proof.
  intros t inputs kwargs f r.
  assert (Hr : r = _) by apply runModel_forward. cbv zeta in Hr. fold t inputs kwargs in Hr.
  rewrite Hr. clear Hr.
  unfold bind at 1. unfold model_forward, bind, getInstanceData, emit, liftH.
  cbn [fst snd heap priv]. fold t. subst f.
  destruct (forward (model t) inputs kwargs (heap w))
    as [[outputs | e |] hp'] eqn:Ef; cbn [fst snd log set_heap heap params].
  - destruct outputs as [| o0 [| o1 [| o2 [| o3 [| o4 [| o5 rest]]]]]]; cbn; repeat split.
  - repeat split.
  - repeat split.
Qed.

(** C1 as stated fails where the history is partial.  After a render
    with a custom model that returns four tensors, the first two of the
    four slots are defined and the last-used time is 1; at time 2 the
    forward pass is given the four slots, two of them undefined, though
    no hidden state is present. *)
Lemma continuity_not_by_presence :
  ~ (forall host w time inputTensor,
       reachable host (fun _ => True) w ->
       let t := torch (priv w) in
       let inputs :=
         if reuse_allowed time t
         then [inputTensor; rn_0 t; rn_1 t; rn_2 t; rn_3 t]
         else [inputTensor] in
       log (runModel time inputTensor w).2
       = log w ++ [EvForward inputs (kwargs_of (priv w))]).
Proof.
  intros H.
  pose (w0 := {| heap := Example.buffers; priv := InstanceData_new;
                 params := Example.param_set COLOR_SRC_MODEL 0; log := []; path := "" |}).
  set (w := (ofxMain (Example.host_of Example.short_model) Example.no_image
               (ActionRender (IEEE.d_of_Z 1)) (effectCreateInstance w0).2).2).
  assert (Hr : reachable (Example.host_of Example.short_model) (fun _ => True) w)
    by (apply reach_action; [apply reach_create | exact I]).
  assert (Ht : reuse_tested (IEEE.d_of_Z 2) (torch (priv w)) = true)
    by (vm_compute; reflexivity).
  assert (Ha : reuse_allowed (IEEE.d_of_Z 2) (torch (priv w)) = false)
    by (vm_compute; reflexivity).
  specialize (H _ w (IEEE.d_of_Z 2) None Hr). clearbody w. cbv zeta in H.
  rewrite (proj1 (runModel_outcome _ _ _)), Ht, Ha in H.
  apply app_inv_head in H. discriminate H.
Qed.

(** C1: at requested time [time] the forward pass is invoked once, on
    the input tensor followed by the four hidden-state slots when the
    first of them is defined and [time] is the last-used time or the
    last-used time plus one, and on the input tensor alone otherwise.
    Where the history is whole or empty, the first slot is defined
    exactly when hidden state is present, and the test is the rule of
    the specification.  When the pass returns at least six tensors,
    those at positions 2 to 5 are the new hidden state, [time] is the
    new last-used time, and those at positions 0 and 1 are handed on as
    foreground and alpha. *)
Theorem runModel_continuity (time : OfxTime) (inputTensor : Tensor) (w : World) :
  let t := torch (priv w) in
  let inputs :=
    if defined (rn_0 t)
       && (IEEE.d_eqb time (IEEE.d_add (rn_time t) (IEEE.d_of_Z 1))
           || IEEE.d_eqb time (rn_time t))
    then [inputTensor; rn_0 t; rn_1 t; rn_2 t; rn_3 t]
    else [inputTensor] in
  let kwargs := kwargs_of (priv w) in
  let r := runModel time inputTensor w in
  (hist_inv t ->
   defined (rn_0 t)
   && (IEEE.d_eqb time (IEEE.d_add (rn_time t) (IEEE.d_of_Z 1))
       || IEEE.d_eqb time (rn_time t))
   = reuse_allowed time t)
  /\ log r.2 = log w ++ [EvForward inputs kwargs]
  /\ forall o0 o1 o2 o3 o4 o5 rest hp,
       forward (model t) inputs kwargs (heap w) = (Ok (o0 :: o1 :: o2 :: o3 :: o4 :: o5 :: rest), hp) ->
       r.1 = Ok (o0, o1)
       /\ heap r.2 = hp
       /\ rn_time (torch (priv r.2)) = time
       /\ rn_0 (torch (priv r.2)) = o2 /\ rn_1 (torch (priv r.2)) = o3
       /\ rn_2 (torch (priv r.2)) = o4 /\ rn_3 (torch (priv r.2)) = o5.
Proof.
  cbv zeta. split.
  { intros Hinv. unfold reuse_allowed. rewrite (hist_inv_defined _ Hinv). f_equal.
    apply orb_comm. }
  pose proof (runModel_outcome time inputTensor w) as Ho. cbv zeta in Ho.
  unfold reuse_tested in Ho. destruct Ho as (Hl & Hh & _ & Ho).
  split; [exact Hl |].
  intros o0 o1 o2 o3 o4 o5 rest hp Ef. rewrite Ef in Hh, Ho. cbn [fst snd] in Hh, Ho.
  destruct Ho as (H1 & H2 & H3 & H4 & H5 & H6). auto 10.
Qed.

(** After frame 1 the history is whole: at time 2 the four tensors are
    passed on, at time 5 the input goes alone. *)
Lemma runModel_continuity_witness :
  let w := Example.rendered in
  let t := torch (priv w) in
  let r2 := runModel (IEEE.d_of_Z 2) None w in
  let r5 := runModel (IEEE.d_of_Z 5) None w in
  hist_inv t
  /\ log r2.2 = log w ++ [EvForward [None; rn_0 t; rn_1 t; rn_2 t; rn_3 t] ∅]
  /\ log r5.2 = log w ++ [EvForward [None] ∅].
Proof.
  assert (H : hist_inv (torch (priv Example.rendered))).
  { left. split; vm_compute; reflexivity. }
  split; [exact H |]. split.
  - exact (proj1 (proj2 (runModel_continuity (IEEE.d_of_Z 2) None Example.rendered))).
  - exact (proj1 (proj2 (runModel_continuity (IEEE.d_of_Z 5) None Example.rendered))).
Defined.


(** ** The whole-or-empty invariant, under its assumptions (C6) *)

Lemma post_bind_inv {S A B} (I : S -> Prop) (m : M S A) (k : A -> M S B) s :
  post m s (fun _ s' => I s') ->
  (forall a s', I s' -> post (k a) s' (fun _ s'' => I s'')) ->
  post (bind m k) s (fun _ s'' => I s'').
Proof.
  intros Hm Hk. apply post_bind. eapply post_mono; [exact Hm |].
  intros [a | e |] s' H; cbn; auto.
Qed.

Lemma post_try_catch_inv {S A} (I : S -> Prop) (body : M S A) (catches : exn -> bool)
    handler s :
  post body s (fun _ s' => I s') ->
  (forall s', I s' -> post handler s' (fun _ s'' => I s'')) ->
  post (try_catch body catches handler) s (fun _ s'' => I s'').
Proof.
  intros Hb Hh. apply post_try_catch. eapply post_mono; [exact Hb |].
  intros [a | e |] s' H; cbn; auto. destruct (catches e); auto.
Qed.

Lemma post_liftW {A} (m : M World A) (wf : World * RenderFrame)
    (Q : Res A -> World * RenderFrame -> Prop) :
  post m wf.1 (fun r w' => Q r (w', wf.2)) -> post (liftW m) wf Q.
Proof. unfold post, liftW. destruct (m wf.1). auto. Qed.

Lemma keeps_priv_liftH {A} (m : M Heap A) : keeps_priv (liftH m).
Proof. intros w. apply post_liftH. reflexivity. Qed.

Lemma keeps_priv_emit (e : Event) : keeps_priv (emit e).
Proof. intros w. reflexivity. Qed.

Lemma keeps_priv_ret {A} (a : A) : keeps_priv (ret a).
Proof. intros w. reflexivity. Qed.

Lemma keeps_priv_throw {A} (e : exn) : keeps_priv (@throw World A e).
Proof. intros w. reflexivity. Qed.

Lemma keeps_priv_liftR {A} (r : Res A) : keeps_priv (liftR r).
Proof. intros w. reflexivity. Qed.

Lemma keeps_priv_bind {A B} (m : M World A) (k : A -> M World B) :
  keeps_priv m -> (forall a, keeps_priv (k a)) -> keeps_priv (bind m k).
Proof.
  intros Hm Hk w. apply post_bind. eapply post_mono; [apply Hm |].
  intros [a | e |] w' H; cbn; auto.
  eapply post_mono; [apply Hk |]. cbn. intros _ w'' H'. congruence.
Qed.

Lemma keeps_priv_get {B} (k : InstanceData -> M World B) :
  (forall p, keeps_priv (k p)) -> keeps_priv (bind getInstanceData k).
Proof. intros Hk w. apply post_bind. apply Hk. Qed.

Lemma fillImageInfos_keeps_priv host img clip time :
  keeps_priv (fillImageInfos host img clip time).
Proof.
  unfold fillImageInfos. destruct (clipGetImage host clip time (h img)) as [rv handle].
  destruct (negb _); [apply keeps_priv_ret |].
  destruct handle; [| apply keeps_priv_ret].
  apply keeps_priv_bind; [apply keeps_priv_emit | intros; apply keeps_priv_ret].
Qed.

Lemma inputToTensor_keeps_priv img : keeps_priv (inputToTensor img).
Proof.
  unfold inputToTensor. apply keeps_priv_get; intros p.
  apply keeps_priv_bind; [apply keeps_priv_liftH | intros t].
  destruct (negb _); [apply keeps_priv_throw |].
  destruct (_ =? 3); [apply keeps_priv_ret |].
  destruct (_ =? 4); [apply keeps_priv_liftR | apply keeps_priv_throw].
Qed.

Lemma composite_keeps_priv img inputTensor fgr pha :
  keeps_priv (composite img inputTensor fgr pha).
Proof.
  unfold composite. apply keeps_priv_get; intros p.
  destruct (outputType p =? OUTPUT_RGBA).
  { apply keeps_priv_bind; [| intros; apply keeps_priv_liftH].
    destruct (postmultiplyAlpha p); [| apply keeps_priv_ret].
    apply keeps_priv_bind; [apply keeps_priv_liftH | intros; apply keeps_priv_liftH]. }
  destruct (outputType p =? OUTPUT_ALPHA); [| apply keeps_priv_throw].
  repeat (destruct (strcmp _ _ =? 0);
          [first [apply keeps_priv_liftH | apply keeps_priv_ret] |]).
  apply keeps_priv_throw.
Qed.

Lemma session_inv_priv (w w' : World) :
  priv w' = priv w -> session_inv w -> session_inv w'.
Proof. unfold session_inv. intros ->. auto. Qed.

(** The clear operation: it ends in the empty state when started in a
    whole or empty one, and changes nothing when the time is NaN. *)
Lemma modelClearHistory_empty (w : World) :
  hist_inv (torch (priv w)) ->
  hist_empty (torch (priv (modelClearHistory w).2))
  /\ (modelClearHistory w).1 = Ok tt
  /\ ready (torch (priv (modelClearHistory w).2)) = ready (torch (priv w))
  /\ model (torch (priv (modelClearHistory w).2)) = model (torch (priv w)).
Proof.
  intros Hinv. unfold modelClearHistory, bind, getInstanceData. cbn.
  destruct (IEEE.is_nan (rn_time (torch (priv w)))) eqn:En; cbn.
  - destruct Hinv as [[_ Hn] | He]; [congruence |]. repeat split; apply He.
  - repeat split.
Qed.

Lemma modelClearHistory_noop (w : World) :
  IEEE.is_nan (rn_time (torch (priv w))) = true -> modelClearHistory w = (Ok tt, w).
Proof.
  intros En. unfold modelClearHistory, bind, getInstanceData. cbn. rewrite En. reflexivity.
Qed.

Lemma modelClearHistory_inv (w : World) :
  session_inv w -> post modelClearHistory w (fun _ w' => session_inv w').
Proof.
  intros [Hh Hm]. unfold post.
  destruct (modelClearHistory_empty w Hh) as (He & _ & Hr & Hmo).
  split; [right; exact He |]. rewrite Hr, Hmo. exact Hm.
Qed.

Lemma set_path_same (w : World) : set_path (path w) w = w.
Proof. destruct w. reflexivity. Qed.

(** [getModelFilename] returns, and changes the static buffer only. *)
Lemma getModelFilename_path (host : Host) (w : World) :
  exists x s, getModelFilename host w = (Ok x, set_path s w).
Proof.
  unfold getModelFilename, bind, getInstanceData, get_params, snprintf_path, return_path.
  cbn [fst snd].
  repeat match goal with
         | |- context [if ?b then _ else _] => destruct b
         end; try (eexists _, _; reflexivity).
  - destruct (paramGetString _ _) as [[| ? ?] |].
    + exists None, (path w). rewrite set_path_same. reflexivity.
    + eexists _, _. reflexivity.
    + exists None, (path w). rewrite set_path_same. reflexivity.
  - exists (Some (path w)), (path w). rewrite set_path_same. reflexivity.
Qed.

Lemma not_ready_session_inv (w : World) : not_ready_inv w -> session_inv w.
Proof. intros [Hh Hr]. split; [exact Hh | congruence]. Qed.

Ltac close_not_ready :=
  lazymatch goal with
  | H : not_ready_inv _ |- _ =>
      first [ exact H
            | split; [apply not_ready_session_inv; exact H | discriminate]
            | split; [apply not_ready_session_inv; exact H | intros [=]] ]
  end.

Lemma not_ready_inv_torch (w : World) (t : _torch) :
  not_ready_inv w ->
  rn_time t = rn_time (torch (priv w)) -> rn_0 t = rn_0 (torch (priv w)) ->
  rn_1 t = rn_1 (torch (priv w)) -> rn_2 t = rn_2 (torch (priv w)) ->
  rn_3 t = rn_3 (torch (priv w)) -> ready t = ready (torch (priv w)) ->
  not_ready_inv (set_priv (set_torch t (priv w)) w).
Proof.
  unfold not_ready_inv, hist_inv, hist_whole, hist_empty, has_hidden. cbn.
  intros H -> -> -> -> -> ->. exact H.
Qed.

Lemma modelSetup_inv (host : Host) (w : World) :
  loader_ok host -> session_inv w ->
  post (modelSetup host) w
       (fun r w' => session_inv w' /\ (r = Ok kOfxStatOK -> ready (torch (priv w')) = true)).
Proof.
  intros Hl Hs. unfold modelSetup.
  do 3 run_step; [run_step; auto |].
  assert (HN : not_ready_inv w) by (split; [apply Hs | assumption]).
  do 2 run_step.
  eapply (post_bind_mid (fun _ s' => not_ready_inv s')).
  { repeat run_step; try exact HN; apply not_ready_inv_torch; auto. }
  clear HN. intros _ w1 HN.
  eapply (post_bind_mid (fun _ s' => not_ready_inv s')).
  { repeat run_step; try exact HN; apply not_ready_inv_torch; auto. }
  clear HN. intros _ w2 HN.
  eapply (post_bind_mid (fun _ s' => not_ready_inv s')).
  { destruct (getModelFilename_path host w2) as (x & s & E). unfold post. rewrite E. exact HN. }
  clear HN. intros model_file w3 HN.
  run_step; [| run_step; close_not_ready].
  eapply (post_bind_mid (fun loaded s' =>
            not_ready_inv s'
            /\ (loaded = true -> model_ok (model (torch (priv s')))))).
  { repeat run_step.
    all: try match goal with
             | |- if is_std_exception ?e then _ else _ =>
                 destruct e; cbn [is_std_exception]
             end.
    all: try run_step.
    all: destruct HN as [Hh Hr].
    all: (split; [first [split; [exact Hh | exact Hr]
                        | apply not_ready_session_inv; split; [exact Hh | exact Hr]] |]).
    all: try discriminate.
    intros _. cbn.
    destruct (Hl _ _ Heqr) as [_ Hto]. eapply Hto. eassumption. }
  clear HN. intros loaded w4 [HN Hm].
  run_step.
  { run_step. close_not_ready. }
  destruct loaded; [| discriminate]. specialize (Hm eq_refl).
  eapply (post_bind_mid (fun _ s' => session_inv s' /\ model_ok (model (torch (priv s'))))).
  { unfold post. destruct HN as [Hh Hr].
    destruct (modelClearHistory_empty w4 Hh) as (He & -> & Hr' & Hmo).
    split; [split; [right; exact He | rewrite Hmo; auto] | rewrite Hmo; exact Hm]. }
  intros _ w5 [[Hh5 _] Hm5].
  do 3 run_step. split; [split; [exact Hh5 | intros _; exact Hm5] | reflexivity].
Qed.

Lemma ready_inv_priv (w w' : World) : priv w' = priv w -> ready_inv w -> ready_inv w'.
Proof. unfold ready_inv, session_inv. intros ->. auto. Qed.

Lemma keeps_priv_ready_inv {A} (m : M World A) (w : World) :
  keeps_priv m -> ready_inv w -> post m w (fun _ w' => ready_inv w').
Proof.
  intros Hk Hw. eapply post_mono; [apply Hk |]. cbn. intros _ w' E.
  eapply ready_inv_priv; eassumption.
Qed.

Lemma model_forward_inv (inputs : list Tensor) (kwargs : Kwargs) (w : World) :
  ready_inv w ->
  post (model_forward inputs kwargs) w
       (fun r w' => ready_inv w'
                    /\ match r with
                       | Ok outputs =>
                           exists o0 o1 t2 t3 t4 t5 rest,
                             outputs = o0 :: o1 :: Some t2 :: Some t3 :: Some t4 :: Some t5 :: rest
                       | _ => True
                       end).
Proof.
  intros HJ. unfold model_forward. do 4 run_step.
  unfold post, liftH. cbn [heap priv].
  destruct (forward (model (torch (priv w))) inputs kwargs (heap w))
    as [[outputs | e |] hp] eqn:Ef; cbn [fst snd]; (split; [exact HJ |]); try exact I.
  destruct HJ as [[_ Hm] Hr]. destruct (Hm Hr _ _ _ _ _ Ef) as [Hlen Hdef].
  destruct outputs as [| o0 [| o1 [| o2 [| o3 [| o4 [| o5 rest]]]]]];
    cbn in Hlen; try lia.
  destruct (Hdef 2%nat ltac:(lia)) as [t2 [= ->]].
  destruct (Hdef 3%nat ltac:(lia)) as [t3 [= ->]].
  destruct (Hdef 4%nat ltac:(lia)) as [t4 [= ->]].
  destruct (Hdef 5%nat ltac:(lia)) as [t5 [= ->]].
  repeat eexists.
Qed.

Lemma runModel_inv (time : OfxTime) (inputTensor : Tensor) (w : World) :
  ready_inv w -> IEEE.is_nan time = false ->
  post (runModel time inputTensor) w (fun _ w' => ready_inv w').
Proof.
  intros HJ Ht. unfold runModel. do 2 run_step.
  eapply (post_bind_mid (fun outputs s' =>
            ready_inv s'
            /\ exists o0 o1 t2 t3 t4 t5 rest,
                 outputs = o0 :: o1 :: Some t2 :: Some t3 :: Some t4 :: Some t5 :: rest)).
  { destruct (_ && _);
      (eapply post_mono; [apply model_forward_inv; exact HJ |]);
      intros [outputs | e |] s' [H1 H2]; auto. }
  clear HJ. intros outputs w1 [HJ (o0 & o1 & t2 & t3 & t4 & t5 & rest & ->)].
  unfold outputs_get. cbn [lookup list_lookup].
  repeat run_step.
  destruct HJ as [[_ Hm] Hr].
  split; [split |]; [| exact Hm | exact Hr].
  left. split; [reflexivity | exact Ht].
Qed.

Lemma liftW_inv {A} (m : M World A) (I : World -> Prop) (wf : World * RenderFrame) :
  post m wf.1 (fun _ w' => I w') -> post (liftW m) wf (fun _ wf' => I wf'.1).
Proof. intros H. apply post_liftW. exact H. Qed.

Lemma keeps_priv_getInstanceData : keeps_priv getInstanceData.
Proof. intros w. reflexivity. Qed.

Lemma keeps_priv_modify_params f : keeps_priv (modify_params f).
Proof. intros w. reflexivity. Qed.

Lemma keeps_priv_get_params {B} (k : ParamSet -> M World B) :
  (forall ps, keeps_priv (k ps)) -> keeps_priv (bind get_params k).
Proof. intros Hk w. apply post_bind. apply Hk. Qed.

Lemma updateParamsValidity_keeps_priv : keeps_priv updateParamsValidity.
Proof.
  unfold updateParamsValidity, setParamEnabledness.
  apply keeps_priv_get; intros p. apply keeps_priv_get_params; intros ps.
  apply keeps_priv_bind.
  { destruct (_ =? DEVICE_CPU).
    - apply keeps_priv_bind; [apply keeps_priv_modify_params |].
      intros; apply keeps_priv_modify_params.
    - destruct (_ =? DEVICE_CUDA);
        [apply keeps_priv_modify_params | apply keeps_priv_ret]. }
  intros _. apply keeps_priv_get_params; intros ps1.
  apply keeps_priv_bind; [apply keeps_priv_modify_params | intros _].
  apply keeps_priv_get_params; intros ps2.
  apply keeps_priv_bind; [apply keeps_priv_modify_params | intros _].
  apply keeps_priv_modify_params.
Qed.

(** The render proper, from a ready session. *)
Lemma render_try_inv (host : Host) (time : OfxTime) (wf : World * RenderFrame) :
  ready_inv wf.1 -> IEEE.is_nan time = false ->
  post (render_try host time) wf (fun _ wf' => ready_inv wf'.1).
Proof.
  intros HJ Ht. unfold render_try.
  repeat
    (lazymatch goal with
     | |- post (bind _ _) _ _ =>
         apply (post_bind_inv (fun wf' : World * RenderFrame => ready_inv wf'.1));
         [| clear HJ; intros ? ? HJ]
     | |- post (if ?b then _ else _) _ _ => destruct b
     | |- post (liftW (runModel _ _)) _ _ =>
         apply (liftW_inv _ ready_inv); apply runModel_inv; assumption
     | |- post (liftW _) _ _ =>
         apply (liftW_inv _ ready_inv); apply keeps_priv_ready_inv;
         [first [ apply keeps_priv_getInstanceData
                | apply fillImageInfos_keeps_priv
                | apply inputToTensor_keeps_priv
                | apply composite_keeps_priv
                | apply keeps_priv_liftH ]
         | assumption]
     | |- post _ _ _ => exact HJ
     end).
Qed.

Lemma render_images_inv (host : Host) (time : OfxTime) (wf : World * RenderFrame) :
  ready_inv wf.1 -> IEEE.is_nan time = false ->
  post (render_images host time) wf (fun _ wf' => ready_inv wf'.1).
Proof.
  intros HJ Ht. unfold render_images, clipReleaseImage.
  apply (post_bind_inv (fun wf' : World * RenderFrame => ready_inv wf'.1)).
  { apply post_try_catch_inv.
    - apply (post_bind_inv (fun wf' : World * RenderFrame => ready_inv wf'.1));
        [apply render_try_inv; assumption | intros ? ? H; exact H].
    - intros wf' H.
      apply (post_bind_inv (fun wf' : World * RenderFrame => ready_inv wf'.1)).
      + apply (liftW_inv _ ready_inv). exact H.
      + intros ? ? H'. destruct (abort host =? 0); exact H'. }
  clear HJ. intros status wf1 HJ.
  repeat
    (lazymatch goal with
     | |- post (bind _ _) _ _ =>
         apply (post_bind_inv (fun wf' : World * RenderFrame => ready_inv wf'.1));
         [| clear HJ; intros ? ? HJ]
     | |- post (match ?o with Some _ => _ | None => _ end) _ _ => destruct o
     | |- post (liftW _) _ _ => apply (liftW_inv _ ready_inv); exact HJ
     | |- post _ _ _ => exact HJ
     end).
Qed.

Lemma effectRender_inv (host : Host) (indeterminate : ImageInfo) (time : OfxTime)
    (w : World) :
  loader_ok host -> session_inv w -> IEEE.is_nan time = false ->
  post (effectRender host indeterminate time) w (fun _ w' => session_inv w').
Proof.
  intros Hl Hs Ht. unfold effectRender.
  eapply (post_bind_mid (fun status s' =>
            session_inv s' /\ (status = kOfxStatOK -> ready (torch (priv s')) = true))).
  { eapply post_mono; [apply modelSetup_inv; assumption |].
    intros [status | e |] s' [H1 H2]; auto. split; [exact H1 |].
    intros ->. auto. }
  intros status w1 [Hs1 Hr1].
  destruct (bool_decide (status = kOfxStatOK)) eqn:Eb; cbn [negb].
  - apply bool_decide_eq_true in Eb.
    pose proof (render_images_inv host time
                  (w1, {| outputImg := indeterminate; inputImg := indeterminate |})
                  (conj Hs1 (Hr1 Eb)) Ht) as H.
    unfold post in *. destruct (render_images _ _ _) as [r wf]. apply H.
  - exact Hs1.
Qed.

Lemma session_inv_torch (w : World) (p : InstanceData) :
  session_inv w -> torch p = torch (priv w) -> session_inv (set_priv p w).
Proof. unfold session_inv. cbn. intros H ->. exact H. Qed.

Lemma effectInstanceChanged_inv (host : Host) (reason type name : string) (w : World) :
  session_inv w ->
  post (effectInstanceChanged host reason type name) w (fun _ w' => session_inv w').
Proof.
  intros Hs. unfold effectInstanceChanged.
  repeat
    (lazymatch goal with
     | |- post (bind modelClearHistory _) _ _ =>
         apply (post_bind_inv session_inv);
         [apply modelClearHistory_inv; exact Hs | intros ? ? H; exact H]
     | |- post (bind (modify_torch (set_ready false)) _) _ _ =>
         apply (post_bind_inv session_inv); [| intros ? ? H; exact H];
         destruct Hs as [Hh _]; split; [exact Hh | discriminate]
     | |- post (bind (modify_priv _) _) _ _ =>
         apply (post_bind_inv session_inv); [| intros ? ? H; exact H];
         apply session_inv_torch; [exact Hs | reflexivity]
     | |- post (if ?b then _ else _) _ _ => destruct b
     | |- post (ret _) _ _ => exact Hs
     end).
Qed.

Lemma effectEndInstanceChanged_inv (reason : string) (w : World) :
  session_inv w ->
  post (effectEndInstanceChanged reason) w (fun _ w' => session_inv w').
Proof.
  intros Hs. unfold effectEndInstanceChanged.
  apply (post_bind_inv session_inv).
  { destruct (_ =? 0); [| exact Hs].
    eapply post_mono; [apply updateParamsValidity_keeps_priv |].
    cbn. intros _ w' E. eapply session_inv_priv; eassumption. }
  clear Hs. intros _ w1 Hs.
  do 4 run_step. apply post_bind_inv; [| intros ? ? H; exact H].
  apply session_inv_torch; [exact Hs | reflexivity].
Qed.

Lemma ofxMain_state (host : Host) (indeterminate : ImageInfo) (a : Action) (w : World) :
  (ofxMain host indeterminate a w).2 = (handler host indeterminate a w).2.
Proof.
  unfold ofxMain. destruct (handler host indeterminate a w) as [[s | [] |] w']; reflexivity.
Qed.

Lemma effectCreateInstance_priv (w : World) :
  priv (effectCreateInstance w).2 = InstanceData_new.
Proof.
  unfold effectCreateInstance.
  change (post (let* _ := modify_priv (fun _ => InstanceData_new) in
                let* _ := updateParamsValidity in ret kOfxStatOK) w
               (fun _ w' => priv w' = InstanceData_new)).
  apply (post_bind_inv (fun w' => priv w' = InstanceData_new)); [reflexivity |].
  intros _ w1 E.
  apply (post_bind_inv (fun w' => priv w' = InstanceData_new)).
  - eapply post_mono; [apply updateParamsValidity_keeps_priv |]. cbn. congruence.
  - intros _ w2 E2. exact E2.
Qed.

Lemma effectCreateInstance_inv (w : World) : session_inv (effectCreateInstance w).2.
Proof.
  unfold session_inv. rewrite effectCreateInstance_priv. cbn.
  split; [right; repeat split | discriminate].
Qed.

(** The invariant of the session holds in every reachable state. *)
Lemma reachable_session_inv (host : Host) (w : World) :
  loader_ok host -> reachable host time_ok w -> session_inv w.
Proof.
  intros Hl Hr. induction Hr as [w | w ps hp Hr IH | w a ind Hr IH Ha].
  - apply effectCreateInstance_inv.
  - exact IH.
  - rewrite ofxMain_state. destruct a as [reason type name | reason | time]; cbn [handler].
    + apply effectInstanceChanged_inv, IH.
    + apply effectEndInstanceChanged_inv, IH.
    + apply effectRender_inv; assumption.
Qed.

(** C6, amended: in every state reachable by actions whose render time
    is a number, with a loader that only hands over models keeping to
    the six-output interface, the history is whole or empty; from such a
    state the clear operation ends in the empty state, and it changes
    nothing when the history is empty already. *)
Theorem hist_inv_reachable (host : Host) (w : World) :
  loader_ok host -> reachable host time_ok w ->
  hist_inv (torch (priv w))
  /\ hist_empty (torch (priv (modelClearHistory w).2))
  /\ (hist_empty (torch (priv w)) -> modelClearHistory w = (Ok tt, w)).
Proof.
  intros Hl Hr. destruct (reachable_session_inv host w Hl Hr) as [Hh _].
  split; [exact Hh |]. split.
  - apply modelClearHistory_empty, Hh.
  - intros He. apply modelClearHistory_noop, He.
Qed.

Lemma rvm_model_ok : model_ok Example.rvm.
Proof.
  intros inputs kwargs hp outputs hp'. cbn. unfold bind, Example.full, ret. cbn.
  intros [= <- _]. split; [cbn; lia |].
  intros i Hi.
  destruct i as [| [| [| [| [| [| i]]]]]]; try lia; cbn; eexists; reflexivity.
Qed.

Lemma rvm_loader_ok : loader_ok (Example.host_of Example.rvm).
Proof.
  intros file m [= <-]. split; [apply rvm_model_ok |].
  intros dev m' [= <-]. apply rvm_model_ok.
Qed.

Lemma rendered_reachable :
  reachable (Example.host_of Example.rvm) time_ok Example.rendered.
Proof.
  unfold Example.rendered, Example.run, Example.created.
  apply reach_action; [| reflexivity].
  match goal with
  | |- reachable ?host _ (effectEndInstanceChanged ?r (effectCreateInstance ?w0).2).2 =>
      pose proof (reach_action host time_ok _ (ActionEndInstanceChanged r)
                    Example.no_image (reach_create host time_ok w0) I) as H
  end.
  rewrite ofxMain_state in H. exact H.
Qed.

Lemma hist_inv_reachable_witness :
  hist_inv (torch (priv Example.rendered))
  /\ hist_empty (torch (priv (modelClearHistory Example.rendered).2)).
Proof.
  pose proof (hist_inv_reachable (Example.host_of Example.rvm) Example.rendered
                rvm_loader_ok rendered_reachable) as H.
  split; [apply H | apply H].
Defined.

(** ** Values of tensors *)

Lemma store_all_lookup_notin (s : gmap Z scalar) (avs : list (Z * scalar)) (k : Z) :
  k ∉ avs.*1 -> store_all s avs !! k = s !! k.
Proof.
  unfold store_all. revert s. induction avs as [| [a v] avs IH]; intros s Hk; [reflexivity |].
  cbn in *. apply not_elem_of_cons in Hk as [Hne Hk].
  rewrite IH by exact Hk. apply lookup_insert_ne. congruence.
Qed.

Lemma store_all_lookup_in (s : gmap Z scalar) (avs : list (Z * scalar)) (k : Z) (v : scalar) :
  NoDup avs.*1 -> (k, v) ∈ avs -> store_all s avs !! k = Some v.
Proof.
  unfold store_all. revert s. induction avs as [| [a x] avs IH]; intros s Hnd Hin.
  - inversion Hin.
  - cbn in *. apply NoDup_cons in Hnd as [Hna Hnd].
    apply elem_of_cons in Hin as [[= -> ->] | Hin].
    + fold (store_all (<[a := x]> s) avs). rewrite store_all_lookup_notin by exact Hna.
      apply lookup_insert_eq.
    + apply IH; assumption.
Qed.

Lemma read_Some (hp : Heap) (t : TensorImpl) (vs : list scalar) :
  read hp t = Some vs <->
  exists s, hp !! t_blk t = Some s
            /\ Forall2 (fun a v => load s (t_dtype t) a = Some v) (addrs t) vs.
Proof.
  unfold read. destruct (hp !! t_blk t) as [s |].
  - rewrite mapM_Some. split; [intros H; exists s; auto | intros (s' & [= <-] & H); exact H].
  - split; [discriminate | intros (s' & [=] & _)].
Qed.

Lemma load_dtype (s : gmap Z scalar) (dt : Dtype) (a : Z) (v : scalar) :
  load s dt a = Some v -> dtype_of v = dt.
Proof.
  unfold load. destruct (s !! a) as [x |]; [| discriminate].
  destruct (decide (dtype_of x = dt)); [intros [= <-]; assumption | discriminate].
Qed.

Lemma read_dtype (hp : Heap) (t : TensorImpl) (vs : list scalar) :
  read hp t = Some vs -> Forall (fun v => dtype_of v = t_dtype t) vs.
Proof.
  rewrite read_Some. intros (s & _ & H).
  induction H; constructor; eauto using load_dtype.
Qed.

Lemma read_length (hp : Heap) (t : TensorImpl) (vs : list scalar) :
  read hp t = Some vs -> length vs = length (addrs t).
Proof. rewrite read_Some. intros (s & _ & H). symmetry. eapply Forall2_length, H. Qed.

(** Allocation leaves the tensors that exist readable as before. *)
Lemma read_app (hp : Heap) (s : gmap Z scalar) (t : TensorImpl) (vs : list scalar) :
  read hp t = Some vs -> read (hp ++ [s]) t = Some vs.
Proof.
  rewrite !read_Some. intros (s' & Hb & H). exists s'. split; [| exact H].
  apply lookup_app_l_Some, Hb.
Qed.

(** What was written through a view without overlap is read back. *)
Lemma read_write_same (hp : Heap) (t : TensorImpl) (vs : list scalar) :
  is_Some (hp !! t_blk t) -> NoDup (addrs t) -> length vs = length (addrs t) ->
  Forall (fun v => dtype_of v = t_dtype t) vs ->
  read (write hp t vs) t = Some vs.
Proof.
  intros [s Hs] Hnd Hlen Hdt. apply read_Some. unfold write. rewrite Hs.
  exists (store_all s (zip (addrs t) vs)). split.
  { apply list_lookup_insert_eq. eapply lookup_lt_Some, Hs. }
  apply Forall2_same_length_lookup. split; [symmetry; exact Hlen |].
  intros i a v Ha Hv. unfold load.
  rewrite (store_all_lookup_in _ _ a v).
  - rewrite decide_True; [reflexivity |]. eapply Forall_lookup_1 in Hdt; eauto.
  - rewrite fst_zip by lia. exact Hnd.
  - apply list_elem_of_lookup. exists i. apply lookup_zip_with_Some. eauto.
Qed.

(** A view none of whose cells was written reads as before. *)
Lemma read_write_other (hp : Heap) (t t' : TensorImpl) (vs vs' : list scalar) :
  separate t t' -> length vs = length (addrs t) ->
  read hp t' = Some vs' -> read (write hp t vs) t' = Some vs'.
Proof.
  intros Hsep Hlen. rewrite !read_Some. intros (s' & Hs' & H).
  unfold write. destruct (hp !! t_blk t) as [s |] eqn:Hs; [| eauto].
  destruct (decide (t_blk t = t_blk t')) as [E | NE].
  - rewrite E in *. assert (s = s') by congruence. subst s'.
    exists (store_all s (zip (addrs t) vs)). split.
    { apply list_lookup_insert_eq. eapply lookup_lt_Some, Hs. }
    destruct Hsep as [? | Hsep]; [congruence |].
    assert (Hin : Forall (fun a => a ∉ addrs t) (addrs t')).
    { apply Forall_forall. intros a Ha Ha'. exact (Hsep a Ha' Ha). }
    revert H Hin. generalize (addrs t') as l'. intros l' H.
    induction H as [| a v l' vs'' Hav H IH]; intros Hin; [constructor |].
    apply Forall_cons in Hin as [Ha Hin]. constructor; [| apply IH, Hin].
    unfold load. rewrite store_all_lookup_notin; [exact Hav |].
    rewrite fst_zip by lia. exact Ha.
  - exists s'. split; [| exact H]. rewrite list_lookup_insert_ne by exact NE. exact Hs'.
Qed.

(** *** Row-major enumeration *)

Lemma numel_nonneg (sizes : list Z) : Forall (Z.le 0) sizes -> 0 <= numel sizes.
Proof.
  induction 1 as [| n ns Hn Hns IH]; cbn; [lia |].
  apply Z.mul_nonneg_nonneg; assumption.
Qed.

Lemma map_of_nat_seq (a k : nat) :
  map Z.of_nat (seq a k) = map (Z.add (Z.of_nat a)) (map Z.of_nat (seq 0 k)).
Proof.
  replace (seq a k) with (Nat.add a <$> seq 0 k)
    by (rewrite fmap_add_seq; f_equal; lia).
  rewrite !map_map. apply map_ext. intros i. cbn beta. lia.
Qed.

Lemma flat_map_seq_shift (n k : nat) :
  flat_map (fun i => map (Z.add (Z.of_nat i * Z.of_nat k)) (map Z.of_nat (seq 0 k))) (seq 0 n)
  = map Z.of_nat (seq 0 (n * k)).
Proof.
  induction n as [| n IH]; [reflexivity |].
  rewrite seq_S, flat_map_app, IH. cbn [flat_map]. rewrite app_nil_r.
  replace (S n * k)%nat with (n * k + k)%nat by lia.
  rewrite seq_app, map_app. f_equal.
  rewrite (map_of_nat_seq (0 + n * k) k). cbn [Nat.add].
  rewrite Nat2Z.inj_mul. reflexivity.
Qed.

Lemma offsets_contiguous (sizes : list Z) :
  Forall (Z.le 0) sizes ->
  offsets sizes (cstrides sizes) = map Z.of_nat (seq 0 (Z.to_nat (numel sizes))).
Proof.
  induction 1 as [| n ns Hn Hns IH]; [reflexivity |].
  cbn [offsets cstrides numel foldr]. fold (numel ns). rewrite IH.
  pose proof (numel_nonneg ns Hns) as Hk.
  rewrite Z2Nat.inj_mul by lia.
  rewrite <- flat_map_seq_shift. apply flat_map_ext. intros i.
  rewrite Z2Nat.id by lia. reflexivity.
Qed.

(** A freshly allocated tensor reads as the elements it was given. *)
Lemma read_fresh (hp : Heap) (sizes : list Z) (dt : Dtype) (dev : Device)
    (vs : list scalar) :
  Forall (Z.le 0) sizes -> length vs = Z.to_nat (numel sizes) ->
  Forall (fun v => dtype_of v = dt) vs ->
  read (fresh hp sizes dt dev vs).2 (fresh hp sizes dt dev vs).1 = Some vs.
Proof.
  intros Hs Hlen Hdt. apply read_Some. cbn [fresh fst snd t_blk t_dtype].
  eexists. split; [rewrite lookup_app_r by lia; rewrite Nat.sub_diag; reflexivity |].
  unfold addrs. cbn [t_off t_sizes t_strides t_dtype].
  rewrite offsets_contiguous by exact Hs. rewrite <- Hlen.
  set (keys := map (fun i : nat => itemsize dt * Z.of_nat i) (seq 0 (length vs))).
  assert (Hk : map (fun o => 0 + itemsize dt * o) (map Z.of_nat (seq 0 (length vs))) = keys).
  { unfold keys. rewrite map_map. apply map_ext. intros i. lia. }
  rewrite Hk.
  assert (Hnd : NoDup keys).
  { unfold keys. apply NoDup_fmap_2; [| apply NoDup_seq].
    intros i j E. destruct dt; cbn in E; lia. }
  assert (Hkl : length keys = length vs) by (unfold keys; rewrite length_map, length_seq; reflexivity).
  apply Forall2_same_length_lookup. split; [exact Hkl |].
  intros i a v Ha Hv. unfold load.
  rewrite (store_all_lookup_in _ _ a v).
  - rewrite decide_True; [reflexivity |]. eapply Forall_lookup_1 in Hdt; eauto.
  - rewrite fst_zip by lia. exact Hnd.
  - apply list_elem_of_lookup. exists i. apply lookup_zip_with_Some. eauto.
Qed.

(** *** Tiling and concatenation of single-batch arrays *)

Lemma chunks_one {A} (k : nat) (l : list A) :
  length l = k -> chunks 1 k l = [l].
Proof. intros <-. cbn. rewrite firstn_all. reflexivity. Qed.

Lemma chunks_length {A} (n k : nat) (l : list A) :
  length l = (n * k)%nat -> Forall (fun c => length c = k) (chunks n k l).
Proof.
  revert l. induction n as [| n IH]; intros l Hl; cbn; constructor.
  - rewrite length_take. lia.
  - apply IH. rewrite length_drop. lia.
Qed.

Lemma mjoin_chunks {A} (n k : nat) (l : list A) :
  length l = (n * k)%nat -> mjoin (chunks n k l) = l.
Proof.
  revert l. induction n as [| n IH]; intros l Hl; cbn.
  - destruct l; [reflexivity | discriminate].
  - rewrite IH by (rewrite length_drop; lia). apply take_drop.
Qed.

Lemma flat_map_id_on {A} (f : list A -> list A) (ls : list (list A)) :
  Forall (fun c => f c = c) ls -> flat_map f ls = mjoin ls.
Proof. induction 1 as [| c ls Hc _ IH]; cbn; [reflexivity |]. rewrite Hc, IH. reflexivity. Qed.

Lemma mjoin_singleton {A} (l : list A) : mjoin [l] = l.
Proof. cbn. apply app_nil_r. Qed.

Lemma flat_map_singleton {A B} (f : A -> list B) (x : A) : flat_map f [x] = f x.
Proof. cbn. apply app_nil_r. Qed.

(** Tiling once in every dimension changes nothing. *)
Lemma rep_nd_ones {A} (sizes : list Z) (l : list A) :
  Forall (Z.le 0) sizes -> length l = Z.to_nat (numel sizes) ->
  rep_nd sizes (replicate (length sizes) 1) l = l.
Proof.
  intros Hs. revert l. induction Hs as [| n ns Hn Hns IH]; intros l Hl; [reflexivity |].
  cbn [length replicate rep_nd]. cbn [numel foldr] in Hl. fold (numel ns) in Hl.
  pose proof (numel_nonneg ns Hns) as Hk.
  rewrite Z2Nat.inj_mul in Hl by lia.
  change (Z.to_nat 1) with 1%nat. cbn [replicate]. rewrite mjoin_singleton.
  rewrite flat_map_id_on; [apply mjoin_chunks, Hl |].
  eapply Forall_impl; [apply chunks_length, Hl |].
  intros c Hc. apply IH. exact Hc.
Qed.

(** Tiling the channel dimension of a single-batch, single-channel
    array. *)
Lemma rep_nd_channels {A} (n H W : Z) (l : list A) :
  0 <= H -> 0 <= W ->
  length l = Z.to_nat (numel [1; 1; H; W]) ->
  rep_nd [1; 1; H; W] [1; n; 1; 1] l = mjoin (replicate (Z.to_nat n) l).
Proof.
  intros HH HW Hl.
  assert (Hl' : length l = Z.to_nat (numel [H; W])).
  { rewrite Hl. f_equal. cbn. lia. }
  cbn [rep_nd]. change (Z.to_nat 1) with 1%nat.
  rewrite (chunks_one _ l) by (rewrite Hl; f_equal; cbn; lia).
  cbn [replicate]. rewrite mjoin_singleton, flat_map_singleton.
  rewrite (chunks_one _ l) by (rewrite Hl; f_equal; cbn; lia).
  rewrite flat_map_singleton. f_equal. f_equal.
  apply (rep_nd_ones [H; W]); [repeat constructor; assumption | exact Hl'].
Qed.

(** Concatenation of two single-batch arrays along the channels. *)
Lemma cat_nd_channels {A} (ca cb H W : Z) (la lb : list A) :
  length la = Z.to_nat (numel [ca; H; W]) -> length lb = Z.to_nat (numel [cb; H; W]) ->
  cat_nd 1 [1; ca; H; W] [1; cb; H; W] la lb = la ++ lb.
Proof.
  intros Ha Hb. cbn [cat_nd]. change (Z.to_nat 1) with 1%nat.
  rewrite (chunks_one _ la) by exact Ha. rewrite (chunks_one _ lb) by exact Hb.
  cbn [zip_with]. apply mjoin_singleton.
Qed.

(** ** The output compositor (C8) *)

Lemma dtype_of_cast (dt : Dtype) (v : scalar) : dtype_of (cast dt v) = dt.
Proof. unfold cast. destruct (decide _); [assumption |]. destruct dt; reflexivity. Qed.

Lemma cast_same (dt : Dtype) (v : scalar) : dtype_of v = dt -> cast dt v = v.
Proof. intros H. unfold cast. rewrite decide_True by exact H. reflexivity. Qed.

Lemma dtype_of_mul_at (dt : Dtype) (a b : scalar) : dtype_of (mul_at dt a b) = dt.
Proof. destruct dt; reflexivity. Qed.

Lemma promote_same (dt : Dtype) : promote dt dt = dt.
Proof. destruct dt; reflexivity. Qed.

Lemma map_cast_same (dt : Dtype) (vs : list scalar) :
  Forall (fun v => dtype_of v = dt) vs -> map (cast dt) vs = vs.
Proof.
  induction 1 as [| v vs Hv _ IH]; cbn; [reflexivity |]. rewrite cast_same, IH; auto.
Qed.

Lemma holds_app (hp : Heap) (s : gmap Z scalar) t sizes dt dev vs :
  holds hp t sizes dt dev vs -> holds (hp ++ [s]) t sizes dt dev vs.
Proof.
  intros (ti & -> & Hs & Hd & Hv & Hr & Hl). exists ti. repeat split; auto using read_app.
Qed.

(** [repeat] along the channels. *)
Lemma repeat_channels (hp : Heap) (pha : Tensor) (A : list scalar) (n H W : Z)
    (dt : Dtype) (dev : Device) :
  0 <= n -> 0 <= H -> 0 <= W ->
  holds hp pha [1; 1; H; W] dt dev A ->
  exists r s,
    repeat pha [1; n; 1; 1] hp = (Ok (Some r), hp ++ [s])
    /\ t_blk r = length hp
    /\ holds (hp ++ [s]) (Some r) [1; n; H; W] dt dev (mjoin (replicate (Z.to_nat n) A)).
Proof.
  intros Hn HH HW (ti & -> & Hs & Hd & Hv & Hr & Hl).
  unfold repeat. rewrite Hs. cbn [length Nat.ltb Nat.leb orb].
  replace (forallb (Z.leb 0) [1; n; 1; 1]) with true
    by (cbn; destruct (Z.leb_spec 0 n); [reflexivity | lia]).
  cbn [negb]. rewrite Hr. unfold pad_sizes. cbn [length Nat.sub replicate app].
  rewrite Hd, Hv. rewrite (rep_nd_channels n H W A HH HW Hl).
  cbn [zip_with]. rewrite !Z.mul_1_r, Z.mul_1_l.
  set (vs := mjoin (replicate (Z.to_nat n) A)).
  assert (Hlv : length vs = Z.to_nat (numel [1; n; H; W])).
  { unfold vs. rewrite length_join. rewrite fmap_replicate, sum_list_replicate.
    rewrite Hl. cbn. rewrite !Z.mul_1_r, !Z.mul_1_l.
    rewrite <- Z2Nat.inj_mul by nia. f_equal. }
  assert (Hdv : Forall (fun v => dtype_of v = dt) vs).
  { unfold vs. apply Forall_join, Forall_replicate.
    apply read_dtype in Hr. rewrite Hd in Hr. exact Hr. }
  pose proof (read_fresh hp [1; n; H; W] dt dev vs
                ltac:(repeat constructor; lia) Hlv Hdv) as Hf.
  destruct (fresh hp [1; n; H; W] dt dev vs) as [r hp'] eqn:Ef.
  unfold fresh in Ef. injection Ef as <- <-.
  eexists _, _. split; [reflexivity |]. split; [reflexivity |].
  eexists. repeat split; [exact Hf | exact Hlv].
Qed.

(** [a *= b] on two arrays of the same shape. *)
Lemma mul_holds (hp : Heap) (fg b : Tensor) (F B : list scalar) (c H W : Z)
    (dt : Dtype) (dev : Device) :
  0 <= c -> 0 <= H -> 0 <= W ->
  holds hp fg [1; c; H; W] dt dev F -> holds hp b [1; c; H; W] dt dev B ->
  writable fg ->
  exists hp',
    mul_ fg b hp = (Ok tt, hp')
    /\ holds hp' fg [1; c; H; W] dt dev (zip_with (mul_at dt) F B)
    /\ forall t' sizes' dt' dev' vs',
         apart fg t' -> holds hp t' sizes' dt' dev' vs' -> holds hp' t' sizes' dt' dev' vs'.
Proof.
  intros Hc HH HW (ta & -> & Hsa & Hda & Hva & Hra & Hla)
         (tb & -> & Hsb & Hdb & Hvb & Hrb & Hlb) Hw.
  cbn in Hw. unfold mul_. rewrite Hsa, Hsb, Hda, Hdb, Hva, Hvb, promote_same.
  unfold pad_sizes. cbn [length Nat.sub replicate app broadcast_reps].
  rewrite !Z.eqb_refl. rewrite bool_decide_eq_true_2 by reflexivity.
  rewrite (bool_decide_eq_true_2 _ Hw).
  replace (is_floating dt || negb (is_floating dt)) with true by (destruct dt; reflexivity).
  cbn [andb]. rewrite Hra, Hrb.
  pose proof (rep_nd_ones [1; c; H; W] B ltac:(repeat constructor; lia) Hlb) as Hones.
  cbn [length replicate] in Hones. rewrite Hones. clear Hones.
  assert (Hz : zip_with (fun x y => cast dt (mul_at dt x y)) F B
               = zip_with (mul_at dt) F B).
  { apply zip_with_ext; [| reflexivity..]. intros x y.
    apply cast_same, dtype_of_mul_at. }
  rewrite Hz. set (P := zip_with (mul_at dt) F B).
  assert (HlP : length P = length (addrs ta)).
  { unfold P. rewrite length_zip_with. rewrite <- (read_length _ _ _ Hra). lia. }
  eexists. split; [reflexivity |]. split.
  - exists ta. repeat split; try assumption.
    + apply read_write_same; try assumption.
      * apply read_Some in Hra as (s & Hs & _). eauto.
      * rewrite Hda. unfold P. apply Forall_forall. intros v Hin.
        apply elem_of_lookup_zip_with in Hin as (i & x & y & -> & _ & _).
        apply dtype_of_mul_at.
    + unfold P. rewrite length_zip_with. lia.
  - intros t' sizes' dt' dev' vs' Hap (ti' & -> & ? & ? & ? & Hr' & ?).
    exists ti'. repeat split; try assumption.
    apply read_write_other; assumption.
Qed.

(** [cat] along the channels. *)
Lemma cat_holds (hp : Heap) (a b : Tensor) (Va Vb : list scalar) (ca cb H W : Z)
    (dt : Dtype) (dev : Device) :
  0 <= ca -> 0 <= cb -> 0 <= H -> 0 <= W ->
  holds hp a [1; ca; H; W] dt dev Va -> holds hp b [1; cb; H; W] dt dev Vb ->
  exists out s,
    cat a b 1 hp = (Ok (Some out), hp ++ [s])
    /\ holds (hp ++ [s]) (Some out) [1; ca + cb; H; W] dt dev (Va ++ Vb).
Proof.
  intros Hca Hcb HH HW (ta & -> & Hsa & Hda & Hva & Hra & Hla)
         (tb & -> & Hsb & Hdb & Hvb & Hrb & Hlb).
  unfold cat. rewrite Hsa, Hsb, Hda, Hdb, Hva, Hvb, promote_same.
  cbn [cat_compatible]. rewrite Z.eqb_refl.
  rewrite !bool_decide_eq_true_2 by reflexivity. cbn [andb].
  rewrite Hra, Hrb.
  rewrite !map_cast_same
    by (first [apply read_dtype in Hra; rewrite Hda in Hra; exact Hra
              | apply read_dtype in Hrb; rewrite Hdb in Hrb; exact Hrb]).
  assert (Hla' : length Va = Z.to_nat (numel [ca; H; W]))
    by (rewrite Hla; f_equal; cbn; lia).
  assert (Hlb' : length Vb = Z.to_nat (numel [cb; H; W]))
    by (rewrite Hlb; f_equal; cbn; lia).
  rewrite (cat_nd_channels ca cb H W Va Vb Hla' Hlb').
  cbn [nth list_insert insert].
  change (<[1%nat := ca + cb]> [1; ca; H; W]) with [1; ca + cb; H; W].
  assert (Hlv : length (Va ++ Vb) = Z.to_nat (numel [1; ca + cb; H; W])).
  { rewrite length_app, Hla', Hlb'. cbn. rewrite <- Z2Nat.inj_add by nia. f_equal. nia. }
  assert (Hdv : Forall (fun v => dtype_of v = dt) (Va ++ Vb)).
  { apply Forall_app. split.
    - apply read_dtype in Hra. rewrite Hda in Hra. exact Hra.
    - apply read_dtype in Hrb. rewrite Hdb in Hrb. exact Hrb. }
  pose proof (read_fresh hp [1; ca + cb; H; W] dt dev (Va ++ Vb)
                ltac:(repeat constructor; lia) Hlv Hdv) as Hf.
  destruct (fresh hp [1; ca + cb; H; W] dt dev (Va ++ Vb)) as [r hp'] eqn:Ef.
  unfold fresh in Ef. injection Ef as <- <-.
  eexists _, _. split; [reflexivity |].
  eexists. repeat split; [exact Hf | exact Hlv].
Qed.

Lemma strcmp_eqb (a b : string) : (strcmp a b =? 0) = String.eqb a b.
Proof.
  unfold strcmp. destruct (String.compare a b) eqn:E.
  - apply String.compare_eq_iff in E. subst. rewrite String.eqb_refl. reflexivity.
  - destruct (String.eqb_spec a b) as [-> | _]; [| reflexivity].
    pose proof (String.compare_antisym b b) as Ha. rewrite E in Ha. discriminate Ha.
  - destruct (String.eqb_spec a b) as [-> | _]; [| reflexivity].
    pose proof (String.compare_antisym b b) as Ha. rewrite E in Ha. discriminate Ha.
Qed.

Lemma value_holds (hp : Heap) (t : Tensor) sizes dt dev vs :
  holds hp t sizes dt dev vs -> value hp t = Some (mkValue sizes vs).
Proof. intros (ti & -> & <- & _ & _ & Hr & _). cbn. rewrite Hr. reflexivity. Qed.

Lemma bind_getInstanceData {B} (k : InstanceData -> M World B) (w : World) :
  bind getInstanceData k w = k (priv w) w.
Proof. reflexivity. Qed.

(** C8: on a foreground and an input of shape [1, 3, H, W] and an alpha
    of shape [1, 1, H, W], of one element type and on one device, the
    compositor of the code returns a tensor whose value is the one the
    specification gives: in full-colour mode the concatenation along the
    channels of the chosen foreground (the model's, or the input when the
    colour source is the input clip), multiplied element-wise by the
    alpha broadcast to 3 channels when post-multiplication is on, and the
    alpha; in alpha-only mode the alpha broadcast to the 4, 3 or 1
    channels of the destination layout.  It throws for an unrecognised
    layout in alpha-only mode and for an unrecognised output type.  When
    the product is taken in place, the chosen foreground must not overlap
    itself or the alpha. *)
Theorem composite_refines_spec (w : World) (outputImg : ImageInfo)
    (inputTensor fgr pha : Tensor) (F A I : list scalar) (H W : Z)
    (dt : Dtype) (dev : Device) :
  let p := priv w in
  let fg := if colorSource p =? COLOR_SRC_INPUT then inputTensor else fgr in
  0 <= H -> 0 <= W ->
  colorSource p = COLOR_SRC_INPUT \/ colorSource p = COLOR_SRC_MODEL ->
  holds (heap w) fgr [1; 3; H; W] dt dev F ->
  holds (heap w) pha [1; 1; H; W] dt dev A ->
  holds (heap w) inputTensor [1; 3; H; W] dt dev I ->
  (postmultiplyAlpha p = true -> writable fg /\ apart fg pha) ->
  match spec_composite dt (outputType p) (colorSource p) (postmultiplyAlpha p)
          (components outputImg)
          (mkValue [1; 3; H; W] F) (mkValue [1; 1; H; W] A) (mkValue [1; 3; H; W] I) with
  | Some v =>
      exists out w',
        composite outputImg inputTensor fgr pha w = (Ok out, w')
        /\ value (heap w') out = Some v
  | None => composite outputImg inputTensor fgr pha w = (Throw NoImageEx, w)
  end.
Proof.
  intros p fg HH HW Hcs HF HA HI Hpm.
  unfold composite, spec_composite. rewrite !bind_getInstanceData. fold p.
  destruct (outputType p =? OUTPUT_RGBA) eqn:Ergba.
  - (* full colour *)
    assert (Hfg : exists X, holds (heap w) fg [1; 3; H; W] dt dev X
                  /\ (if colorSource p =? COLOR_SRC_MODEL then mkValue [1; 3; H; W] F
                      else mkValue [1; 3; H; W] I) = mkValue [1; 3; H; W] X).
    { unfold fg. destruct Hcs as [-> | ->]; cbn; eauto. }
    destruct Hfg as (X & HX & ->). fold fg.
    destruct (postmultiplyAlpha p) eqn:Epm.
    + destruct (Hpm eq_refl) as [Hw Hap].
      destruct (repeat_channels (heap w) pha A 3 H W dt dev
                  ltac:(lia) HH HW HA) as (r & s & Erep & Hblk & Hr).
      destruct (mul_holds (heap w ++ [s]) fg (Some r) X _ 3 H W dt dev
                  ltac:(lia) HH HW (holds_app _ s _ _ _ _ _ HX) Hr Hw)
        as (hp2 & Emul & Hfg2 & Hothers).
      pose proof (Hothers pha _ _ _ _ Hap (holds_app _ s _ _ _ _ _ HA)) as HA2.
      destruct (cat_holds hp2 fg pha _ A 3 1 H W dt dev
                  ltac:(lia) ltac:(lia) HH HW Hfg2 HA2) as (out & s3 & Ecat & Hout).
      eexists (Some out), _. split.
      * unfold bind, liftH, ret. cbn [heap set_heap]. rewrite Erep. cbn [heap set_heap].
        rewrite Emul. cbn [heap set_heap]. rewrite Ecat. reflexivity.
      * cbn [heap set_heap]. apply (value_holds _ _ _ _ _ _ Hout).
    + destruct (cat_holds (heap w) fg pha X A 3 1 H W dt dev
                  ltac:(lia) ltac:(lia) HH HW HX HA) as (out & s3 & Ecat & Hout).
      eexists (Some out), _. split.
      * unfold bind, liftH, ret. cbn [heap set_heap]. rewrite Ecat. reflexivity.
      * cbn [heap set_heap]. apply (value_holds _ _ _ _ _ _ Hout).
  - destruct (outputType p =? OUTPUT_ALPHA) eqn:Ealpha; [| reflexivity].
    unfold layout_channels. rewrite !strcmp_eqb.
    change kOfxImageComponentRGBA with "OfxImageComponentRGBA".
    change kOfxImageComponentRGB with "OfxImageComponentRGB".
    change kOfxImageComponentAlpha with "OfxImageComponentAlpha".
    destruct (String.eqb (components outputImg) "OfxImageComponentRGBA").
    { destruct (repeat_channels (heap w) pha A 4 H W dt dev
                  ltac:(lia) HH HW HA) as (r & s & Erep & _ & Hr).
      eexists (Some r), _. split.
      - unfold liftH. rewrite Erep. reflexivity.
      - apply (value_holds _ _ _ _ _ _ Hr). }
    destruct (String.eqb (components outputImg) "OfxImageComponentRGB").
    { destruct (repeat_channels (heap w) pha A 3 H W dt dev
                  ltac:(lia) HH HW HA) as (r & s & Erep & _ & Hr).
      eexists (Some r), _. split.
      - unfold liftH. rewrite Erep. reflexivity.
      - apply (value_holds _ _ _ _ _ _ Hr). }
    destruct (String.eqb (components outputImg) "OfxImageComponentAlpha");
      [| reflexivity].
    eexists pha, w. split; [reflexivity |].
    rewrite (value_holds _ _ _ _ _ _ HA). unfold broadcast_channels. cbn.
    change (Z.to_nat 1) with 1%nat. cbn [replicate]. rewrite mjoin_singleton. reflexivity.
Qed.

Lemma composite_refines_spec_witness :
  exists out w',
    composite Example.no_image (Composite.tensor 2 3) (Composite.tensor 0 3)
              (Composite.tensor 1 1) Composite.world = (Ok out, w')
    /\ value (heap w') out
       = Some {| shape := [1; 4; 1; 1];
                 elems := [SFloat Example.half; SFloat Example.quarter;
                           SFloat Composite.eighth; SFloat Example.half] |}.
Proof.
  assert (Hh : forall blk c vs,
             Composite.tensor blk c = Composite.tensor blk c ->
             read (heap Composite.world) (default (mkTensor 0 0 [] [] kByte kCPU)
                                            (Composite.tensor blk c)) = Some vs ->
             length vs = Z.to_nat (numel [1; c; 1; 1]) ->
             holds (heap Composite.world) (Composite.tensor blk c) [1; c; 1; 1]
                   kFloat32 kCPU vs).
  { intros blk c vs _ Hr Hl. eexists. repeat split; [exact Hr | exact Hl]. }
  pose proof (composite_refines_spec Composite.world Example.no_image
                (Composite.tensor 2 3) (Composite.tensor 0 3) (Composite.tensor 1 1)
                Composite.F Composite.A Composite.I 1 1 kFloat32 kCPU
                ltac:(lia) ltac:(lia) (or_intror eq_refl)
                (Hh 0%nat 3 Composite.F eq_refl eq_refl eq_refl)
                (Hh 1%nat 1 Composite.A eq_refl eq_refl eq_refl)
                (Hh 2%nat 3 Composite.I eq_refl eq_refl eq_refl)) as H.
  cbv zeta in H. apply H. intros _. split.
  - cbn. eapply bool_decide_unpack. vm_compute. exact Logic.I.
  - left. cbn. lia.
Defined.

(** * Further properties *)

(** ** String comparison *)

Lemma strcmp_ne (a b : string) : a <> b -> (strcmp a b =? 0) = false.
Proof. intros H. rewrite strcmp_eqb. apply String.eqb_neq. exact H. Qed.

Lemma strcmp_refl (a : string) : (strcmp a a =? 0) = true.
Proof. rewrite strcmp_eqb. apply String.eqb_refl. Qed.

(** ** Release of the images a render acquired

    The log of a render, read as acquisitions and releases. *)

Lemma acquired_app (l l' : list Event) : acquired (l ++ l') = acquired l ++ acquired l'.
Proof. apply omap_app. Qed.

Lemma released_app (l l' : list Event) : released (l ++ l') = released l ++ released l'.
Proof. apply omap_app. Qed.

Lemma silent_same {A} (m : M World A) :
  (forall w, post m w (fun _ w' => log w' = log w)) -> silent m.
Proof.
  intros H w. eapply post_mono; [apply H |]. cbn. intros _ w' ->.
  exists []. rewrite app_nil_r. auto.
Qed.

Lemma silent_ret {A} (a : A) : silent (ret a).
Proof. apply silent_same. reflexivity. Qed.

Lemma silent_throw {A} (e : exn) : silent (@throw World A e).
Proof. apply silent_same. reflexivity. Qed.

Lemma silent_liftR {A} (r : Res A) : silent (liftR r).
Proof. apply silent_same. reflexivity. Qed.

Lemma silent_liftH {A} (m : M Heap A) : silent (liftH m).
Proof. apply silent_same. intros w. apply post_liftH. reflexivity. Qed.

Lemma silent_getInstanceData : silent getInstanceData.
Proof. apply silent_same. reflexivity. Qed.

Lemma silent_get_params : silent get_params.
Proof. apply silent_same. reflexivity. Qed.

Lemma silent_modify_priv f : silent (modify_priv f).
Proof. apply silent_same. reflexivity. Qed.

Lemma silent_modify_torch f : silent (modify_torch f).
Proof. apply silent_same. reflexivity. Qed.

Lemma silent_modify_params f : silent (modify_params f).
Proof. apply silent_same. reflexivity. Qed.

Lemma silent_snprintf_path host (s : string) : silent (snprintf_path host s).
Proof. apply silent_same. reflexivity. Qed.

Lemma silent_return_path : silent return_path.
Proof. apply silent_same. reflexivity. Qed.

Lemma silent_emit (e : Event) : image_event e = false -> silent (emit e).
Proof.
  intros He w. exists [e]. split; [reflexivity |].
  destruct e; try discriminate; split; reflexivity.
Qed.

Lemma silent_trans (l0 l1 l2 l l' : list Event) :
  l1 = l0 ++ l -> acquired l = [] /\ released l = [] ->
  l2 = l1 ++ l' -> acquired l' = [] /\ released l' = [] ->
  exists l'', l2 = l0 ++ l'' /\ acquired l'' = [] /\ released l'' = [].
Proof.
  intros -> [Ha Hr] -> [Ha' Hr']. exists (l ++ l').
  rewrite acquired_app, released_app, Ha, Hr, Ha', Hr', app_assoc. auto.
Qed.

Lemma silent_bind {A B} (m : M World A) (k : A -> M World B) :
  silent m -> (forall a, silent (k a)) -> silent (bind m k).
Proof.
  intros Hm Hk w. apply post_bind. eapply post_mono; [apply Hm |].
  intros [a | e |] w1 (l & Hl & Hs); cbn; [| eauto | eauto].
  eapply post_mono; [apply Hk |]. cbn. intros _ w2 (l' & Hl' & Hs').
  eapply silent_trans; eauto.
Qed.

Lemma silent_try_catch {A} (body : M World A) (catches : exn -> bool) handler :
  silent body -> silent handler -> silent (try_catch body catches handler).
Proof.
  intros Hb Hh w. apply post_try_catch. eapply post_mono; [apply Hb |].
  intros [a | e |] w1 (l & Hl & Hs); cbn; [eauto | | eauto].
  destruct (catches e); [| eauto].
  eapply post_mono; [apply Hh |]. cbn. intros _ w2 (l' & Hl' & Hs').
  eapply silent_trans; eauto.
Qed.

Ltac silent_step :=
  lazymatch goal with
  | |- silent (bind _ _) => apply silent_bind; [| intros ?]
  | |- silent (try_catch _ _ _) => apply silent_try_catch
  | |- silent (if ?b then _ else _) => destruct b
  | |- silent (match ?o with Some _ => _ | None => _ end) => destruct o
  | |- silent (match ?o with EmptyString => _ | String _ _ => _ end) => destruct o
  | |- silent (ret _) => apply silent_ret
  | |- silent (throw _) => apply silent_throw
  | |- silent (liftR _) => apply silent_liftR
  | |- silent (liftH _) => apply silent_liftH
  | |- silent getInstanceData => apply silent_getInstanceData
  | |- silent get_params => apply silent_get_params
  | |- silent (modify_priv _) => apply silent_modify_priv
  | |- silent (modify_torch _) => apply silent_modify_torch
  | |- silent (modify_params _) => apply silent_modify_params
  | |- silent (snprintf_path _ _) => apply silent_snprintf_path
  | |- silent return_path => apply silent_return_path
  | |- silent (emit _) => apply silent_emit; reflexivity
  | |- silent (outputs_get _ _) => unfold outputs_get
  end.

Lemma modelClearHistory_silent : silent modelClearHistory.
Proof. unfold modelClearHistory. repeat silent_step. Qed.

Lemma getModelFilename_silent host : silent (getModelFilename host).
Proof. unfold getModelFilename. repeat silent_step. Qed.

Lemma modelSetup_silent host : silent (modelSetup host).
Proof.
  unfold modelSetup.
  repeat first [apply modelClearHistory_silent | apply getModelFilename_silent | silent_step].
Qed.

Lemma inputToTensor_silent img : silent (inputToTensor img).
Proof. unfold inputToTensor. repeat silent_step. Qed.

Lemma runModel_silent time t : silent (runModel time t).
Proof. unfold runModel, model_forward. repeat silent_step. Qed.

Lemma composite_silent img i f p : silent (composite img i f p).
Proof. unfold composite. repeat silent_step. Qed.

Lemma render_log_silent {A} P l0 (m : M World A) wf :
  silent m -> render_log P l0 wf ->
  post (liftW m) wf (fun _ wf' => render_log P l0 wf' /\ wf'.2 = wf.2).
Proof.
  intros Hm (l & Hl & Hr & HP). apply post_liftW. eapply post_mono; [apply Hm |].
  cbn. intros _ w' (l' & Hl' & Ha' & Hr'). split; [| reflexivity].
  exists (l ++ l'). cbn. rewrite Hl', Hl, released_app, acquired_app, Hr, Hr', Ha', !app_nil_r.
  rewrite app_assoc. auto.
Qed.

Lemma fillImageInfos_log host img clip time w :
  post (fillImageInfos host img clip time) w (fun r w' =>
    exists st img', r = Ok (st, img')
      /\ exists l, log w' = log w ++ l /\ released l = []
                   /\ forall n, n ∈ acquired l -> h img' = Some n).
Proof.
  unfold post, fillImageInfos.
  destruct (clipGetImage host clip time (h img)) as [rv handle].
  destruct (negb _).
  { cbn. do 2 eexists. split; [reflexivity |]. exists []. rewrite app_nil_r.
    repeat split. cbn. intros n Hn. inversion Hn. }
  destruct handle as [n |]; cbn.
  - do 2 eexists. split; [reflexivity |]. exists [EvGetImage n].
    repeat split. cbn. intros m Hm. apply list_elem_of_singleton in Hm. congruence.
  - do 2 eexists. split; [reflexivity |]. exists []. rewrite app_nil_r.
    repeat split. cbn. intros n Hn. inversion Hn.
Qed.

Lemma render_log_fill P l0 host img clip time wf :
  render_log P l0 wf ->
  post (liftW (fillImageInfos host img clip time)) wf (fun r wf' =>
    exists st img', r = Ok (st, img')
      /\ render_log (fun acq fr =>
           fr = wf.2
           /\ exists a a', acq = a ++ a' /\ P a wf.2
                           /\ forall n, n ∈ a' -> h img' = Some n) l0 wf').
Proof.
  intros (l & Hl & Hr & HP). apply post_liftW.
  eapply post_mono; [apply fillImageInfos_log |]. cbn.
  intros r w' (st & img' & -> & l' & Hl' & Hr' & Ha').
  exists st, img'. split; [reflexivity |].
  exists (l ++ l'). cbn. rewrite Hl', Hl, released_app, acquired_app, Hr, Hr', app_assoc.
  repeat split. eauto 6.
Qed.

Lemma render_try_log host time w fr :
  post (render_try host time) (w, fr) (fun _ wf' => render_log held (log w) wf').
Proof.
  assert (H0 : render_log (fun acq _ => acq = []) (log w) (w, fr)).
  { exists []. rewrite app_nil_r. auto. }
  revert H0. generalize (w, fr) at 1 2. generalize (log w) as l0. clear w fr.
  intros l0 wf H0. unfold render_try.
  (* priv *)
  eapply (post_bind_mid (fun _ wf' => render_log (fun acq _ => acq = []) l0 wf')).
  { eapply post_mono; [apply render_log_silent; [apply silent_getInstanceData | exact H0] |].
    intros [p | e |] wf' [(l & Hl & Hr & Ha) _]; cbn; try exact I; eauto.
    all: exists l; rewrite Ha; repeat split; auto; intros n Hn; inversion Hn. }
  clear wf H0. intros p wf H0.
  apply post_bind. unfold post at 1, get_frame. cbn [fst snd].
  (* the output image *)
  eapply (post_bind_mid (fun r wf' =>
            render_log (fun acq _ => forall n, n ∈ acq -> h r.2 = Some n) l0 wf')).
  { eapply post_mono; [apply render_log_fill; exact H0 |].
    intros r wf' (st & img' & -> & l & Hl & Hr & _ & a & a' & Ha & -> & Ha'); cbn.
    exists l. rewrite Ha. auto. }
  clear wf H0. intros r wf (l & Hl & Hr & Ha).
  apply post_bind. unfold post at 1, set_outputImg. cbn [fst snd].
  assert (H1 : render_log (fun acq fr => forall n, n ∈ acq -> h (outputImg fr) = Some n) l0
                 (wf.1, {| outputImg := r.2; inputImg := inputImg wf.2 |})).
  { exists l. auto. }
  clear l Hl Hr Ha. revert H1.
  generalize (wf.1, {| outputImg := r.2; inputImg := inputImg wf.2 |}). clear wf.
  intros wf H1.
  destruct (negb (bool_decide (r.1 = kOfxStatOK))).
  { unfold post, throw. cbn. destruct H1 as (l & Hl & Hr & Ha). exists l.
    repeat split; auto. intros n Hn. left. auto. }
  apply post_bind. unfold post at 1, get_frame. cbn [fst snd].
  (* the input image *)
  clear r.
  eapply (post_bind_mid (fun r wf' =>
            render_log (fun acq fr => forall n, n ∈ acq ->
                          h (outputImg fr) = Some n \/ h r.2 = Some n) l0 wf')).
  { eapply post_mono; [apply render_log_fill; exact H1 |].
    intros r wf' (st & img' & -> & l & Hl & Hr & Hfr & a & a' & Hacq & Ha & Ha'); cbn.
    exists l. repeat split; auto. rewrite Hfr, Hacq.
    intros n Hn. apply elem_of_app in Hn as [Hn | Hn]; auto. }
  clear wf H1. intros r wf (l & Hl & Hr & Ha).
  apply post_bind. unfold post at 1, set_inputImg. cbn [fst snd].
  assert (H2 : render_log held l0
                 (wf.1, {| outputImg := outputImg wf.2; inputImg := r.2 |})).
  { exists l. auto. }
  clear l Hl Hr Ha. revert H2.
  generalize (wf.1, {| outputImg := outputImg wf.2; inputImg := r.2 |}). clear wf.
  intros wf H2.
  destruct (negb (bool_decide (r.1 = kOfxStatOK))); [exact H2 |].
  apply post_bind. unfold post at 1, get_frame. cbn [fst snd].
  (* the rest touches neither the images nor the two locals *)
  repeat
    (lazymatch goal with
     | |- post (bind _ _) _ _ =>
         apply (post_bind_inv (render_log held l0)); [| clear H2; intros ? ? H2]
     | |- post (liftW _) _ _ =>
         eapply post_mono;
         [apply render_log_silent;
          [first [apply inputToTensor_silent | apply runModel_silent
                 | apply composite_silent | apply silent_liftH] | exact H2]
         | cbn; intros ? ? [? _]; assumption]
     end).
Qed.

Lemma released_map (rel : list nat) : released (map EvReleaseImage rel) = rel.
Proof. induction rel; cbn; [| unfold released in IHrel; rewrite IHrel]; reflexivity. Qed.

Lemma acquired_map (rel : list nat) : acquired (map EvReleaseImage rel) = [].
Proof. induction rel; cbn; auto. Qed.

Lemma render_images_log host time w fr :
  post (render_images host time) (w, fr) (fun r wf' =>
    forall st, r = Ok st ->
      exists l rel, log wf'.1 = log w ++ l ++ map EvReleaseImage rel
                    /\ released l = [] /\ forall n, n ∈ acquired l -> n ∈ rel).
Proof.
  unfold render_images.
  eapply (post_bind_mid (fun _ wf' => render_log held (log w) wf')).
  { apply post_try_catch. apply post_bind.
    eapply post_mono; [apply render_try_log |].
    intros [[] | e |] wf' H; cbn; [exact H | | intros; discriminate].
    destruct (is_NoImageEx e); [| intros; discriminate].
    apply post_bind.
    eapply post_mono;
      [apply render_log_silent; [apply silent_emit; reflexivity | exact H] |].
    intros [[] | e' |] wf'' [H' _]; cbn; [| intros; discriminate | intros; discriminate].
    destruct (abort host =? 0); exact H'. }
  intros status wf (l & Hl & Hr & Ha).
  unfold post, bind, get_frame, clipReleaseImage, liftW, emit, ret. cbn [fst snd].
  exists l, (handle_list (h (outputImg wf.2)) ++ handle_list (h (inputImg wf.2))).
  split; [| split; [exact Hr |]].
  - destruct (h (outputImg wf.2)), (h (inputImg wf.2)); cbn; rewrite Hl;
      rewrite <- ?app_assoc; cbn; rewrite ?app_nil_r; reflexivity.
  - intros n Hn. destruct (Ha n Hn) as [-> | ->]; cbn.
    + apply elem_of_cons. left. reflexivity.
    + apply elem_of_app. right. apply elem_of_cons. left. reflexivity.
Qed.

(** X1: whenever [effectRender] returns a status (the model could not be
    set up, the render succeeded, or it was aborted for a missing image),
    the log it adds consists of a part without any release followed by
    releases only, and every image acquired in the first part is released
    in the second. *)
Theorem effectRender_releases (host : Host) (indeterminate : ImageInfo) (time : OfxTime)
    (w : World) (st : OfxStatus) :
  (effectRender host indeterminate time w).1 = Ok st ->
  exists l rel,
    log (effectRender host indeterminate time w).2 = log w ++ l ++ map EvReleaseImage rel
    /\ released l = []
    /\ forall n, n ∈ acquired l -> n ∈ rel.
Proof.
  revert st.
  change (post (effectRender host indeterminate time) w (fun r w' =>
            forall st, r = Ok st ->
              exists l rel, log w' = log w ++ l ++ map EvReleaseImage rel
                            /\ released l = [] /\ forall n, n ∈ acquired l -> n ∈ rel)).
  unfold effectRender.
  eapply (post_bind_mid (fun _ w' =>
            exists l, log w' = log w ++ l /\ acquired l = [] /\ released l = [])).
  { eapply post_mono; [apply modelSetup_silent |].
    intros [a | e |] w' H; cbn; [exact H | intros; discriminate | intros; discriminate]. }
  intros status w1 (l & Hl & Ha & Hr).
  destruct (negb _).
  - unfold post, ret. cbn. intros _ _. exists l, []. cbn. rewrite app_nil_r, Ha.
    repeat split; auto; intros n Hn; inversion Hn.
  - pose proof (render_images_log host time w1
                  {| outputImg := indeterminate; inputImg := indeterminate |}) as H.
    unfold post in *. destruct (render_images _ _ _) as [r wf]. cbn [fst snd] in *.
    intros st Hst. destruct (H st Hst) as (l' & rel & Hl' & Hr' & Ha').
    exists (l ++ l'), rel. rewrite Hl', Hl, released_app, acquired_app, Hr, Hr', Ha.
    rewrite <- !app_assoc. auto.
Qed.

Lemma effectRender_releases_witness :
  let host := Example.host_of Example.rvm in
  let w := Example.created (Example.param_set COLOR_SRC_MODEL 0) in
  exists l rel,
    log (effectRender host Example.no_image (IEEE.d_of_Z 1) w).2
    = log w ++ l ++ map EvReleaseImage rel
    /\ released l = []
    /\ forall n, n ∈ acquired l -> n ∈ rel.
Proof.
  apply (effectRender_releases (Example.host_of Example.rvm) Example.no_image
           (IEEE.d_of_Z 1) (Example.created (Example.param_set COLOR_SRC_MODEL 0))
           kOfxStatOK).
  vm_compute. reflexivity.
Defined.

(** ** A render without an output image *)

Lemma effectRender_ready (host : Host) (indeterminate : ImageInfo) (time : OfxTime)
    (w : World) :
  ready (torch (priv w)) = true ->
  effectRender host indeterminate time w
  = let r := render_images host time
               (w, {| outputImg := indeterminate; inputImg := indeterminate |}) in
    (r.1, r.2.1).
Proof.
  intros Hr. unfold effectRender, bind. rewrite (modelSetup_ready host w Hr).
  rewrite bool_decide_eq_true_2 by reflexivity. cbn [negb].
  destruct (render_images _ _ _). reflexivity.
Qed.

(** X2: on a ready session, when the host has no image for the output
    clip the render asks for nothing else: it calls [abort], returns
    kOfxStatFailed when [abort] answers 0 and kOfxStatOK otherwise, and
    leaves memory, instance data and parameters as they were.  The
    clean-up then releases whatever the two image locals hold: what the
    host left in the output handle, and the never-initialised input
    handle. *)
Theorem effectRender_no_output (host : Host) (indeterminate : ImageInfo) (time : OfxTime)
    (w : World) (st : OfxStatus) (hd : option nat) :
  ready (torch (priv w)) = true ->
  clipGetImage host (outputClip (priv w)) time (h indeterminate) = (st, hd) ->
  st <> kOfxStatOK ->
  effectRender host indeterminate time w
  = (Ok (if abort host =? 0 then kOfxStatFailed else kOfxStatOK),
     {| heap := heap w; priv := priv w; params := params w;
        log := log w ++ [EvAbort]
               ++ map EvReleaseImage (handle_list hd ++ handle_list (h indeterminate));
        path := path w |}).
Proof.
  intros Hr Hg Hst. rewrite (effectRender_ready _ _ _ _ Hr). cbv zeta.
  unfold render_images, render_try, try_catch, bind, liftW, get_frame, set_outputImg,
    getInstanceData, fillImageInfos, clipReleaseImage, emit.
  cbn [fst snd outputImg inputImg]. rewrite Hg.
  assert (E : bool_decide (st = kOfxStatOK) = false) by (apply bool_decide_eq_false_2, Hst).
  rewrite E. cbn. rewrite E. cbn.
  destruct (abort host =? 0); cbn; destruct hd; cbn; destruct (h indeterminate); cbn;
    rewrite <- ?app_assoc; reflexivity.
Qed.

Lemma effectRender_no_output_witness :
  effectRender Scenario.no_images Scenario.stale (IEEE.d_of_Z 1) Example.rendered
  = (Ok kOfxStatFailed,
     {| heap := heap Example.rendered; priv := priv Example.rendered;
        params := params Example.rendered;
        log := log Example.rendered
               ++ [EvAbort; EvReleaseImage 7; EvReleaseImage 7];
        path := path Example.rendered |}).
Proof.
  refine (effectRender_no_output Scenario.no_images Scenario.stale (IEEE.d_of_Z 1)
            Example.rendered kOfxStatFailed (Some 7%nat) _ _ _).
  - vm_compute. reflexivity.
  - reflexivity.
  - discriminate.
Defined.

(** ** The load step *)

Lemma session_kept_refl (w : World) : session_kept [] w w.
Proof.
  repeat split; [symmetry; apply app_nil_r |].
  exists (device (torch (priv w))), (type (torch (priv w))), (model (torch (priv w))).
  destruct w as [hp [? ? ? ? ? ? ? ? ? ? ? ? ? ? ? ? ? ? []] ps l pth]. reflexivity.
Qed.

Lemma session_kept_trans (l l' : list Event) (w w1 w2 : World) :
  session_kept l w w1 -> session_kept l' w1 w2 -> session_kept (l ++ l') w w2.
Proof.
  intros (Hh & Hp & Hl & d & ty & m & E) (Hh' & Hp' & Hl' & d' & ty' & m' & E').
  repeat split; try congruence.
  - rewrite Hl', Hl, app_assoc. reflexivity.
  - exists d', ty', m'. rewrite E', E. reflexivity.
Qed.

Lemma session_kept_set_device (w : World) (d : Device) :
  session_kept [] w (set_priv (set_torch (set_device d (torch (priv w))) (priv w)) w).
Proof.
  repeat split; [symmetry; apply app_nil_r |].
  exists d, (type (torch (priv w))), (model (torch (priv w))). reflexivity.
Qed.

Lemma session_kept_set_type (w : World) (ty : Dtype) :
  session_kept [] w (set_priv (set_torch (set_type ty (torch (priv w))) (priv w)) w).
Proof.
  repeat split; [symmetry; apply app_nil_r |].
  exists (device (torch (priv w))), ty, (model (torch (priv w))). reflexivity.
Qed.

Lemma session_kept_set_model (w : World) (m : Module) :
  session_kept [] w (set_priv (set_torch (set_model m (torch (priv w))) (priv w)) w).
Proof.
  repeat split; [symmetry; apply app_nil_r |].
  exists (device (torch (priv w))), (type (torch (priv w))), m. reflexivity.
Qed.

Lemma session_kept_step (l : list Event) (w w1 w2 : World) :
  session_kept l w w1 -> session_kept [] w1 w2 -> session_kept l w w2.
Proof. intros H1 H2. rewrite <- (app_nil_r l). eapply session_kept_trans; eassumption. Qed.

(** What a session keeps, read field by field. *)
Lemma session_kept_fields (l : list Event) (w w' : World) :
  session_kept l w w' ->
  ready (torch (priv w')) = ready (torch (priv w))
  /\ rn_time (torch (priv w')) = rn_time (torch (priv w))
  /\ rn_0 (torch (priv w')) = rn_0 (torch (priv w))
  /\ rn_1 (torch (priv w')) = rn_1 (torch (priv w))
  /\ rn_2 (torch (priv w')) = rn_2 (torch (priv w))
  /\ rn_3 (torch (priv w')) = rn_3 (torch (priv w))
  /\ modelParam (priv w') = modelParam (priv w)
  /\ modelPrecisionParam (priv w') = modelPrecisionParam (priv w)
  /\ modelFileParam (priv w') = modelFileParam (priv w).
Proof. intros (_ & _ & _ & d & ty & m & ->). repeat split. Qed.

(** The model file depends on the parameters and on the static buffer
    only. *)
Lemma getModelFilename_kept (host : Host) (l : list Event) (w w' : World) :
  session_kept l w w' -> path w' = path w ->
  (getModelFilename host w').1 = (getModelFilename host w).1.
Proof.
  intros H Hpath.
  destruct (session_kept_fields _ _ _ H) as (_ & _ & _ & _ & _ & _ & Hm & Hp & Hf).
  destruct H as (_ & Hps & _).
  unfold getModelFilename, bind, getInstanceData, get_params, snprintf_path, return_path.
  cbn [fst snd].
  rewrite Hm, Hp, Hf, Hps.
  repeat match goal with
         | |- context [if ?b then _ else _] => destruct b
         end; cbn [fst snd]; try reflexivity.
  - destruct (paramGetString _ _) as [[| ? ?] |]; reflexivity.
  - rewrite Hpath. reflexivity.
Qed.

Lemma load_kept (host : Host) (file : string) (w : World) :
  post (try_catch
          (let* _ := emit (EvLoad file) in
           let* m := liftR (jit_load host file) in
           let* _ := modify_torch (set_model m) in
           let* priv := getInstanceData in
           let* m := liftR (module_to host m (device (torch priv))) in
           let* _ := modify_torch (set_model m) in
           let* _ := liftR (jit_freeze host m) in
           ret true)
          is_std_exception (ret false)) w
       (fun r w' =>
          load_outcome r
          /\ heap w' = heap w /\ params w' = params w /\ log w' = log w ++ [EvLoad file]
          /\ exists m, priv w' = set_torch (set_model m (torch (priv w))) (priv w)).
Proof.
  assert (H0 : exists m, priv w = set_torch (set_model m (torch (priv w))) (priv w)).
  { exists (model (torch (priv w))).
    destruct w as [hp [? ? ? ? ? ? ? ? ? ? ? ? ? ? ? ? ? ? []] ps l pth]. reflexivity. }
  unfold post, try_catch, bind, liftR, modify_torch, modify_priv, getInstanceData, ret, emit,
    load_outcome.
  cbn [fst snd priv].
  destruct (jit_load host file) as [m | e |]; cbn [fst snd].
  2: { destruct (is_std_exception e) eqn:Ee; cbn; repeat split; eauto 8. }
  2: { cbn; repeat split; eauto 8. }
  destruct (module_to host m _) as [m' | e |]; cbn [fst snd].
  2: { destruct (is_std_exception e) eqn:Ee; cbn; repeat split; eauto 8. }
  2: { cbn; repeat split; eauto 8. }
  destruct (jit_freeze host m') as [[] | e |]; cbn [fst snd];
    [| destruct (is_std_exception e) eqn:Ee |]; cbn; repeat split; eauto 8.
Qed.

Lemma modelClearHistory_ok (w : World) : (modelClearHistory w).1 = Ok tt.
Proof.
  unfold modelClearHistory, bind, getInstanceData. cbn.
  destruct (IEEE.is_nan _); reflexivity.
Qed.

Lemma modelClearHistory_frame (w : World) :
  let w' := (modelClearHistory w).2 in
  heap w' = heap w /\ params w' = params w /\ log w' = log w
  /\ ready (torch (priv w')) = ready (torch (priv w))
  /\ device (torch (priv w')) = device (torch (priv w))
  /\ type (torch (priv w')) = type (torch (priv w))
  /\ model (torch (priv w')) = model (torch (priv w)).
Proof.
  unfold modelClearHistory, bind, getInstanceData. cbn.
  destruct (IEEE.is_nan _); cbn; repeat split.
Qed.

Lemma modelSetup_trace (host : Host) (w : World) :
  ready (torch (priv w)) = false ->
  post (modelSetup host) w (setup_outcome host w).
Proof.
  intros Hr. unfold modelSetup.
  apply post_bind. run_prim. rewrite Hr.
  apply post_bind. run_prim.
  eapply (post_bind_mid (fun _ w' => session_kept [] w w' /\ path w' = path w)).
  { repeat run_step; (split; [| reflexivity]);
      first [apply session_kept_set_device | apply session_kept_refl]. }
  intros _ w1 [H1 P1].
  eapply (post_bind_mid (fun _ w' => session_kept [] w w' /\ path w' = path w)).
  { repeat run_step; try (split; [exact H1 | exact P1]).
    all: split; [| exact P1].
    all: eapply session_kept_step; [exact H1 | apply session_kept_set_type]. }
  clear w1 H1 P1. intros _ w1 [H1 P1].
  eapply (post_bind_mid (fun x w' =>
            session_kept [] w w' /\ (getModelFilename host w).1 = Ok x)).
  { unfold post. rewrite <- (getModelFilename_kept host _ _ _ H1 P1).
    destruct (getModelFilename_path host w1) as (x & s & ->). cbn [fst snd].
    split; [exact H1 | reflexivity]. }
  clear w1 H1 P1. intros model_file w1 [H1 Hf].
  destruct model_file as [file |]; [| run_prim; left; auto].
  eapply (post_bind_mid (fun loaded w' =>
            session_kept [EvLoad file] w w')).
  { eapply post_mono; [apply load_kept |].
    intros r w' (Ho & Hh & Hp & Hl & m & Hm).
    assert (H' : session_kept [EvLoad file] w w').
    { change [EvLoad file] with ([] ++ [EvLoad file]).
      eapply session_kept_trans; [exact H1 |].
      repeat split; auto.
      exists (device (torch (priv w1))), (type (torch (priv w1))), m. rewrite Hm.
      destruct w1 as [hp [? ? ? ? ? ? ? ? ? ? ? ? ? ? ? ? ? ? []] ps l pth]. reflexivity. }
    destruct Ho as [-> | [-> | [-> | (e & -> & He)]]]; cbn; auto.
    all: right; exists file; split; [exact Hf |]; left; split; eauto. }
  clear w1 H1. intros loaded w1 H1.
  destruct (negb loaded);
    [run_prim; right; exists file; split; [exact Hf |]; left; auto |].
  unfold post, bind. pose proof (modelClearHistory_ok w1) as Ec.
  destruct (modelClearHistory w1) as [r w2] eqn:E. cbn [fst] in Ec. subst r.
  cbn [fst snd modify_torch modify_priv ret].
  right. exists file. split; [exact Hf |]. right. split; [reflexivity |].
  exists w1. rewrite E. auto.
Qed.

(** X3: a load step that returns a status other than kOfxStatOK returns
    kOfxStatFailed, leaves the session not ready, and leaves the
    recurrent history, memory and the parameters untouched. *)
Theorem modelSetup_failure (host : Host) (w : World) (st : OfxStatus) :
  (modelSetup host w).1 = Ok st -> st <> kOfxStatOK ->
  let w' := (modelSetup host w).2 in
  st = kOfxStatFailed
  /\ ready (torch (priv w')) = false
  /\ rn_time (torch (priv w')) = rn_time (torch (priv w))
  /\ rn_0 (torch (priv w')) = rn_0 (torch (priv w))
  /\ rn_1 (torch (priv w')) = rn_1 (torch (priv w))
  /\ rn_2 (torch (priv w')) = rn_2 (torch (priv w))
  /\ rn_3 (torch (priv w')) = rn_3 (torch (priv w))
  /\ heap w' = heap w /\ params w' = params w.
Proof.
  intros Hst Hne. cbv zeta.
  destruct (ready (torch (priv w))) eqn:Hr.
  { rewrite (modelSetup_ready host w Hr) in Hst. cbn in Hst. congruence. }
  pose proof (modelSetup_trace host w Hr) as H. unfold post in H.
  destruct (modelSetup host w) as [r w']. cbn [fst snd] in *. subst r.
  assert (Hk : st = kOfxStatFailed /\ exists l, session_kept l w w').
  { destruct H as [([= ->] & _ & H) | (file & _ & [([[= ->] | [? | (e & ? & _)]] & H)
                                                  | ([= ->] & _)])];
      try discriminate; try congruence; eauto. }
  destruct Hk as [-> (l & Hk)].
  destruct (session_kept_fields _ _ _ Hk) as (H1 & H2 & H3 & H4 & H5 & H6 & _).
  destruct Hk as (Hh & Hp & _). rewrite H1, Hr. auto 10.
Qed.

Lemma modelSetup_failure_witness :
  let w := Example.created (Example.param_set COLOR_SRC_MODEL 0) in
  (modelSetup Scenario.broken_loader w).1 = Ok kOfxStatFailed
  /\ ready (torch (priv (modelSetup Scenario.broken_loader w).2)) = false.
Proof.
  split; [vm_compute; reflexivity |].
  refine (proj1 (proj2 (modelSetup_failure Scenario.broken_loader
            (Example.created (Example.param_set COLOR_SRC_MODEL 0)) kOfxStatFailed _ _))).
  - vm_compute. reflexivity.
  - discriminate.
Defined.

(** A load step that succeeds on a session that was not ready. *)
Lemma modelSetup_not_ready_ok (host : Host) (w : World) :
  ready (torch (priv w)) = false -> hist_inv (torch (priv w)) ->
  (modelSetup host w).1 = Ok kOfxStatOK ->
  let w' := (modelSetup host w).2 in
  hist_empty (torch (priv w')) /\ ready (torch (priv w')) = true
  /\ (exists file, (getModelFilename host w).1 = Ok (Some file)
                   /\ log w' = log w ++ [EvLoad file])
  /\ heap w' = heap w /\ params w' = params w.
Proof.
  intros Hr Hinv Hst. cbv zeta.
  pose proof (modelSetup_trace host w Hr) as H. unfold post in H.
  destruct (modelSetup host w) as [r w']. cbn [fst snd] in *. subst r.
  destruct H as [([=] & _) | (file & Hf & [([[=] | [[=] | (e & [=] & _)]] & _)
                                          | (_ & w1 & Hk & ->)])].
  destruct (session_kept_fields _ _ _ Hk) as (H1 & H2 & H3 & H4 & H5 & H6 & _).
  assert (Hinv1 : hist_inv (torch (priv w1))).
  { unfold hist_inv, hist_whole, hist_empty, has_hidden in *.
    rewrite H2, H3, H4, H5, H6. exact Hinv. }
  destruct (modelClearHistory_empty w1 Hinv1) as (He & _).
  destruct (modelClearHistory_frame w1) as (Fh & Fp & Fl & _).
  destruct Hk as (Hh & Hp & Hl & _).
  cbn [priv set_priv torch set_torch heap params log].
  split; [exact He |]. split; [reflexivity |].
  split; [exists file; split; [exact Hf | congruence] |].
  split; congruence.
Qed.

(** X4: a load step that succeeds on a session that was not ready ends
    with an empty history and a ready session, having loaded exactly one
    file, the one [getModelFilename] names; memory and parameters are
    untouched. *)
Theorem modelSetup_reload (host : Host) (w : World) :
  ready (torch (priv w)) = false -> hist_inv (torch (priv w)) ->
  (modelSetup host w).1 = Ok kOfxStatOK ->
  let w' := (modelSetup host w).2 in
  hist_empty (torch (priv w')) /\ ready (torch (priv w')) = true
  /\ (exists file, (getModelFilename host w).1 = Ok (Some file)
                   /\ log w' = log w ++ [EvLoad file])
  /\ heap w' = heap w /\ params w' = params w.
Proof. apply modelSetup_not_ready_ok. Qed.

Lemma modelSetup_reload_witness :
  let host := Example.host_of Example.rvm in
  let w := Example.created (Example.param_set COLOR_SRC_MODEL 0) in
  hist_empty (torch (priv (modelSetup host w).2)).
Proof.
  refine (proj1 (modelSetup_reload (Example.host_of Example.rvm)
            (Example.created (Example.param_set COLOR_SRC_MODEL 0)) _ _ _)).
  - vm_compute. reflexivity.
  - right. vm_compute. repeat split.
  - vm_compute. reflexivity.
Defined.

Lemma effectRender_setup_failed (host : Host) (indeterminate : ImageInfo) (time : OfxTime)
    (w : World) :
  (modelSetup host w).1 <> Ok kOfxStatOK ->
  effectRender host indeterminate time w = modelSetup host w.
Proof.
  intros H. unfold effectRender, bind.
  destruct (modelSetup host w) as [[st | e |] w']; try reflexivity.
  cbn [fst] in H. rewrite bool_decide_eq_false_2; [reflexivity |].
  intros ->. apply H. reflexivity.
Qed.

(** X5: with the custom model selected and no file named (the string
    parameter unset or empty), a render on a session that is not ready
    returns kOfxStatFailed without attempting a load, acquiring an image
    or touching memory, and the session stays not ready. *)
Theorem effectRender_custom_without_file (host : Host) (indeterminate : ImageInfo)
    (time : OfxTime) (w : World) :
  handles_ok (priv w) -> ready (torch (priv w)) = false ->
  paramGetInt (params w) "model" = MODEL_CUSTOM ->
  paramGetString (params w) "modelFile" = None
  \/ paramGetString (params w) "modelFile" = Some "" ->
  let r := effectRender host indeterminate time w in
  r.1 = Ok kOfxStatFailed
  /\ log r.2 = log w /\ heap r.2 = heap w /\ params r.2 = params w
  /\ ready (torch (priv r.2)) = false.
Proof.
  intros (_ & Hm & Hf & _) Hr Hc Hfile. cbv zeta.
  assert (Hg : (getModelFilename host w).1 = Ok None).
  { unfold getModelFilename, bind, getInstanceData, get_params. cbn [fst snd].
    rewrite Hm, Hf, Hc. cbn. destruct Hfile as [-> | ->]; reflexivity. }
  pose proof (modelSetup_trace host w Hr) as H. unfold post, setup_outcome in H.
  rewrite Hg in H.
  destruct H as [(E & _ & Hk) | (file & [=] & _)].
  rewrite effectRender_setup_failed by (rewrite E; discriminate).
  destruct (session_kept_fields _ _ _ Hk) as (H1 & _).
  destruct Hk as (Hh & Hp & Hl & _). rewrite app_nil_r in Hl.
  rewrite H1, Hr. auto.
Qed.

Lemma effectRender_custom_without_file_witness :
  let host := Example.host_of Example.rvm in
  let w := Scenario.fresh_instance Scenario.custom_params in
  (effectRender host Example.no_image (IEEE.d_of_Z 1) w).1 = Ok kOfxStatFailed.
Proof.
  refine (proj1 (effectRender_custom_without_file (Example.host_of Example.rvm)
            Example.no_image (IEEE.d_of_Z 1)
            (Scenario.fresh_instance Scenario.custom_params) _ _ _ _)).
  - repeat split.
  - reflexivity.
  - reflexivity.
  - right. reflexivity.
Defined.

(** The device and the element type a load step leaves in the session
    are those the parameters select. *)
Lemma modelSetup_config (host : Host) (w : World) :
  ready (torch (priv w)) = false ->
  let dev := paramGetInt (params w) (deviceParam (priv w)) in
  let precision := paramGetInt (params w) (modelPrecisionParam (priv w)) in
  post (modelSetup host) w (fun _ w' =>
    device (torch (priv w'))
    = (if dev =? DEVICE_CPU then kCPU
       else if dev =? DEVICE_CUDA then kCUDA else device (torch (priv w)))
    /\ type (torch (priv w'))
       = (if precision =? MODEL_PRECISION_FLOAT16 then kFloat16
          else if precision =? MODEL_PRECISION_FLOAT32 then kFloat32
          else type (torch (priv w)))).
Proof.
  intros Hr dev precision.
  set (D := if dev =? DEVICE_CPU then _ else _).
  set (T := if precision =? MODEL_PRECISION_FLOAT16 then _ else _).
  unfold modelSetup.
  apply post_bind. run_prim. rewrite Hr.
  apply post_bind. run_prim. fold dev precision.
  eapply (post_bind_mid (fun _ w' =>
            device (torch (priv w')) = D
            /\ type (torch (priv w')) = type (torch (priv w)))).
  { subst D. repeat run_step; auto. }
  intros _ w1 [H1 H2].
  apply (post_bind_inv (fun w' => device (torch (priv w')) = D
                                  /\ type (torch (priv w')) = T)).
  { subst T. repeat run_step; cbn; auto. }
  clear w1 H1 H2. intros _ w1 H1.
  apply (post_bind_inv (fun w' => device (torch (priv w')) = D
                                  /\ type (torch (priv w')) = T)).
  { destruct (getModelFilename_path host w1) as (x & s & E). unfold post. rewrite E. exact H1. }
  clear w1 H1. intros model_file w1 H1.
  destruct model_file as [file |]; [| exact H1].
  apply (post_bind_inv (fun w' => device (torch (priv w')) = D
                                  /\ type (torch (priv w')) = T)).
  { eapply post_mono; [apply load_kept |].
    intros r w' (_ & _ & _ & _ & m & ->). exact H1. }
  clear w1 H1. intros loaded w1 H1.
  destruct (negb loaded); [exact H1 |].
  apply (post_bind_inv (fun w' => device (torch (priv w')) = D
                                  /\ type (torch (priv w')) = T)).
  { unfold post. destruct (modelClearHistory_frame w1) as (_ & _ & _ & _ & -> & -> & _).
    exact H1. }
  clear w1 H1. intros _ w1 H1.
  apply post_bind. run_prim. exact H1.
Qed.

(** A string that fits is not cut. *)
Lemma substring_fits (s : string) :
  forall n : nat, (String.length s <= n)%nat -> String.substring 0 n s = s.
Proof.
  induction s as [| c s IH]; intros n Hn.
  - destruct n; reflexivity.
  - destruct n as [| n]; [cbn in Hn; lia |].
    cbn [String.substring]. rewrite IH by (cbn in Hn; lia). reflexivity.
Qed.

(** X6: for the two built-in models and the two precisions, the load
    step on a session that is not ready loads the file of the bundle
    whose name carries the model and the precision, as [snprintf] left
    it in the buffer of [PATH_MAX] bytes: cut after [PATH_MAX - 1]
    bytes, and so the name itself when that is shorter than
    [PATH_MAX].  The element type it leaves in the session is the one
    of that file: Float16 for "fp16", Float32 for "fp32". *)
Theorem modelSetup_builtin (host : Host) (w : World) :
  handles_ok (priv w) -> ready (torch (priv w)) = false ->
  let model := paramGetInt (params w) "model" in
  let precision := paramGetInt (params w) "modelPrecision" in
  model = MODEL_MOBILENETV3 \/ model = MODEL_RESNET50 ->
  precision = MODEL_PRECISION_FLOAT16 \/ precision = MODEL_PRECISION_FLOAT32 ->
  let w' := (modelSetup host w).2 in
  let name := if model =? MODEL_MOBILENETV3 then "mobilenetv3" else "resnet50" in
  let half := precision =? MODEL_PRECISION_FLOAT16 in
  let file := gBundlePath host +:+ "/Contents/Resources/rvm_" +:+ name
                +:+ "_fp" +:+ (if half then "16" else "32") +:+ ".torchscript" in
  log w' = log w ++ [EvLoad (String.substring 0 (PATH_MAX host - 1) file)]
  /\ ((String.length file < PATH_MAX host)%nat -> log w' = log w ++ [EvLoad file])
  /\ type (torch (priv w')) = (if half then kFloat16 else kFloat32).
Proof.
  intros Hh Hr model precision Hm Hp. cbv zeta.
  pose proof (modelSetup_config host w Hr) as Hc. cbv zeta in Hc.
  pose proof (modelSetup_trace host w Hr) as Ht.
  destruct Hh as (_ & Hhm & Hhf & Hhp & _).
  unfold post in *. rewrite Hhp in Hc. fold precision in Hc.
  destruct Hc as [_ Hty].
  set (file := gBundlePath host +:+ "/Contents/Resources/rvm_"
                 +:+ (if model =? MODEL_MOBILENETV3 then "mobilenetv3" else "resnet50")
                 +:+ "_fp"
                 +:+ (if precision =? MODEL_PRECISION_FLOAT16 then "16" else "32")
                 +:+ ".torchscript").
  assert (Hg : (getModelFilename host w).1
               = Ok (Some (String.substring 0 (PATH_MAX host - 1) file))).
  { unfold getModelFilename, bind, getInstanceData, get_params, snprintf_path, return_path.
    cbn [fst snd]. rewrite Hhm, Hhp. fold model precision. subst file.
    destruct Hm as [-> | ->], Hp as [-> | ->]; reflexivity. }
  assert (Hlog : log (modelSetup host w).2
                 = log w ++ [EvLoad (String.substring 0 (PATH_MAX host - 1) file)]).
  { destruct Ht as [(_ & E & _) | (f & E & Ht)]; [congruence |].
    rewrite Hg in E. injection E as <-.
    destruct Ht as [(_ & _ & _ & Hl & _) | (_ & w1 & (_ & _ & Hl & _) & ->)]; [exact Hl |].
    destruct (modelClearHistory_frame w1) as (_ & _ & Fl & _).
    cbn [log set_priv]. rewrite Fl. exact Hl. }
  split; [exact Hlog |]. split.
  - intros Hlen. rewrite Hlog, substring_fits by lia. reflexivity.
  - rewrite Hty. destruct Hp as [-> | ->]; reflexivity.
Qed.

Lemma modelSetup_builtin_witness :
  let host := Example.host_of Example.rvm in
  let w := Scenario.fresh_instance (Example.param_set COLOR_SRC_MODEL 0) in
  log (modelSetup host w).2
  = [EvLoad "/bundle/Contents/Resources/rvm_mobilenetv3_fp32.torchscript"]
  /\ type (torch (priv (modelSetup host w).2)) = kFloat32.
Proof.
  destruct (modelSetup_builtin (Example.host_of Example.rvm)
              (Scenario.fresh_instance (Example.param_set COLOR_SRC_MODEL 0)))
    as (_ & Hfile & Hty).
  - repeat split.
  - reflexivity.
  - left. reflexivity.
  - right. reflexivity.
  - split; [| exact Hty]. apply Hfile. vm_compute. lia.
Defined.

(** The clear operation leaves the last-used time NaN, whatever the
    history was. *)
Lemma modelClearHistory_nan (w : World) :
  IEEE.is_nan (rn_time (torch (priv (modelClearHistory w).2))) = true.
Proof.
  unfold modelClearHistory, bind, getInstanceData. cbn.
  destruct (IEEE.is_nan (rn_time (torch (priv w)))) eqn:En; cbn; [exact En | reflexivity].
Qed.

(** No time compares equal to a last-used time that is NaN, or to that
    time plus one. *)
Lemma reuse_tested_nan (time : OfxTime) (t : _torch) :
  IEEE.is_nan (rn_time t) = true -> reuse_tested time t = false.
Proof.
  unfold reuse_tested, IEEE.is_nan. destruct (rn_time t); try discriminate. intros _.
  destruct time; cbn; rewrite ?andb_false_r; reflexivity.
Qed.

(** A load step that succeeds on a session that was not ready, whatever
    the history was. *)
Lemma modelSetup_not_ready_nan (host : Host) (w : World) :
  ready (torch (priv w)) = false ->
  (modelSetup host w).1 = Ok kOfxStatOK ->
  let w' := (modelSetup host w).2 in
  ready (torch (priv w')) = true
  /\ IEEE.is_nan (rn_time (torch (priv w'))) = true
  /\ exists file, log w' = log w ++ [EvLoad file].
Proof.
  intros Hr Hst. cbv zeta.
  pose proof (modelSetup_trace host w Hr) as H. unfold post in H.
  destruct (modelSetup host w) as [r w']. cbn [fst snd] in *. subst r.
  destruct H as [([=] & _) | (file & Hf & [([[=] | [[=] | (e & [=] & _)]] & _)
                                          | (_ & w1 & Hk & ->)])].
  destruct (modelClearHistory_frame w1) as (_ & _ & Fl & _).
  destruct Hk as (_ & _ & Hl & _).
  cbn [priv set_priv torch set_torch log ready set_ready rn_time].
  split; [reflexivity |]. split; [apply modelClearHistory_nan |].
  exists file. congruence.
Qed.

(** X7: a user edit of one of the parameters "device", "model",
    "modelPrecision", "modelFile" marks the session not ready and leaves
    the recurrent history as it is.  The next load step that succeeds
    loads one model file and leaves the last-used time NaN, so that the
    forward pass that follows is given the input alone, at whatever
    time; if the history was whole or empty before the edit, it is
    empty after that load. *)
Theorem model_param_edit_reloads (host : Host) (name : string) (w : World) :
  name ∈ ["device"; "model"; "modelPrecision"; "modelFile"] ->
  let r := effectInstanceChanged host kOfxChangeUserEdited kOfxTypeParameter name w in
  r.1 = Ok kOfxStatOK
  /\ ready (torch (priv r.2)) = false
  /\ rn_time (torch (priv r.2)) = rn_time (torch (priv w))
  /\ rn_0 (torch (priv r.2)) = rn_0 (torch (priv w))
  /\ rn_1 (torch (priv r.2)) = rn_1 (torch (priv w))
  /\ rn_2 (torch (priv r.2)) = rn_2 (torch (priv w))
  /\ rn_3 (torch (priv r.2)) = rn_3 (torch (priv w))
  /\ params r.2 = params w /\ heap r.2 = heap w /\ log r.2 = log w
  /\ ((modelSetup host r.2).1 = Ok kOfxStatOK ->
      let w' := (modelSetup host r.2).2 in
      ready (torch (priv w')) = true
      /\ IEEE.is_nan (rn_time (torch (priv w'))) = true
      /\ (forall time, reuse_tested time (torch (priv w')) = false)
      /\ (exists file, log w' = log w ++ [EvLoad file])
      /\ (hist_inv (torch (priv w)) -> hist_empty (torch (priv w')))).
Proof.
  intros Hn. cbv zeta.
  assert (E : effectInstanceChanged host kOfxChangeUserEdited kOfxTypeParameter name w
              = (Ok kOfxStatOK,
                 set_priv (set_torch (set_ready false (torch (priv w))) (priv w)) w)).
  { repeat (apply elem_of_cons in Hn as [-> | Hn]; [reflexivity |]). inversion Hn. }
  rewrite E. cbn [fst snd].
  do 10 (split; [reflexivity |]).
  intros Hok.
  destruct (modelSetup_not_ready_nan host
              (set_priv (set_torch (set_ready false (torch (priv w))) (priv w)) w)
              eq_refl Hok) as (Hrd & Hnan & Hl).
  split; [exact Hrd |]. split; [exact Hnan |].
  split; [intros time; apply reuse_tested_nan, Hnan |].
  split; [exact Hl |].
  intros Hinv.
  exact (proj1 (modelSetup_not_ready_ok host
                  (set_priv (set_torch (set_ready false (torch (priv w))) (priv w)) w)
                  eq_refl Hinv Hok)).
Qed.

(** After a rendered frame an edit of the device leaves the session not
    ready, its history still whole. *)
Lemma model_param_edit_reloads_witness :
  let host := Example.host_of Example.rvm in
  let r := effectInstanceChanged host kOfxChangeUserEdited kOfxTypeParameter "device"
             Example.rendered in
  ready (torch (priv r.2)) = false
  /\ rn_0 (torch (priv r.2)) = rn_0 (torch (priv Example.rendered)).
Proof.
  destruct (model_param_edit_reloads (Example.host_of Example.rvm) "device"
              Example.rendered) as (_ & Hr & _ & H0 & _).
  - repeat constructor.
  - split; [exact Hr | exact H0].
Defined.

(** ** The forward pass *)

Lemma model_forward_outputs (inputs : list Tensor) (kwargs : Kwargs) (w : World) :
  model_ok (model (torch (priv w))) ->
  post (model_forward inputs kwargs) w (fun r w' =>
    priv w' = priv w /\ params w' = params w
    /\ forall outputs, r = Ok outputs -> (6 <= length outputs)%nat).
Proof.
  intros Hm. unfold post, model_forward, bind, getInstanceData, emit, liftH. cbn [fst snd heap priv].
  destruct (forward _ inputs kwargs _) as [r hp] eqn:E. cbn.
  repeat split. intros outputs ->. apply (Hm _ _ _ _ _ E).
Qed.



(** ** The bridge from pixel buffers to tensors *)

Lemma write_last (hp : Heap) (s : gmap Z scalar) (t : TensorImpl) (vs : list scalar) :
  t_blk t = length hp -> exists s', write (hp ++ [s]) t vs = hp ++ [s'].
Proof.
  intros E. unfold write. rewrite E, lookup_app_r, Nat.sub_diag by lia. cbn.
  eexists. rewrite insert_app_r_alt, Nat.sub_diag by lia. reflexivity.
Qed.

Lemma imageToTensor_tail (p : Ptr) (a b c s0 s1 s2 : Z) (dt : Dtype) (sf : spec_float)
    (td : Device) (tt : Dtype) (hp : Heap) (r : Res Tensor) (hp' : Heap) :
  SFeqb sf f_1 = true \/ is_floating dt = false ->
  (let* rv := liftR (from_blob p [a; b; c] [s0; s1; s2] dt) in
   let* rv := to rv td tt in
   let* _ := if negb (SFeqb sf f_1) then mul_scalar_ rv sf else ret () in
   let* rv := liftR (permute rv [2; 0; 1]%nat) in
   let* rv := liftR (unsqueeze rv 0) in
   ret rv) hp = (r, hp') ->
  (hp' = hp \/ exists s, hp' = hp ++ [s])
  /\ forall t, r = Ok t ->
       exists ti, t = Some ti
         /\ t_sizes ti = [1; c; a; b] /\ t_dtype ti = tt /\ t_device ti = td
         /\ ((td = kCPU /\ tt = dt /\ t_blk ti = p_blk p /\ hp' = hp)
             \/ ((td <> kCPU \/ tt <> dt) /\ t_blk ti = length hp
                 /\ exists s, hp' = hp ++ [s])).
Proof.
  intros Hsf. unfold bind at 1. unfold liftR at 1, from_blob.
  destruct (forallb _ _ && _); [| intros [= <- <-]; split; [auto | discriminate]].
  unfold bind at 1. unfold to. cbn [t_device t_dtype t_sizes].
  destruct (decide (kCPU = td /\ dt = tt)) as [[<- <-] | Hne].
  - (* the view itself *)
    unfold ret at 1.
    destruct (SFeqb sf f_1) eqn:Esf; cbn [negb].
    + cbn. intros [= <- <-]. split; [auto |]. intros t [= <-].
      eexists. split; [reflexivity |]. cbn. repeat split. left. auto.
    + destruct Hsf as [? | Hfl]; [discriminate |].
      unfold bind at 1, mul_scalar_. cbn [t_dtype]. rewrite Hfl. cbn.
      intros [= <- <-]. split; [auto | discriminate].
  - (* a converted copy *)
    destruct (read hp _) as [vs |] eqn:Er; [| intros [= <- <-]; split; [auto | discriminate]].
    unfold fresh. cbn [t_sizes].
    set (s := store_all _ _).
    set (t1 := {| t_blk := length hp |}).
    assert (Hd : td <> kCPU \/ tt <> dt).
    { destruct (decide (kCPU = td)) as [<- |]; [| auto].
      right. intros ->. apply Hne. auto. }
    destruct (SFeqb sf f_1) eqn:Esf; cbn [negb].
    + cbn. intros [= <- <-]. split; [eauto |]. intros t [= <-].
      eexists. split; [reflexivity |]. cbn. repeat split. right. eauto.
    + unfold bind at 1, mul_scalar_.
      destruct (negb (is_floating (t_dtype t1)));
        [cbn; intros [= <- <-]; split; [eauto | discriminate] |].
      destruct (negb (bool_decide _));
        [cbn; intros [= <- <-]; split; [eauto | discriminate] |].
      destruct (read (hp ++ [s]) t1) as [vs' |];
        [| cbn; intros [= <- <-]; split; [eauto | discriminate]].
      destruct (write_last hp s t1 (map (fun v => mul_float_at (t_dtype t1) v sf) vs')
                  eq_refl) as [s' Es'].
      rewrite Es'. cbn. intros [= <- <-]. split; [eauto |]. intros t [= <-].
      eexists. split; [reflexivity |]. cbn. repeat split. right. eauto.
Qed.

Lemma imageToTensor_cases (img : ImageInfo) (td : Device) (tt : Dtype) (hp : Heap)
    (r : Res Tensor) (hp' : Heap) :
  imageToTensor img td tt hp = (r, hp') ->
  (hp' = hp \/ exists s, hp' = hp ++ [s])
  /\ forall t, r = Ok t ->
       match t with
       | None =>
           (components_nc (components img) = None \/ depth_dtype (pixelDepth img) = None)
           /\ hp' = hp
       | Some ti =>
           exists nc dt,
             components_nc (components img) = Some nc
             /\ depth_dtype (pixelDepth img) = Some dt
             /\ t_sizes ti = [1; nc; y2 (rect img) - y1 (rect img);
                              x2 (rect img) - x1 (rect img)]
             /\ t_dtype ti = tt /\ t_device ti = td
             /\ ((td = kCPU /\ tt = dt /\ t_blk ti = p_blk (ptr img) /\ hp' = hp)
                 \/ ((td <> kCPU \/ tt <> dt) /\ t_blk ti = length hp
                     /\ exists s, hp' = hp ++ [s]))
       end.
Proof.
  unfold imageToTensor, depth_dtype.
  destruct (components_nc (components img)) as [nc |];
    [| intros [= <- <-]; split; [auto | intros t [= <-]; auto]].
  assert (Hsf1 : SFeqb f_1 f_1 = true) by (vm_compute; reflexivity).
  repeat (destruct (strcmp (pixelDepth img) _ =? 0);
          [intros H; apply imageToTensor_tail in H; [| solve [auto]];
           destruct H as [Hh H]; split; [exact Hh |];
           intros t Ht; destruct (H t Ht) as (ti & -> & Hs & Hd & Hv & Hb);
           exists nc; eexists; repeat split; eauto |]).
  intros [= <- <-]; split; [auto | intros t [= <-]; auto].
Qed.

(** X9: whatever its outcome, [imageToTensor] leaves every block that
    existed before as it was: the heap afterwards is the heap before, or
    the heap before with one new block. *)
Theorem imageToTensor_keeps_memory (img : ImageInfo) (td : Device) (tt : Dtype) (hp : Heap) :
  let hp' := (imageToTensor img td tt hp).2 in
  hp' = hp \/ exists s, hp' = hp ++ [s].
Proof.
  cbv zeta. destruct (imageToTensor img td tt hp) as [r hp'] eqn:E.
  apply (imageToTensor_cases _ _ _ _ _ _ E).
Qed.





(** ** Memory written by the bridge and by a render *)

Lemma unchanged_except_refl X hp : unchanged_except X hp hp.
Proof. split; auto. Qed.

Lemma unchanged_except_trans X hp hp1 hp2 :
  unchanged_except X hp hp1 -> unchanged_except X hp1 hp2 -> unchanged_except X hp hp2.
Proof.
  intros [Hl H] [Hl' H']. split; [lia |].
  intros b Hb HX. rewrite H' by (auto; lia). auto.
Qed.

Lemma unchanged_except_app X hp l : unchanged_except X hp (hp ++ l).
Proof.
  split; [rewrite length_app; lia |]. intros b Hb _. apply lookup_app_l. exact Hb.
Qed.

Lemma unchanged_except_insert (X : nat -> Prop) hp i s :
  X i -> unchanged_except X hp (<[i := s]> hp).
Proof.
  intros Hi. split; [rewrite length_insert; lia |].
  intros b Hb HX. apply list_lookup_insert_ne. intros ->. auto.
Qed.

Lemma hframe_bind {A B} X (m : M Heap A) (k : A -> M Heap B) :
  hframe X m -> (forall a, hframe X (k a)) -> hframe X (bind m k).
Proof.
  intros Hm Hk hp. apply post_bind. eapply post_mono; [apply Hm |].
  intros [a | e |] hp1 H1; cbn; auto.
  eapply post_mono; [apply Hk |]. cbn. intros _ hp2 H2.
  eapply unchanged_except_trans; eassumption.
Qed.

Lemma hframe_ret {A} X (a : A) : hframe X (ret a).
Proof. intros hp. apply unchanged_except_refl. Qed.

Lemma hframe_liftR {A} X (r : Res A) : hframe X (liftR r).
Proof. intros hp. apply unchanged_except_refl. Qed.

Lemma hframe_to X (t : Tensor) (d : Device) (dt : Dtype) : hframe X (to t d dt).
Proof.
  intros hp. unfold post, to. destruct t as [ti |]; [| apply unchanged_except_refl].
  destruct (decide _); [apply unchanged_except_refl |].
  destruct (read hp ti); [| apply unchanged_except_refl].
  apply unchanged_except_app.
Qed.

Lemma hframe_contiguous X (t : Tensor) : hframe X (contiguous t).
Proof.
  intros hp. unfold post, contiguous. destruct t as [ti |]; [| apply unchanged_except_refl].
  destruct (is_contiguous ti); [apply unchanged_except_refl |].
  destruct (read hp ti); [| apply unchanged_except_refl].
  apply unchanged_except_app.
Qed.

Lemma hframe_mul_scalar_ (X : nat -> Prop) (t : Tensor) (sf : spec_float) :
  (forall ti, t = Some ti -> X (t_blk ti)) -> hframe X (mul_scalar_ t sf).
Proof.
  intros HX hp. unfold post, mul_scalar_. destruct t as [ti |]; [| apply unchanged_except_refl].
  destruct (negb (is_floating _)); [apply unchanged_except_refl |].
  destruct (negb (bool_decide _)); [apply unchanged_except_refl |].
  destruct (read hp ti); [| apply unchanged_except_refl].
  cbn. unfold write. destruct (hp !! t_blk ti); [| apply unchanged_except_refl].
  apply unchanged_except_insert. auto.
Qed.

Lemma hframe_memcpy (X : nat -> Prop) (dst src : Ptr) (n : Z) :
  X (p_blk dst) -> hframe X (memcpy dst src n).
Proof.
  intros HX hp. unfold post, memcpy.
  destruct (hp !! p_blk src); [| apply unchanged_except_refl].
  destruct (hp !! p_blk dst); [| apply unchanged_except_refl].
  destruct (n <? 0); [apply unchanged_except_refl |].
  destruct (copy_cells _ _ _ _ _); [| apply unchanged_except_refl].
  destruct (forallb _ _); [| apply unchanged_except_refl].
  apply unchanged_except_insert. exact HX.
Qed.

Lemma hframe_copy_rows (X : nat -> Prop) (rows : nat) (dst src : Ptr) (n ss ds : Z) :
  X (p_blk dst) -> hframe X (copy_rows rows dst src n ss ds).
Proof.
  revert dst src. induction rows as [| rows IH]; intros dst src HX; cbn [copy_rows].
  - apply hframe_ret.
  - apply hframe_bind; [apply hframe_memcpy, HX | intros _; apply IH, HX].
Qed.

Lemma squeeze_blk (t t' : Tensor) (d : nat) (ti' : TensorImpl) :
  squeeze t d = Ok t' -> t' = Some ti' ->
  exists ti, t = Some ti /\ t_blk ti' = t_blk ti.
Proof.
  unfold squeeze. destruct t as [ti |]; [| discriminate].
  intros H ->. exists ti. split; [reflexivity |].
  destruct (t_sizes ti !! d).
  - destruct (_ =? 1); injection H as <-; reflexivity.
  - destruct (_ && _); [injection H as <-; reflexivity | discriminate].
Qed.

Lemma permute_blk (t t' : Tensor) (dims : list nat) (ti' : TensorImpl) :
  permute t dims = Ok t' -> t' = Some ti' ->
  exists ti, t = Some ti /\ t_blk ti' = t_blk ti.
Proof.
  unfold permute. destruct t as [ti |]; [| discriminate].
  intros H ->. exists ti. split; [reflexivity |].
  destruct (_ && _); [injection H as <-; reflexivity | discriminate].
Qed.

Lemma tensorToImage_hframe (X : nat -> Prop) (img : ImageInfo) (t : Tensor) :
  X (p_blk (ptr img)) ->
  (depth_dtype (pixelDepth img) <> Some kFloat16 ->
   depth_dtype (pixelDepth img) <> Some kFloat32 ->
   forall ti, t = Some ti -> X (t_blk ti)) ->
  hframe X (tensorToImage img t).
Proof.
  intros Hdst Ht.
  assert (Hsf1 : SFeqb f_1 f_1 = true) by (vm_compute; reflexivity).
  unfold tensorToImage.
  destruct (components_nc (components img)) as [nc |]; [| apply hframe_ret].
  assert (Htail : forall vs dt sf,
            (SFeqb sf f_1 = true
             \/ (depth_dtype (pixelDepth img) <> Some kFloat16
                 /\ depth_dtype (pixelDepth img) <> Some kFloat32)) ->
            hframe X
              (let* t := liftR (squeeze t 0) in
               let* t := liftR (permute t [1; 2; 0]%nat) in
               let* _ := if negb (SFeqb sf f_1) then mul_scalar_ t sf else ret tt in
               let* t := to t kCPU dt in
               let* t := contiguous t in
               let* p_src := liftR (data_ptr_float t) in
               let p_dst := ptr_add (ptr img)
                              (rowBytes img * y1 (rect img) + vs * x1 (rect img)) in
               copy_rows (Z.to_nat (y2 (rect img) - y1 (rect img))) p_dst p_src
                 ((x2 (rect img) - x1 (rect img)) * nc * vs)
                 (vs * nth 0 (strides t) 0) (rowBytes img))).
  { intros vs dt sf Hsf.
    intros hp. apply post_bind. unfold post at 1, liftR. cbn [fst snd].
    destruct (squeeze t 0) as [t1 | e |] eqn:E1; try apply unchanged_except_refl.
    apply post_bind. unfold post at 1, liftR. cbn [fst snd].
    destruct (permute t1 _) as [t2 | e |] eqn:E2; try apply unchanged_except_refl.
    revert hp. apply hframe_bind.
    { destruct (SFeqb sf f_1) eqn:Esf; cbn [negb]; [apply hframe_ret |].
      destruct Hsf as [? | [H16 H32]]; [discriminate |].
      apply hframe_mul_scalar_. intros ti2 ->.
      destruct (permute_blk _ _ _ _ E2 eq_refl) as (ti1 & -> & Hb2).
      destruct (squeeze_blk _ _ _ _ E1 eq_refl) as (ti & -> & Hb1).
      rewrite Hb2, Hb1. apply (Ht H16 H32 ti eq_refl). }
    intros _. apply hframe_bind; [apply hframe_to | intros t3].
    apply hframe_bind; [apply hframe_contiguous | intros t4].
    apply hframe_bind; [apply hframe_liftR | intros p_src].
    apply hframe_copy_rows. exact Hdst. }
  unfold depth_dtype in Htail.
  repeat (destruct (strcmp (pixelDepth img) _ =? 0);
          [apply Htail; first [left; exact Hsf1 | right; split; discriminate] |]).
  apply hframe_ret.
Qed.

(** X12: when it returns or throws, all its accesses having stayed
    inside the blocks they were aimed at, [tensorToImage] has changed no
    block that existed before other than the block of the destination
    image and, for the byte and short depths (where it scales in
    place), the block of the tensor it is given.  (An access outside
    its block is undefined behaviour, and nothing is said of it.) *)
Theorem tensorToImage_frame (img : ImageInfo) (t : Tensor) (hp : Heap) (b : nat) :
  (tensorToImage img t hp).1 <> Fault ->
  (b < length hp)%nat ->
  b <> p_blk (ptr img) ->
  (depth_dtype (pixelDepth img) = Some kFloat16
   \/ depth_dtype (pixelDepth img) = Some kFloat32
   \/ forall ti, t = Some ti -> b <> t_blk ti) ->
  (tensorToImage img t hp).2 !! b = hp !! b.
Proof.
  intros _ Hb Hdst Ht.
  assert (H : hframe (fun b' => b' <> b) (tensorToImage img t)).
  { apply tensorToImage_hframe; [auto |].
    intros H16 H32 ti E. destruct Ht as [? | [? | Ht]]; [contradiction | contradiction |].
    intros Hti. apply (Ht ti E). symmetry. exact Hti. }
  apply (H hp); [exact Hb |]. intros Hn. apply Hn. reflexivity.
Qed.

Lemma tensorToImage_frame_witness :
  let img := RoundTrip.image 1 kOfxBitDepthFloat 4 in
  let hp := [Example.block kFloat32 [SFloat f_1; SFloat Example.half];
             Example.block kFloat32 [SFloat f_1; SFloat f_1];
             Example.block kFloat32 [SFloat Example.quarter]] in
  let t := Some {| t_blk := 0; t_off := 0; t_sizes := [1; 1; 1; 2];
                   t_strides := [1; 1; 2; 1]; t_dtype := kFloat32; t_device := kCPU |} in
  (tensorToImage img t hp).2 !! 2%nat = Some (Example.block kFloat32 [SFloat Example.quarter]).
Proof.
  refine (tensorToImage_frame (RoundTrip.image 1 kOfxBitDepthFloat 4) _ _ 2 _ _ _ _).
  - vm_compute. discriminate.
  - cbn. lia.
  - discriminate.
  - right. left. vm_compute. reflexivity.
Defined.

Lemma unchanged_step (hp0 hp hp' : Heap) (X : nat -> Prop) :
  unchanged_except X hp0 hp ->
  unchanged_except (fun b => X b \/ (length hp0 <= b)%nat) hp hp' ->
  unchanged_except X hp0 hp'.
Proof.
  intros [Hl H] [Hl' H']. split; [lia |].
  intros b Hb HX. rewrite H'; [auto | lia | intros [? | ?]; [auto | lia]].
Qed.

Lemma hframe_repeat X (t : Tensor) (reps : list Z) : hframe X (repeat t reps).
Proof.
  intros hp. unfold post, repeat. destruct t as [ti |]; [| apply unchanged_except_refl].
  destruct (_ || _); [apply unchanged_except_refl |].
  destruct (read hp ti); [| apply unchanged_except_refl].
  apply unchanged_except_app.
Qed.

Lemma hframe_cat X (a b : Tensor) (d : nat) : hframe X (cat a b d).
Proof.
  intros hp. unfold post, cat.
  destruct a as [ta |], b as [tb |]; try apply unchanged_except_refl.
  destruct (_ && _); [| apply unchanged_except_refl].
  destruct (read hp ta), (read hp tb); try apply unchanged_except_refl.
  apply unchanged_except_app.
Qed.

Lemma hframe_mul_ (X : nat -> Prop) (a b : Tensor) :
  (forall ta, a = Some ta -> X (t_blk ta)) -> hframe X (mul_ a b).
Proof.
  intros HX hp. unfold post, mul_.
  destruct a as [ta |], b as [tb |]; try apply unchanged_except_refl.
  destruct (broadcast_reps _ _); [| apply unchanged_except_refl].
  destruct (_ && _); [| apply unchanged_except_refl].
  destruct (read hp ta), (read hp tb); try apply unchanged_except_refl.
  cbn. unfold write. destruct (hp !! t_blk ta); [| apply unchanged_except_refl].
  apply unchanged_except_insert. auto.
Qed.

Lemma repeat_fresh (t : Tensor) (reps : list Z) (hp : Heap) (t' : Tensor) (hp' : Heap) :
  repeat t reps hp = (Ok t', hp') -> forall ti, t' = Some ti -> t_blk ti = length hp.
Proof.
  unfold repeat. destruct t as [t0 |]; [| discriminate].
  destruct (_ || _); [discriminate |].
  destruct (read hp t0); [| discriminate].
  cbn. intros [= <- <-] ti [= <-]. reflexivity.
Qed.

Lemma cat_fresh (a b : Tensor) (d : nat) (hp : Heap) (t' : Tensor) (hp' : Heap) :
  cat a b d hp = (Ok t', hp') -> forall ti, t' = Some ti -> t_blk ti = length hp.
Proof.
  unfold cat. destruct a as [ta |], b as [tb |]; try discriminate.
  destruct (_ && _); [| discriminate].
  destruct (read hp ta), (read hp tb); try discriminate.
  cbn. intros [= <- <-] ti [= <-]. reflexivity.
Qed.

Lemma narrow_blk (t t' : Tensor) (dim : nat) (start len : Z) (ti' : TensorImpl) :
  narrow t dim start len = Ok t' -> t' = Some ti' ->
  exists ti, t = Some ti /\ t_blk ti' = t_blk ti.
Proof.
  unfold narrow. destruct t as [ti |]; [| discriminate].
  intros H ->. exists ti. split; [reflexivity |].
  destruct (t_sizes ti !! dim), (t_strides ti !! dim); try discriminate.
  destruct (_ && _); [injection H as <-; reflexivity | discriminate].
Qed.

(** A heap operation run on the heap of the world. *)
Lemma post_liftH_eq {A} (m : M Heap A) (w : World) (Q : Res A -> World -> Prop) :
  (forall r hp', m (heap w) = (r, hp') -> Q r (set_heap hp' w)) ->
  post (liftH m) w Q.
Proof.
  intros H. unfold post, liftH. destruct (m (heap w)) as [r hp']. cbn. apply H. reflexivity.
Qed.

Lemma frame_hframe {A} (hp0 : Heap) (X : nat -> Prop) (m : M Heap A) (w : World) :
  render_frame hp0 X w -> hframe (fun b => X b \/ (length hp0 <= b)%nat) m ->
  render_frame hp0 X (set_heap (m (heap w)).2 w).
Proof. intros HJ Hm. eapply unchanged_step; [exact HJ | apply Hm]. Qed.

Lemma inputToTensor_frame (hp0 : Heap) (X : nat -> Prop) (img : ImageInfo) (w : World) :
  render_frame hp0 X w ->
  post (inputToTensor img) w (fun r w' =>
    render_frame hp0 X w' /\ priv w' = priv w
    /\ forall t, r = Ok t ->
         (device (torch (priv w)) = kCPU ->
          depth_dtype (pixelDepth img) = Some (type (torch (priv w))) ->
          X (p_blk (ptr img))) ->
         allowed hp0 X t).
Proof.
  intros HJ. unfold post, inputToTensor. rewrite bind_getInstanceData.
  unfold bind, liftH.
  destruct (imageToTensor img _ _ (heap w)) as [r hp'] eqn:E.
  apply imageToTensor_cases in E as [Hh E].
  assert (HJ' : render_frame hp0 X (set_heap hp' w)).
  { destruct Hh as [-> | [s ->]]; [exact HJ |].
    eapply unchanged_except_trans; [exact HJ | apply unchanged_except_app]. }
  destruct r as [t0 | e |]; cbn [fst snd];
    [| split; [exact HJ' | split; [reflexivity | discriminate]] ..].
  specialize (E t0 eq_refl).
  destruct t0 as [ti |]; cbn [defined negb];
    [| cbn -[render_frame]; split; [exact HJ' | split; [reflexivity | discriminate]]].
  destruct E as (nc & dt & _ & Hdt & _ & _ & _ & Hb).
  assert (Ha : (device (torch (priv w)) = kCPU ->
                depth_dtype (pixelDepth img) = Some (type (torch (priv w))) ->
                X (p_blk (ptr img))) ->
               X (t_blk ti) \/ (length hp0 <= t_blk ti)%nat).
  { intros HX. destruct Hb as [(Hd & Ht & -> & _) | (_ & -> & _)].
    - left. apply HX; [exact Hd | rewrite Ht; exact Hdt].
    - right. apply HJ. }
  destruct (_ =? 3).
  { cbn -[render_frame]. split; [exact HJ' | split; [reflexivity |]].
    intros t [= <-] HX ti' [= <-]. auto. }
  destruct (_ =? 4);
    [| cbn -[render_frame]; split; [exact HJ' | split; [reflexivity | discriminate]]].
  unfold liftR. cbn [fst snd]. split; [exact HJ' | split; [reflexivity |]].
  intros t Ht HX ti' ->.
  destruct (narrow_blk _ _ _ _ _ _ Ht eq_refl) as (ti0 & [= <-] & ->). auto.
Qed.

Lemma runModel_frame (hp0 : Heap) (X : nat -> Prop) (time : OfxTime) (inputTensor : Tensor)
    (w : World) :
  render_frame hp0 X w -> model_fresh (model (torch (priv w))) ->
  post (runModel time inputTensor) w (fun r w' =>
    render_frame hp0 X w'
    /\ outputType (priv w') = outputType (priv w)
    /\ colorSource (priv w') = colorSource (priv w)
    /\ postmultiplyAlpha (priv w') = postmultiplyAlpha (priv w)
    /\ forall fp, r = Ok fp -> allowed hp0 X fp.1 /\ allowed hp0 X fp.2).
Proof.
  intros HJ Hm. unfold runModel. apply post_bind. run_prim.
  set (kwargs := if negb _ then _ else _).
  set (R := fun (outputs : list Tensor) (w' : World) =>
              render_frame hp0 X w' /\ outputType (priv w') = outputType (priv w)
              /\ colorSource (priv w') = colorSource (priv w)
              /\ postmultiplyAlpha (priv w') = postmultiplyAlpha (priv w)
              /\ forall ti, Some ti ∈ outputs -> (length hp0 <= t_blk ti)%nat).
  eapply (post_bind_mid R).
  { assert (H : forall inputs,
               post (model_forward inputs kwargs) w (fun r w' =>
                 match r with
                 | Ok a => R a w'
                 | _ => render_frame hp0 X w' /\ outputType (priv w') = outputType (priv w)
                        /\ colorSource (priv w') = colorSource (priv w)
                        /\ postmultiplyAlpha (priv w') = postmultiplyAlpha (priv w)
                 end)).
    { intros inputs. unfold post, model_forward, bind, getInstanceData, emit, liftH.
      cbn [fst snd heap priv].
      destruct (forward _ inputs kwargs (heap w)) as [r hp'] eqn:E.
      destruct (Hm _ _ _ _ _ E) as [Hu Hf].
      assert (HJ' : unchanged_except X hp0 hp').
      { eapply unchanged_except_trans; [exact HJ |].
        destruct Hu as [Hl Hu]. split; [exact Hl |]. intros b Hb _. apply Hu; auto. }
      destruct r as [outputs | e |]; cbn -[render_frame]; unfold R; cbn -[render_frame];
        repeat (split; [first [exact HJ' | reflexivity] |]); try first [exact HJ' | reflexivity].
      intros ti Hti. specialize (Hf outputs ti eq_refl Hti). destruct HJ as [Hl _]. lia. }
    destruct (_ && _).
    - eapply post_mono; [apply H |]. intros [a | e |] ? ?; cbn; [assumption | | ].
      all: intuition discriminate.
    - eapply post_mono; [apply H |]. intros [a | e |] ? ?; cbn; [assumption | | ].
      all: intuition discriminate. }
  intros outputs w1 (HJ1 & Ho & Hc & Hp & Hfresh).
  unfold post, bind, outputs_get, modify_torch, modify_priv, ret, throw.
  destruct outputs as [| o0 [| o1 [| o2 [| o3 [| o4 [| o5 rest]]]]]]; cbn -[render_frame].
  all: split; [exact HJ1 |]; split; [exact Ho |]; split; [exact Hc |]; split; [exact Hp |].
  all: try discriminate.
  intros fp [= <-]; cbn; split; intros ti ->; right; apply Hfresh; repeat constructor.
Qed.

Lemma composite_frame (hp0 : Heap) (X : nat -> Prop) (img : ImageInfo)
    (inputTensor fgr pha : Tensor) (w : World) :
  render_frame hp0 X w -> allowed hp0 X fgr -> allowed hp0 X pha ->
  (outputType (priv w) = OUTPUT_RGBA -> colorSource (priv w) = COLOR_SRC_INPUT ->
   postmultiplyAlpha (priv w) = true -> allowed hp0 X inputTensor) ->
  post (composite img inputTensor fgr pha) w (fun r w' =>
    render_frame hp0 X w' /\ forall t, r = Ok t -> allowed hp0 X t).
Proof.
  intros HJ Hf Hp Hi. unfold composite. apply post_bind. run_prim.
  assert (Hrep : forall n w1, render_frame hp0 X w1 ->
            post (liftH (repeat pha [1; n; 1; 1])) w1 (fun r w' =>
              render_frame hp0 X w' /\ forall t, r = Ok t -> allowed hp0 X t)).
  { intros n w1 HJ1. apply post_liftH_eq. intros r hp' E.
    pose proof (frame_hframe hp0 X _ w1 HJ1 (hframe_repeat _ pha [1; n; 1; 1])) as H.
    rewrite E in H. split; [exact H |].
    intros t -> ti ->. right. rewrite (repeat_fresh _ _ _ _ _ E ti eq_refl). apply HJ1. }
  destruct (outputType (priv w) =? OUTPUT_RGBA) eqn:Ergba.
  - apply Z.eqb_eq in Ergba.
    set (fg := if colorSource (priv w) =? COLOR_SRC_INPUT then inputTensor else fgr).
    eapply (post_bind_mid (fun _ w' => render_frame hp0 X w')).
    { destruct (postmultiplyAlpha (priv w)) eqn:Epm; [| run_prim; exact HJ].
      eapply (post_bind_mid (fun _ w' => render_frame hp0 X w')).
      { eapply post_mono; [apply Hrep, HJ |]. intros [a | e |] w' [H _];
          first [exact H | split; [exact H | discriminate]]. }
      intros a w1 HJ1. apply post_liftH_eq. intros r hp' E.
      assert (Hfg : allowed hp0 X fg).
      { subst fg. destruct (colorSource (priv w) =? COLOR_SRC_INPUT) eqn:Ec; [| exact Hf].
        apply Z.eqb_eq in Ec. auto. }
      pose proof (frame_hframe hp0 X _ w1 HJ1 (hframe_mul_ _ fg a Hfg)) as H.
      rewrite E in H. destruct r; first [exact H | split; [exact H | discriminate]]. }
    intros _ w1 HJ1. apply post_liftH_eq. intros r hp' E.
    pose proof (frame_hframe hp0 X _ w1 HJ1 (hframe_cat _ fg pha 1)) as H.
    rewrite E in H. split; [exact H |].
    intros t -> ti ->. right. rewrite (cat_fresh _ _ _ _ _ _ E ti eq_refl). apply HJ1.
  - destruct (outputType (priv w) =? OUTPUT_ALPHA); [| run_prim; split; [exact HJ | discriminate]].
    repeat (destruct (strcmp _ _ =? 0); [first [apply Hrep, HJ | idtac] |]).
    + run_prim. split; [exact HJ |]. intros t [= <-]. exact Hp.
    + run_prim. split; [exact HJ | discriminate].
Qed.

Lemma tensorToImage_wframe (hp0 : Heap) (X : nat -> Prop) (img : ImageInfo) (t : Tensor)
    (w : World) :
  render_frame hp0 X w -> X (p_blk (ptr img)) -> allowed hp0 X t ->
  post (liftH (tensorToImage img t)) w (fun _ w' => render_frame hp0 X w').
Proof.
  intros HJ Hd Ht. apply post_liftH_eq. intros r hp' E.
  assert (H : hframe (fun b => X b \/ (length hp0 <= b)%nat) (tensorToImage img t)).
  { apply tensorToImage_hframe; [auto |]. intros _ _ ti Eti. apply (Ht ti Eti). }
  pose proof (frame_hframe hp0 X _ w HJ H) as H'. rewrite E in H'. exact H'.
Qed.

Lemma fillImageInfos_ok (host : Host) (img : ImageInfo) (clip : string) (time : OfxTime)
    (w : World) (n : nat) :
  clipGetImage host clip time (h img) = (kOfxStatOK, Some n) ->
  fillImageInfos host img clip time w = (Ok (kOfxStatOK, image_of host n), (emit (EvGetImage n) w).2).
Proof. intros E. unfold fillImageInfos. rewrite E. reflexivity. Qed.

Lemma render_try_frame (host : Host) (time : OfxTime) (w : World) (ind : ImageInfo)
    (o i : nat) (X : nat -> Prop) :
  model_fresh (model (torch (priv w))) ->
  clipGetImage host (outputClip (priv w)) time (h ind) = (kOfxStatOK, Some o) ->
  clipGetImage host (inputClip (priv w)) time (h ind) = (kOfxStatOK, Some i) ->
  X (p_blk (ip_data (imageProps host o))) ->
  (outputType (priv w) = OUTPUT_RGBA -> colorSource (priv w) = COLOR_SRC_INPUT ->
   postmultiplyAlpha (priv w) = true -> device (torch (priv w)) = kCPU ->
   depth_dtype (ip_pixelDepth (imageProps host i)) = Some (type (torch (priv w))) ->
   X (p_blk (ip_data (imageProps host i)))) ->
  post (render_try host time) (w, {| outputImg := ind; inputImg := ind |})
       (fun _ wf' => render_frame (heap w) X wf'.1).
Proof.
  intros Hm Ho Hi HXo HXi. unfold render_try.
  apply post_bind. unfold post at 1, liftW, getInstanceData. cbn [fst snd].
  apply post_bind. unfold post at 1, get_frame. cbn [fst snd outputImg].
  apply post_bind. unfold post at 1, liftW. cbn [fst snd].
  rewrite (fillImageInfos_ok _ _ _ _ _ _ Ho). cbn [fst snd].
  apply post_bind. unfold post at 1, set_outputImg. cbn [fst snd inputImg].
  rewrite bool_decide_eq_true_2 by reflexivity. cbn [negb].
  apply post_bind. unfold post at 1, get_frame. cbn [fst snd inputImg].
  apply post_bind. unfold post at 1, liftW. cbn [fst snd].
  rewrite (fillImageInfos_ok _ _ _ _ _ _ Hi). cbn [fst snd].
  apply post_bind. unfold post at 1, set_inputImg. cbn [fst snd outputImg].
  rewrite bool_decide_eq_true_2 by reflexivity. cbn [negb].
  apply post_bind. unfold post at 1, get_frame. cbn [fst snd outputImg inputImg].
  set (w2 := (emit (EvGetImage i) (emit (EvGetImage o) w).2).2).
  assert (HJ : render_frame (heap w) X w2) by apply unchanged_except_refl.
  assert (Hp2 : priv w2 = priv w) by reflexivity.
  clearbody w2.
  set (fr := {| outputImg := image_of host o; inputImg := image_of host i |}).
  (* OFX Image -> Input tensor *)
  eapply (post_bind_mid (fun t wf' =>
            render_frame (heap w) X wf'.1 /\ priv wf'.1 = priv w
            /\ ((device (torch (priv w)) = kCPU ->
                 depth_dtype (ip_pixelDepth (imageProps host i))
                 = Some (type (torch (priv w))) ->
                 X (p_blk (ip_data (imageProps host i)))) ->
                allowed (heap w) X t))).
  { apply post_liftW. cbn [fst snd].
    eapply post_mono; [apply (inputToTensor_frame (heap w) X), HJ |].
    intros [t | e |] w' (HJ' & Hp' & Ha); cbn [fst]; [| exact HJ' ..].
    rewrite Hp2 in *. split; [exact HJ' |]. split; [exact Hp' |]. apply Ha. reflexivity. }
  clear w2 HJ Hp2. intros inputTensor [w3 fr3] (HJ & Hp3 & Ha). cbn [fst snd] in *.
  (* Run the model *)
  eapply (post_bind_mid (fun fp wf' =>
            render_frame (heap w) X wf'.1
            /\ outputType (priv wf'.1) = outputType (priv w)
            /\ colorSource (priv wf'.1) = colorSource (priv w)
            /\ postmultiplyAlpha (priv wf'.1) = postmultiplyAlpha (priv w)
            /\ allowed (heap w) X fp.1 /\ allowed (heap w) X fp.2)).
  { apply post_liftW. cbn [fst snd].
    eapply post_mono;
      [apply (runModel_frame (heap w) X); [exact HJ | rewrite Hp3; exact Hm] |].
    intros [fp | e |] w' (HJ' & H1 & H2 & H3 & Hfp); cbn [fst]; [| exact HJ' ..].
    rewrite Hp3 in *. destruct (Hfp fp eq_refl). auto 10. }
  clear w3 fr3 HJ Hp3. intros fp [w4 fr4] (HJ & H1 & H2 & H3 & Hf & Hph). cbn [fst snd] in *.
  (* Post process of output tensor depending on options *)
  eapply (post_bind_mid (fun t wf' =>
            render_frame (heap w) X wf'.1 /\ allowed (heap w) X t)).
  { apply post_liftW. cbn [fst snd].
    eapply post_mono; [apply (composite_frame (heap w) X); try assumption |].
    - rewrite H1, H2, H3. intros ? ? ?. apply Ha. intros ? ?. apply HXi; assumption.
    - intros [t | e |] w' (HJ' & Ht); cbn [fst]; [| exact HJ' ..]. auto. }
  clear w4 fr4 HJ H1 H2 H3. intros outputTensor [w5 fr5] (HJ & Ht). cbn [fst snd] in *.
  (* Output tensor -> OFX Image *)
  apply post_liftW. cbn [fst snd].
  apply tensorToImage_wframe; assumption.
Qed.

Lemma render_images_frame (host : Host) (time : OfxTime) (w : World) (ind : ImageInfo)
    (P : World -> Prop) :
  (forall w1 w2, heap w2 = heap w1 -> P w1 -> P w2) ->
  post (render_try host time) (w, {| outputImg := ind; inputImg := ind |})
       (fun _ wf' => P wf'.1) ->
  post (render_images host time) (w, {| outputImg := ind; inputImg := ind |})
       (fun _ wf' => P wf'.1).
Proof.
  intros HP Ht. unfold render_images, clipReleaseImage.
  apply (post_bind_inv (fun wf' : World * RenderFrame => P wf'.1)).
  { apply post_try_catch_inv.
    - apply (post_bind_inv (fun wf' : World * RenderFrame => P wf'.1));
        [exact Ht | intros ? ? H; exact H].
    - intros wf' H.
      apply (post_bind_inv (fun wf' : World * RenderFrame => P wf'.1)).
      + apply (liftW_inv _ P). unfold post, emit. cbn. eapply HP; [| exact H]. reflexivity.
      + intros ? ? H'. destruct (abort host =? 0); exact H'. }
  intros status wf1 HJ.
  repeat
    (lazymatch goal with
     | |- post (bind _ _) _ _ =>
         apply (post_bind_inv (fun wf' : World * RenderFrame => P wf'.1));
         [| clear HJ; intros ? ? HJ]
     | |- post (match ?o with Some _ => _ | None => _ end) _ _ => destruct o
     | |- post (liftW _) _ _ =>
         apply (liftW_inv _ P); unfold post, emit; cbn; eapply HP; [| exact HJ]; reflexivity
     | |- post _ _ _ => exact HJ
     end).
Qed.

(** X13: a render on a ready session, with both images delivered and a
    model that allocates what it returns and writes nowhere else, all
    accesses having stayed inside the blocks they were aimed at, changes
    no block of memory that existed before other than the block of the
    output image; the block of the input image included, unless the
    output is RGBA with the colour taken from the input and
    post-multiplied, on the CPU, with the element type of the session
    that of the input image.  (An access outside its block, as of a
    row copy that runs over the end of the output buffer, is undefined
    behaviour, and nothing is said of it.) *)
Theorem effectRender_frame (host : Host) (indeterminate : ImageInfo) (time : OfxTime)
    (w : World) (o i : nat) (b : nat) :
  (effectRender host indeterminate time w).1 <> Fault ->
  ready (torch (priv w)) = true ->
  model_fresh (model (torch (priv w))) ->
  clipGetImage host (outputClip (priv w)) time (h indeterminate) = (kOfxStatOK, Some o) ->
  clipGetImage host (inputClip (priv w)) time (h indeterminate) = (kOfxStatOK, Some i) ->
  (b < length (heap w))%nat ->
  b <> p_blk (ip_data (imageProps host o)) ->
  (b <> p_blk (ip_data (imageProps host i))
   \/ outputType (priv w) <> OUTPUT_RGBA
   \/ colorSource (priv w) <> COLOR_SRC_INPUT
   \/ postmultiplyAlpha (priv w) = false
   \/ device (torch (priv w)) <> kCPU
   \/ depth_dtype (ip_pixelDepth (imageProps host i)) <> Some (type (torch (priv w)))) ->
  heap (effectRender host indeterminate time w).2 !! b = heap w !! b.
Proof.
  intros _ Hr Hm Ho Hi Hb Hbo Hbi.
  rewrite (effectRender_ready _ _ _ _ Hr). cbv zeta. cbn [snd].
  pose proof (render_images_frame host time w indeterminate
                (render_frame (heap w) (fun b' => b' <> b))) as H.
  unfold post in H. apply H; auto.
  - intros w1 w2 E. unfold render_frame. rewrite E. auto.
  - apply (render_try_frame host time w indeterminate o i); auto.
    intros H1 H2 H3 H4 H5 E.
    destruct Hbi as [Hn | [? | [? | [? | [? | ?]]]]]; try contradiction; [| congruence].
    apply Hn. symmetry. exact E.
Qed.

(** The example model allocates what it returns. *)
Lemma full_fresh (sizes : list Z) (v : spec_float) (hp : Heap) :
  exists ti s, Example.full sizes v hp = (Ok (Some ti), hp ++ [s]) /\ t_blk ti = length hp.
Proof. unfold Example.full, fresh. do 2 eexists. split; reflexivity. Qed.

Lemma rvm_model_fresh : model_fresh Example.rvm.
Proof.
  intros inputs kwargs hp r hp'. cbn [forward Example.rvm]. unfold bind, ret.
  destruct (full_fresh [1; 3; 1; 1] f_1 hp) as (t0 & s0 & -> & E0).
  destruct (full_fresh [1; 1; 1; 1] Example.half (hp ++ [s0])) as (t1 & s1 & -> & E1).
  destruct (full_fresh [1; 1; 1; 1] f_1 ((hp ++ [s0]) ++ [s1])) as (t2 & s2 & -> & E2).
  destruct (full_fresh [1; 1; 1; 1] f_1 (((hp ++ [s0]) ++ [s1]) ++ [s2]))
    as (t3 & s3 & -> & E3).
  destruct (full_fresh [1; 1; 1; 1] f_1 ((((hp ++ [s0]) ++ [s1]) ++ [s2]) ++ [s3]))
    as (t4 & s4 & -> & E4).
  destruct (full_fresh [1; 1; 1; 1] f_1 (((((hp ++ [s0]) ++ [s1]) ++ [s2]) ++ [s3]) ++ [s4]))
    as (t5 & s5 & -> & E5).
  intros [= <- <-]. split.
  - rewrite <- !app_assoc. apply unchanged_except_app.
  - intros outputs ti [= <-] Hti. rewrite !length_app in *. cbn [length] in *.
    repeat (apply elem_of_cons in Hti as [[= ->] | Hti]; [lia |]). inversion Hti.
Qed.

Lemma effectRender_frame_witness :
  let host := Example.host_of Example.rvm in
  let w := Example.rendered in
  heap (effectRender host Example.no_image (IEEE.d_of_Z 2) w).2 !! 0%nat = heap w !! 0%nat.
Proof.
  refine (effectRender_frame (Example.host_of Example.rvm) Example.no_image (IEEE.d_of_Z 2)
            Example.rendered 1 0 0 _ _ _ _ _ _ _ _).
  - vm_compute. discriminate.
  - vm_compute. reflexivity.
  - assert (E : model (torch (priv Example.rendered)) = Example.rvm)
      by (vm_compute; reflexivity).
    rewrite E. exact rvm_model_fresh.
  - reflexivity.
  - reflexivity.
  - vm_compute. lia.
  - discriminate.
  - right. right. left. vm_compute. discriminate.
Defined.

(** ** Change notifications and cached parameters *)

(** X14: [effectInstanceChanged] changes nothing and replies
    kOfxStatReplyDefault when the change is not a user edit, when the
    changed object is neither a clip nor a parameter, and for a parameter
    other than the five it watches. *)
Theorem effectInstanceChanged_ignored (host : Host) (reason type name : string) (w : World) :
  reason <> kOfxChangeUserEdited
  \/ (type <> kOfxTypeClip /\ type <> kOfxTypeParameter)
  \/ (type = kOfxTypeParameter
      /\ name ∉ ["device"; "model"; "modelPrecision"; "modelFile"; "downsampleRatio"]) ->
  effectInstanceChanged host reason type name w = (Ok kOfxStatReplyDefault, w).
Proof.
  unfold effectInstanceChanged.
  intros [Hr | [[Hc Hp] | [-> Hn]]].
  - rewrite (strcmp_ne _ _ Hr). reflexivity.
  - rewrite (strcmp_ne _ _ Hc), (strcmp_ne _ _ Hp).
    destruct (strcmp reason _ =? 0); reflexivity.
  - destruct (strcmp reason _ =? 0); [| reflexivity]. cbn [negb].
    assert (H : forall s, s ∈ ["device"; "model"; "modelPrecision"; "modelFile";
                               "downsampleRatio"] -> (strcmp name s =? 0) = false).
    { intros s Hs. apply strcmp_ne. intros ->. auto. }
    rewrite (H "device"), (H "model"), (H "modelPrecision"), (H "modelFile"),
      (H "downsampleRatio")
      by (repeat constructor).
    reflexivity.
Qed.

Lemma effectInstanceChanged_ignored_witness :
  effectInstanceChanged (Example.host_of Example.rvm) kOfxChangePluginEdited
    kOfxTypeParameter "device" Example.rendered
  = (Ok kOfxStatReplyDefault, Example.rendered).
Proof.
  apply (effectInstanceChanged_ignored (Example.host_of Example.rvm)
           kOfxChangePluginEdited kOfxTypeParameter "device" Example.rendered).
  left. discriminate.
Defined.

(** X15: after [effectEndInstanceChanged], for whatever reason, the four
    cached values are those the parameters hold then; the session, the
    two matte flags, memory and the log are untouched, and so are the
    parameters unless the reason is a user edit. *)
Theorem effectEndInstanceChanged_snapshot (reason : string) (w : World) :
  let r := effectEndInstanceChanged reason w in
  let p := priv r.2 in
  let ps := params r.2 in
  r.1 = Ok kOfxStatOK
  /\ downsampleRatio p = paramGetDouble ps (downsampleRatioParam p)
  /\ outputType p = paramGetInt ps (outputTypeParam p)
  /\ colorSource p = paramGetInt ps (colorSourceParam p)
  /\ postmultiplyAlpha p = negb (paramGetInt ps (postmultiplyAlphaParam p) =? 0)
  /\ torch p = torch (priv w)
  /\ hasGarbageMatte p = hasGarbageMatte (priv w)
  /\ hasSolidMatte p = hasSolidMatte (priv w)
  /\ heap r.2 = heap w /\ log r.2 = log w
  /\ (reason <> kOfxChangeUserEdited -> params r.2 = params w).
Proof.
  cbv zeta. unfold effectEndInstanceChanged.
  destruct (strcmp reason kOfxChangeUserEdited =? 0) eqn:E.
  - unfold updateParamsValidity, setParamEnabledness, bind, getInstanceData, get_params,
      modify_params, modify_priv, ret. cbn [fst snd priv params].
    destruct (_ =? DEVICE_CPU); [| destruct (_ =? DEVICE_CUDA)]; cbn; repeat split.
    all: intros H; rewrite (strcmp_ne _ _ H) in E; discriminate.
  - cbn. repeat split.
Qed.

(** X16: [updateParamsValidity] is idempotent, touches neither memory
    nor instance data nor the log, and changes the value of no parameter
    other than "modelPrecision". *)
Theorem updateParamsValidity_idempotent (w : World) :
  handles_ok (priv w) ->
  let w1 := (updateParamsValidity w).2 in
  updateParamsValidity w1 = (Ok tt, w1)
  /\ heap w1 = heap w /\ priv w1 = priv w /\ log w1 = log w
  /\ forall name, name <> "modelPrecision" ->
       values (params w1) !! name = values (params w) !! name.
Proof.
  intros Hh. cbv zeta.
  pose proof (updateParamsValidity_params w Hh) as E. cbv zeta in E. rewrite E.
  cbn [snd].
  assert (Hh1 : forall ps, handles_ok (priv (set_params ps w))) by (intros; exact Hh).
  split.
  - rewrite updateParamsValidity_params by apply Hh1. cbv zeta.
    cbn [params set_params]. f_equal. unfold set_params. cbn [heap priv log]. f_equal.
    unfold paramGetInt, propSetEnabled, paramSetValue. cbn [values enabled].
    destruct (match values (params w) !! "device" with Some (PInt z) => z | _ => 0 end
              =? DEVICE_CPU) eqn:Ecpu;
      [| destruct (match values (params w) !! "device" with Some (PInt z) => z | _ => 0 end
                   =? DEVICE_CUDA) eqn:Ecuda];
      cbn [values enabled]; simplify_map_eq; rewrite ?Ecpu, ?Ecuda; cbn [values enabled].
    all: f_equal; apply map_eq; intros k.
    all: destruct (decide (k = "postmultiplyAlpha")) as [-> |];
           [simplify_map_eq; reflexivity |].
    all: destruct (decide (k = "colorSource")) as [-> |];
           [simplify_map_eq; reflexivity |].
    all: destruct (decide (k = "modelFile")) as [-> |];
           [simplify_map_eq; reflexivity |].
    all: destruct (decide (k = "modelPrecision")) as [-> |];
           [simplify_map_eq; reflexivity |].
    all: simplify_map_eq; reflexivity.
  - repeat split. intros name Hn. cbn [params set_params].
    unfold paramGetInt, propSetEnabled, paramSetValue.
    destruct (_ =? DEVICE_CPU); [| destruct (_ =? DEVICE_CUDA)]; cbn [values].
    all: simplify_map_eq; reflexivity.
Qed.

Lemma updateParamsValidity_idempotent_witness :
  let w := Scenario.fresh_instance Scenario.custom_params in
  updateParamsValidity (updateParamsValidity w).2 = (Ok tt, (updateParamsValidity w).2).
Proof.
  refine (proj1 (updateParamsValidity_idempotent
            (Scenario.fresh_instance Scenario.custom_params) _)).
  repeat split.
Defined.

Lemma effectCreateInstance_eq (w : World) :
  effectCreateInstance w
  = (Ok kOfxStatOK, (updateParamsValidity (set_priv InstanceData_new w)).2).
Proof.
  unfold effectCreateInstance, bind, modify_priv, ret.
  pose proof (updateParamsValidity_ok (set_priv InstanceData_new w)) as E.
  destruct (updateParamsValidity _) as [r w']. cbn in E. subst r. reflexivity.
Qed.

(** X17: a new instance holds the handles of the four clips and eight
    parameters, is not ready, has an empty history and no matte
    connected.  The validity rules have been applied to the parameters:
    that of the device and the precision, that of the model file, and
    that of the output type; no other value or control has changed.
    The cached configuration is not read from the parameters: it is the
    zero-initialised one (RGBA, colour from the input, no
    post-multiplication, ratio 0) whatever they hold. *)
Theorem effectCreateInstance_state (w : World) :
  let r := effectCreateInstance w in
  let p := priv r.2 in
  let ps0 := params w in
  let ps := params r.2 in
  r.1 = Ok kOfxStatOK
  /\ outputClip p = kOfxImageEffectOutputClipName /\ inputClip p = "Input"
  /\ garbageMatteClip p = "GarbageMatte" /\ solidMatteClip p = "SolidMatte"
  /\ handles_ok p
  /\ ready (torch p) = false /\ hist_empty (torch p)
  /\ hasGarbageMatte p = false /\ hasSolidMatte p = false
  /\ outputType p = OUTPUT_RGBA /\ colorSource p = COLOR_SRC_INPUT
  /\ postmultiplyAlpha p = false /\ downsampleRatio p = IEEE.d_of_Z 0
  /\ heap r.2 = heap w /\ log r.2 = log w
  /\ (paramGetInt ps "device" = DEVICE_CPU ->
      paramGetInt ps "modelPrecision" = MODEL_PRECISION_FLOAT32
      /\ enabled ps !! "modelPrecision" = Some false)
  /\ (paramGetInt ps "device" = DEVICE_CUDA ->
      enabled ps !! "modelPrecision" = Some true)
  /\ enabled ps !! "modelFile" = Some (paramGetInt ps "model" =? MODEL_CUSTOM)
  /\ enabled ps !! "colorSource" = Some (paramGetInt ps "outputType" =? OUTPUT_RGBA)
  /\ enabled ps !! "postmultiplyAlpha" = Some (paramGetInt ps "outputType" =? OUTPUT_RGBA)
  /\ (forall name, name <> "modelPrecision" -> values ps !! name = values ps0 !! name)
  /\ (paramGetInt ps0 "device" <> DEVICE_CPU ->
      values ps !! "modelPrecision" = values ps0 !! "modelPrecision")
  /\ (paramGetInt ps0 "device" <> DEVICE_CPU -> paramGetInt ps0 "device" <> DEVICE_CUDA ->
      enabled ps !! "modelPrecision" = enabled ps0 !! "modelPrecision")
  /\ (forall name,
        name <> "modelPrecision" -> name <> "modelFile" ->
        name <> "colorSource" -> name <> "postmultiplyAlpha" ->
        enabled ps !! name = enabled ps0 !! name).
Proof.
  cbv zeta. rewrite effectCreateInstance_eq. cbn [fst snd].
  set (w0 := set_priv InstanceData_new w).
  assert (Hh : handles_ok (priv w0)) by (repeat split).
  pose proof (updateParamsValidity_rules w0 Hh) as Hrules. cbv zeta in Hrules.
  pose proof (updateParamsValidity_params w0 Hh) as E. cbv zeta in E.
  assert (Ep : priv (updateParamsValidity w0).2 = InstanceData_new) by (rewrite E; reflexivity).
  assert (Ehp : heap (updateParamsValidity w0).2 = heap w) by (rewrite E; reflexivity).
  assert (El : log (updateParamsValidity w0).2 = log w) by (rewrite E; reflexivity).
  clear E. rewrite Ep, Ehp, El.
  split; [reflexivity |].
  do 4 (split; [reflexivity |]).
  split; [repeat split |].
  split; [reflexivity |]. split; [repeat split |].
  do 8 (split; [reflexivity |]).
  exact Hrules.
Qed.

(** X18: no exception leaves the entry point: whatever the handler
    does, [ofxMain] returns a status (or the run has no defined
    behaviour). *)
Theorem ofxMain_no_exception (host : Host) (indeterminate : ImageInfo) (a : Action)
    (w : World) :
  (ofxMain host indeterminate a w).1 = Fault
  \/ exists st, (ofxMain host indeterminate a w).1 = Ok st.
Proof.
  unfold ofxMain. destruct (handler host indeterminate a w) as [[st | [] |] w']; cbn; eauto.
Qed.

(** ** Description of the plugin and clip preferences *)

(** X19: [effectDescribe] writes both names of the parameters that
    affect the clip preferences at index 0 of the same property: after
    it, the property holds "postmultiplyAlpha" at index 0, and
    "outputType" at no index at which it was not already. *)
Theorem effectDescribe_slave_params (props : PropSet) :
  let props' := (effectDescribe props).2 in
  (effectDescribe props).1 = Ok kOfxStatOK
  /\ props' !! (kOfxImageEffectPropClipPreferencesSlaveParam, 0)
     = Some (VString "postmultiplyAlpha")
  /\ forall i, props' !! (kOfxImageEffectPropClipPreferencesSlaveParam, i)
               = Some (VString "outputType") ->
               i <> 0
               /\ props !! (kOfxImageEffectPropClipPreferencesSlaveParam, i)
                  = Some (VString "outputType").
Proof.
  cbv zeta. unfold effectDescribe, bind, propSetString, propSetInt, ret. cbn [fst snd].
  split; [reflexivity |]. split; [apply lookup_insert_eq |].
  intros i H.
  destruct (decide (i = 0)) as [-> | Hi].
  { rewrite lookup_insert_eq in H. discriminate. }
  split; [exact Hi |].
  rewrite !lookup_insert_ne in H by (intros [= ?]; congruence). exact H.
Qed.

Lemma is_Some_alter {A} (f : A -> A) (m : gmap string A) (i j : string) :
  is_Some (m !! j) -> is_Some (alter f i m !! j).
Proof. intros H. apply lookup_alter_is_Some. exact H. Qed.

Lemma is_Some_insert {A} (m : gmap string A) (i j : string) (x : A) :
  i = j \/ is_Some (m !! j) -> is_Some (<[i := x]> m !! j).
Proof.
  intros [-> | H]; [rewrite lookup_insert_eq; eauto |].
  destruct (decide (i = j)) as [-> |]; [rewrite lookup_insert_eq; eauto |].
  rewrite lookup_insert_ne by assumption. exact H.
Qed.

(** The clips [effectDescribeInContext] declares, with the component
    layouts each supports. *)
Lemma described_clips (path : string) (d : Descriptor) :
  post (effectDescribeInContext kOfxImageEffectContextGeneral path) d (fun _ desc =>
    clipDefs desc !! "Output"
    = Some (<[(kOfxImageEffectPropSupportedComponents, 1) := VString kOfxImageComponentAlpha]>
              (<[(kOfxImageEffectPropSupportedComponents, 0) := VString kOfxImageComponentRGBA]>
                 ∅))
    /\ clipDefs desc !! "Input"
       = Some (<[(kOfxImageEffectPropSupportedComponents, 1) := VString kOfxImageComponentRGBA]>
                 (<[(kOfxImageEffectPropSupportedComponents, 0) := VString kOfxImageComponentRGB]>
                    ∅))
    /\ clipDefs desc !! "GarbageMatte"
       = Some (<[(kOfxImageClipPropOptional, 0) := VInt 1]>
                 (<[(kOfxImageEffectPropSupportedComponents, 1)
                      := VString kOfxImageComponentAlpha]>
                    (<[(kOfxImageEffectPropSupportedComponents, 0)
                         := VString kOfxImageComponentNone]> ∅)))
    /\ clipDefs desc !! "SolidMatte"
       = Some (<[(kOfxImageClipPropOptional, 0) := VInt 1]>
                 (<[(kOfxImageEffectPropSupportedComponents, 1)
                      := VString kOfxImageComponentAlpha]>
                    (<[(kOfxImageEffectPropSupportedComponents, 0)
                         := VString kOfxImageComponentNone]> ∅)))).
Proof.
  unfold effectDescribeInContext. rewrite strcmp_refl. cbn [negb].
  apply post_bind. unfold post at 1, get. cbn [fst snd].
  apply post_bind. unfold post at 1.
  destruct (bundlePath d); cbn [fst snd ret set_bundlePath].
  all: repeat (apply post_bind; unfold post at 1;
               cbn [fst snd clipDefine paramDefine propSet ret clipDefs paramDefs bundlePath]).
  all: unfold post; cbn [fst snd ret clipDefs].
  all: simplify_map_eq; auto.
Qed.

(** X20: in the general context [effectDescribeInContext] returns
    kOfxStatOK, sets the bundle path if it was not set (and keeps it
    otherwise), and defines every clip and every parameter whose handle
    [effectCreateInstance] fetches. *)
Theorem described_handles_exist (path : string) (d : Descriptor) :
  let r := effectDescribeInContext kOfxImageEffectContextGeneral path d in
  let p := InstanceData_new in
  r.1 = Ok kOfxStatOK
  /\ bundlePath r.2 = Some (default path (bundlePath d))
  /\ Forall (fun c => is_Some (clipDefs r.2 !! c))
       [outputClip p; inputClip p; garbageMatteClip p; solidMatteClip p]
  /\ Forall (fun n => is_Some (paramDefs r.2 !! n))
       [deviceParam p; modelParam p; modelFileParam p; modelPrecisionParam p;
        downsampleRatioParam p; outputTypeParam p; colorSourceParam p;
        postmultiplyAlphaParam p].
Proof.
  cbv zeta.
  change (post (effectDescribeInContext kOfxImageEffectContextGeneral path) d (fun r d' =>
            r = Ok kOfxStatOK
            /\ bundlePath d' = Some (default path (bundlePath d))
            /\ Forall (fun c => is_Some (clipDefs d' !! c))
                 ["Output"; "Input"; "GarbageMatte"; "SolidMatte"]
            /\ Forall (fun n => is_Some (paramDefs d' !! n))
                 ["device"; "model"; "modelFile"; "modelPrecision"; "downsampleRatio";
                  "outputType"; "colorSource"; "postmultiplyAlpha"])).
  unfold effectDescribeInContext. rewrite strcmp_refl. cbn [negb].
  apply post_bind. unfold post at 1, get. cbn [fst snd].
  apply post_bind. unfold post at 1.
  destruct (bundlePath d) eqn:Eb; cbn [fst snd ret set_bundlePath].
  all: repeat (apply post_bind; unfold post at 1;
               cbn [fst snd clipDefine paramDefine propSet ret clipDefs paramDefs bundlePath]).
  all: unfold post; cbn [fst snd ret clipDefs paramDefs bundlePath].
  all: rewrite ?Eb; split; [reflexivity |]; split; [reflexivity |].
  all: split; repeat apply Forall_cons_2; try apply Forall_nil_2.
  all: repeat first [apply is_Some_alter | apply is_Some_insert; first [left; reflexivity | right]].
Qed.

(** X21: in any context other than the general one
    [effectDescribeInContext] returns kOfxStatErrFatal and defines
    nothing. *)
Theorem effectDescribeInContext_wrong_context (context path : string) (d : Descriptor) :
  context <> kOfxImageEffectContextGeneral ->
  effectDescribeInContext context path d = (Ok kOfxStatErrFatal, d).
Proof.
  intros H. unfold effectDescribeInContext. rewrite (strcmp_ne _ _ H). reflexivity.
Qed.

Lemma effectDescribeInContext_wrong_context_witness :
  effectDescribeInContext "OfxImageEffectContextFilter" "/bundle" Scenario.no_descriptor
  = (Ok kOfxStatErrFatal, Scenario.no_descriptor).
Proof.
  apply (effectDescribeInContext_wrong_context "OfxImageEffectContextFilter" "/bundle"
           Scenario.no_descriptor).
  discriminate.
Defined.

(** X22: every component layout that [effectGetClipPreferences] sets
    for a clip is one that [effectDescribeInContext] declared as
    supported on that clip. *)
Theorem clip_preferences_supported (w : World) (outArgs : PropSet) (path : string)
    (d : Descriptor) (c v : string) :
  let prefs := (effectGetClipPreferences w outArgs).2 in
  let desc := (effectDescribeInContext kOfxImageEffectContextGeneral path d).2 in
  outArgs !! ("OfxImageClipPropComponents_" +:+ c, 0) = None ->
  prefs !! ("OfxImageClipPropComponents_" +:+ c, 0) = Some (VString v) ->
  exists ps i,
    clipDefs desc !! c = Some ps
    /\ ps !! (kOfxImageEffectPropSupportedComponents, i) = Some (VString v).
Proof.
  cbv zeta. intros Hnone H.
  pose proof (described_clips path d) as Hd. unfold post in Hd.
  destruct Hd as (Ho & Hi & Hg & Hs).
  unfold effectGetClipPreferences, bind, propSetString, ret in H.
  destruct (decide (c = "Output")) as [-> | Hco];
    [| destruct (decide (c = "SolidMatte")) as [-> | Hcs];
       [| destruct (decide (c = "GarbageMatte")) as [-> | Hcg]]].
  all: destruct (hasGarbageMatte (priv w)), (hasSolidMatte (priv w)); cbn [fst snd] in H.
  all: cbv [String.append kOfxImageEffectPropPreMultiplication] in H, Hnone.
  all: repeat first [ rewrite lookup_insert_ne in H by congruence
                    | rewrite lookup_insert_eq in H ].
  all: try congruence.
  all: injection H as <-.
  all: rewrite ?Ho, ?Hs, ?Hg; eexists.
  all: try (exists 1; split; reflexivity).
  all: destruct (_ =? OUTPUT_ALPHA); [exists 1 | exists 0]; split; reflexivity.
Qed.

Lemma clip_preferences_supported_witness :
  let prefs := (effectGetClipPreferences Example.rendered ∅).2 in
  let desc := (effectDescribeInContext kOfxImageEffectContextGeneral "/bundle"
                 Scenario.no_descriptor).2 in
  prefs !! ("OfxImageClipPropComponents_Output", 0) = Some (VString kOfxImageComponentRGBA)
  /\ exists ps i,
       clipDefs desc !! "Output" = Some ps
       /\ ps !! (kOfxImageEffectPropSupportedComponents, i)
          = Some (VString kOfxImageComponentRGBA).
Proof.
  assert (H : (effectGetClipPreferences Example.rendered ∅).2
              !! ("OfxImageClipPropComponents_" +:+ "Output", 0)
              = Some (VString kOfxImageComponentRGBA)) by (vm_compute; reflexivity).
  split; [exact H |].
  refine (clip_preferences_supported Example.rendered ∅ "/bundle" Scenario.no_descriptor
            "Output" kOfxImageComponentRGBA _ H).
  vm_compute. reflexivity.
Defined.

(** X23: the component layouts declared as supported on the input clip
    are exactly those the render accepts for the input image (three or
    four channels). *)
Theorem input_layouts_declared (path : string) (d : Descriptor) (layout : string) :
  let desc := (effectDescribeInContext kOfxImageEffectContextGeneral path d).2 in
  (exists ps i,
      clipDefs desc !! "Input" = Some ps
      /\ ps !! (kOfxImageEffectPropSupportedComponents, i) = Some (VString layout))
  <-> components_nc layout = Some 3 \/ components_nc layout = Some 4.
Proof.
  cbv zeta. pose proof (described_clips path d) as Hd. unfold post in Hd.
  destruct Hd as (_ & Hi & _). rewrite Hi. split.
  - intros (ps & i & [= <-] & H).
    destruct (decide (i = 1)) as [-> | H1].
    { rewrite lookup_insert_eq in H. injection H as <-. right. reflexivity. }
    rewrite lookup_insert_ne in H by congruence.
    destruct (decide (i = 0)) as [-> | H0].
    { rewrite lookup_insert_eq in H. injection H as <-. left. reflexivity. }
    rewrite lookup_insert_ne in H by congruence. discriminate.
  - unfold components_nc. rewrite !strcmp_eqb.
    destruct (String.eqb_spec layout kOfxImageComponentRGBA) as [-> | _].
    { intros _. eexists _, 1. split; [reflexivity |]. apply lookup_insert_eq. }
    destruct (String.eqb_spec layout kOfxImageComponentRGB) as [-> | _].
    { intros _. eexists _, 0. split; [reflexivity |].
      rewrite lookup_insert_ne by congruence. apply lookup_insert_eq. }
    destruct (String.eqb layout kOfxImageComponentAlpha); intros [[=] | [=]].
Qed.

Lemma repeat_throws (t : Tensor) (reps : list Z) (hp : Heap) (e : exn) :
  (repeat t reps hp).1 = Throw e -> e = StdException.
Proof.
  unfold repeat. destruct t as [ti |]; [| intros [= <-]; reflexivity].
  destruct (_ || _); [intros [= <-]; reflexivity |].
  destruct (read hp ti); [| discriminate].
  destruct (fresh _ _ _ _ _). discriminate.
Qed.

Lemma mul__throws (a b : Tensor) (hp : Heap) (e : exn) :
  (mul_ a b hp).1 = Throw e -> e = StdException.
Proof.
  unfold mul_. destruct a as [ta |], b as [tb |]; try (intros [= <-]; reflexivity).
  destruct (broadcast_reps _ _); [| intros [= <-]; reflexivity].
  destruct (_ && _); [| intros [= <-]; reflexivity].
  destruct (read hp ta), (read hp tb); discriminate.
Qed.

Lemma cat_throws (a b : Tensor) (d : nat) (hp : Heap) (e : exn) :
  (cat a b d hp).1 = Throw e -> e = StdException.
Proof.
  unfold cat. destruct a as [ta |], b as [tb |]; try (intros [= <-]; reflexivity).
  destruct (_ && _); [| intros [= <-]; reflexivity].
  destruct (read hp ta), (read hp tb); discriminate.
Qed.

Lemma liftH_throws {A} (m : M Heap A) (w : World) (e : exn) :
  (liftH m w).1 = Throw e -> (m (heap w)).1 = Throw e.
Proof. unfold liftH. destruct (m (heap w)). auto. Qed.

(** X24: when the cached output type is the one of the parameter, and
    the output image has the layout the clip preferences asked for, the
    compositor does not reject the output image (it does not throw
    NoImageEx); in alpha mode it returns the alpha tensor itself. *)
Theorem composite_accepts_declared_layout (w : World) (outArgs : PropSet)
    (outputImg : ImageInfo) (inputTensor fgr pha : Tensor) :
  outputType (priv w) = paramGetInt (params w) (outputTypeParam (priv w)) ->
  outputType (priv w) = OUTPUT_RGBA \/ outputType (priv w) = OUTPUT_ALPHA ->
  (effectGetClipPreferences w outArgs).2 !! ("OfxImageClipPropComponents_Output", 0)
  = Some (VString (components outputImg)) ->
  (composite outputImg inputTensor fgr pha w).1 <> Throw NoImageEx
  /\ (outputType (priv w) = OUTPUT_ALPHA ->
      composite outputImg inputTensor fgr pha w = (Ok pha, w)).
Proof.
  intros Hc Ht H.
  unfold effectGetClipPreferences, bind, propSetString, ret in H.
  destruct (hasGarbageMatte (priv w)), (hasSolidMatte (priv w)); cbn [fst snd] in H.
  all: cbv [kOfxImageEffectPropPreMultiplication] in H.
  all: rewrite lookup_insert_ne in H by congruence.
  all: rewrite lookup_insert_ne in H by congruence.
  all: rewrite lookup_insert_eq in H; rewrite <- Hc in H; injection H as H.
  all: unfold composite; rewrite bind_getInstanceData.
  all: destruct Ht as [Ht | Ht]; rewrite Ht in *; cbn [Z.eqb OUTPUT_RGBA OUTPUT_ALPHA] in *.
  all: try (split; [| discriminate]).
  all: try (rewrite <- H; split; [discriminate | reflexivity]).
  all: intros E.
  all: unfold bind, ret in E.
  all: destruct (postmultiplyAlpha (priv w)).
  all: repeat match type of E with
         | context [liftH ?m ?w0] =>
             let E' := fresh "E" in
             destruct (liftH m w0) as [[? | e' |] ?] eqn:E'; cbn [fst snd] in E;
             try discriminate;
             try (injection E as ->;
                  apply (f_equal fst) in E'; cbn [fst] in E';
                  apply liftH_throws in E';
                  first [apply repeat_throws in E' | apply mul__throws in E'
                        | apply cat_throws in E']; discriminate)
         end.
  all: try discriminate.
Qed.

Lemma composite_accepts_declared_layout_witness :
  (composite Scenario.output_image None (Composite.tensor 0 3) (Composite.tensor 1 1)
     Composite.world).1 <> Throw NoImageEx.
Proof.
  refine (proj1 (composite_accepts_declared_layout Composite.world ∅ Scenario.output_image
            None (Composite.tensor 0 3) (Composite.tensor 1 1) _ _ _)).
  - reflexivity.
  - left. reflexivity.
  - vm_compute. reflexivity.
Defined.

(** ** The plugin table *)

(** X25: [OfxGetPlugin] returns a plugin exactly for the indices below
    [OfxGetNumberOfPlugins]. *)
Theorem OfxGetPlugin_bounds (nth : Z) :
  is_Some (OfxGetPlugin nth) <-> 0 <= nth < OfxGetNumberOfPlugins.
Proof.
  unfold OfxGetPlugin, OfxGetNumberOfPlugins.
  destruct (0 <=? nth) eqn:E0; destruct (nth <? Z.of_nat (length _plugins)) eqn:E1; cbn [andb].
  - split; [lia |]. intros _. apply lookup_lt_is_Some. lia.
  - split; [intros [? [=]] | lia].
  - split; [intros [? [=]] | lia].
  - split; [intros [? [=]] | lia].
Qed.

(** ** An edit of the downsample ratio *)

(** X26: when the user edits the downsample ratio, the change handler
    answers OK and drops the recurrent history, and nothing else: the
    loaded model, its device and precision, the cached ratio (read
    again only when the batch of changes ends), the parameters, the
    memory and the images are as before. *)
Theorem downsampleRatio_edit_clears_history (host : Host) (w : World) :
  hist_inv (torch (priv w)) ->
  let r := effectInstanceChanged host kOfxChangeUserEdited kOfxTypeParameter
             "downsampleRatio" w in
  r.1 = Ok kOfxStatOK
  /\ hist_empty (torch (priv r.2))
  /\ ready (torch (priv r.2)) = ready (torch (priv w))
  /\ model (torch (priv r.2)) = model (torch (priv w))
  /\ device (torch (priv r.2)) = device (torch (priv w))
  /\ type (torch (priv r.2)) = type (torch (priv w))
  /\ downsampleRatio (priv r.2) = downsampleRatio (priv w)
  /\ heap r.2 = heap w /\ params r.2 = params w /\ log r.2 = log w.
Proof.
  intros Hinv. cbv zeta.
  assert (E : effectInstanceChanged host kOfxChangeUserEdited kOfxTypeParameter
                "downsampleRatio" w
              = (Ok kOfxStatOK, (modelClearHistory w).2)).
  { change (effectInstanceChanged host kOfxChangeUserEdited kOfxTypeParameter
              "downsampleRatio" w)
      with ((let* _ := modelClearHistory in ret kOfxStatOK) w).
    unfold bind. pose proof (modelClearHistory_ok w) as Ho.
    destruct (modelClearHistory w) as [r w']. cbn in Ho. subst r. reflexivity. }
  rewrite E. cbn [fst snd].
  destruct (modelClearHistory_empty w Hinv) as (He & _).
  destruct (modelClearHistory_frame w) as (Fh & Fp & Fl & Fr & Fd & Ft & Fm).
  split; [reflexivity |]. split; [exact He |].
  repeat split; try assumption.
  unfold modelClearHistory, bind, getInstanceData. cbn.
  destruct (IEEE.is_nan _); reflexivity.
Qed.

(** After a rendered frame the history is whole; the edit empties it. *)
Lemma downsampleRatio_edit_clears_history_witness :
  let r := effectInstanceChanged (Example.host_of Example.rvm) kOfxChangeUserEdited
             kOfxTypeParameter "downsampleRatio" Example.rendered in
  hist_whole (torch (priv Example.rendered)) /\ hist_empty (torch (priv r.2)).
Proof.
  assert (H : hist_whole (torch (priv Example.rendered))).
  { split; vm_compute; reflexivity. }
  split; [exact H |].
  exact (proj1 (proj2 (downsampleRatio_edit_clears_history (Example.host_of Example.rvm)
                         Example.rendered (or_introl H)))).
Defined.

(** ** The round trip of a float image *)




















(** *** Reading a height x width x channels view row by row *)


Lemma flat_map_uniform_length {A B} (f : A -> list B) (K : nat) (l : list A) :
  (forall a, length (f a) = K) -> length (flat_map f l) = (length l * K)%nat.
Proof.
  intros Hf. induction l as [| a l IH]; [reflexivity |].
  cbn [flat_map length]. rewrite length_app, Hf, IH. lia.
Qed.





Lemma rows_of_length {A} (H K : nat) (f : nat -> nat -> A) :
  length (rows_of H K f) = (H * K)%nat.
Proof.
  unfold rows_of. rewrite (flat_map_uniform_length _ K), length_seq; [reflexivity |].
  intros. rewrite length_map, length_seq. reflexivity.
Qed.





